(** * Texas Hold'em table engine: hand evaluator and betting state machine

    A shallow embedding of [src/lib/deck.ts], [src/lib/hand-evaluator.ts]
    and the [PokerGameEngine] class of [src/lib/game-engine.ts], followed by
    the properties of the specification that are checked against it.

    Modelling conventions.
    - A JavaScript [number] holding a chip amount, a card value or a hand
      strength is an integer of [Z]; the one place where the evaluator could
      produce [NaN] (arithmetic on an [undefined] array slot) is kept visible:
      a strength is an [option Z] and [None] stands for [NaN].  Sums and
      differences are exact in [Z]; those of the program are exact as long as
      the integers stay within [Number.MAX_SAFE_INTEGER], 2^53 - 1, and round
      beyond it.  Stacks, blinds and the amounts of actions that are not
      integers (a fraction, [NaN]), which the program does not refuse, are
      outside the model.
    - [Array.prototype.sort] with a comparator is an insertion sort driven by
      the same comparator.  Every comparator of the program returns [0] only on
      equal values, so the sorted array does not depend on the algorithm.
    - A JavaScript object used as a dictionary is an association list kept in
      the order in which [Object.keys] enumerates it.
    - A method that mutates [this.gameState] is a function from states to
      states; a [throw] is an [Err] that still carries the state reached. *)

From stdpp Require Import list numbers sorting strings.

Local Open Scope Z_scope.

(** ** Cards ([types.ts]) *)

Inductive Suit := hearts | diamonds | clubs | spades.

Inductive Rank := RA | R2 | R3 | R4 | R5 | R6 | R7 | R8 | R9 | RT | RJ | RQ | RK.

Record Card := mkCard { suit : Suit; rank : Rank }.

#[global] Instance Suit_eq_dec : EqDecision Suit.
Proof. solve_decision. Defined.
#[global] Instance Rank_eq_dec : EqDecision Rank.
Proof. solve_decision. Defined.
#[global] Instance Card_eq_dec : EqDecision Card.
Proof. solve_decision. Defined.

Definition Suit_eqb (a b : Suit) : bool :=
  match a, b with
  | hearts, hearts | diamonds, diamonds | clubs, clubs | spades, spades => true
  | _, _ => false
  end.

Definition Rank_eqb (a b : Rank) : bool :=
  match a, b with
  | RA, RA | R2, R2 | R3, R3 | R4, R4 | R5, R5 | R6, R6 | R7, R7
  | R8, R8 | R9, R9 | RT, RT | RJ, RJ | RQ, RQ | RK, RK => true
  | _, _ => false
  end.

(** Hand categories, weakest to strongest, with the numeric value of the
    TypeScript enum. *)
Inductive HandRank :=
  | HIGH_CARD | PAIR | TWO_PAIR | THREE_OF_A_KIND | STRAIGHT
  | FLUSH | FULL_HOUSE | FOUR_OF_A_KIND | STRAIGHT_FLUSH | ROYAL_FLUSH.

Definition HandRank_num (r : HandRank) : Z :=
  match r with
  | HIGH_CARD => 1 | PAIR => 2 | TWO_PAIR => 3 | THREE_OF_A_KIND => 4
  | STRAIGHT => 5 | FLUSH => 6 | FULL_HOUSE => 7 | FOUR_OF_A_KIND => 8
  | STRAIGHT_FLUSH => 9 | ROYAL_FLUSH => 10
  end.

(** [HandEvaluation]: the [description] and [cards] fields are display data
    that no comparison reads; they are left out. *)
Record HandEvaluation := mkEval { he_rank : HandRank; he_value : option Z }.

(** ** Errors thrown by the program *)

Inductive Error :=
  | NeedAtLeastFiveCards | ExpectedFiveCards | FailedToEvaluate
  | CannotDeal | NeedTwoPlayers | TypeError
  | PlayerNotFound | NotPlayersTurn | PlayerAlreadyFolded | PlayerAlreadyAllIn
  | CannotCheckFacingABet | NothingToCall | NotEnoughChipsToCall
  | CannotBetFacingABet | BelowMinimumBet | NotEnoughChipsToBet
  | CannotRaiseNoBet | BelowMinimumRaise | NotEnoughChipsToRaise
  | PlayerHasNoChips.

Inductive result (A : Type) :=
  | Ok (a : A)
  | Err (e : Error).
Arguments Ok {A} a.
Arguments Err {A} e.

(** ** Array helpers *)

Section ArraySort.
Context {A : Type} (cmp : A → A → Z).

(** The comparator contract of [Array.prototype.sort]: [cmp a b <= 0] keeps
    [a] before [b]. *)
Fixpoint sort_insert (x : A) (l : list A) : list A :=
  match l with
  | [] => [x]
  | y :: l' => if cmp x y <=? 0 then x :: l else y :: sort_insert x l'
  end.

Definition js_sort (l : list A) : list A := foldr sort_insert [] l.
End ArraySort.

Definition ascending (a b : Z) : Z := a - b.
Definition descending (a b : Z) : Z := b - a.

(** [Array.from(new Set(xs))]: the first occurrence of each value, in order. *)
Fixpoint set_from_aux (seen xs : list Z) : list Z :=
  match xs with
  | [] => []
  | x :: xs' =>
      if existsb (Z.eqb x) seen then set_from_aux seen xs'
      else x :: set_from_aux (x :: seen) xs'
  end.
Definition set_from (xs : list Z) : list Z := set_from_aux [] xs.

(** [v || d] on a possibly undefined number: [undefined] and [0] are falsy. *)
Definition or_default (v : option Z) (d : Z) : Z :=
  match v with
  | Some x => if x =? 0 then d else x
  | None => d
  end.

(** Truthiness of a possibly null object. *)
Definition is_Some_b {A : Type} (o : option A) : bool :=
  match o with Some _ => true | None => false end.

(** ** [deck.ts] *)

Definition rankToValue (r : Rank) (aceHigh : bool) : Z :=
  match r with
  | RA => if aceHigh then 14 else 1
  | RK => 13
  | RQ => 12
  | RJ => 11
  | RT => 10
  | R2 => 2 | R3 => 3 | R4 => 4 | R5 => 5
  | R6 => 6 | R7 => 7 | R8 => 8 | R9 => 9
  end.

Definition suitOrder (s : Suit) : Z :=
  match s with clubs => 1 | diamonds => 2 | hearts => 3 | spades => 4 end.

Definition compareCards (aceHigh : bool) (card1 card2 : Card) : Z :=
  let value1 := rankToValue (rank card1) aceHigh in
  let value2 := rankToValue (rank card2) aceHigh in
  if negb (value1 =? value2) then value1 - value2
  else suitOrder (suit card1) - suitOrder (suit card2).

Definition sortCards (cards : list Card) (aceHigh : bool) : list Card :=
  js_sort (compareCards aceHigh) cards.

(** [dealCards] removes the first [count] cards of the deck and returns them
    with the remaining deck. *)
Definition dealCards (deck : list Card) (count : nat) : result (list Card * list Card) :=
  if (length deck <? count)%nat then Err CannotDeal
  else Ok (take count deck, drop count deck).

(** ** [hand-evaluator.ts] *)

Definition CATEGORY_BASE : Z := 1000000000.

(** [arr.reduce((acc, v) => acc * 15 + v, 0)]; an [undefined] entry makes the
    result [NaN]. *)
Definition encode (arr : list (option Z)) : option Z :=
  fold_left (fun acc v =>
               match acc, v with
               | Some a, Some x => Some (a * 15 + x)
               | _, _ => None
               end) arr (Some 0).

Definition value_of (r : Rank) : Z := rankToValue r true.

(** The card test shared by the flush checks:
    [cards.every(card => card.suit === cards[0].suit)]. *)
Definition isFlush (cards : list Card) : bool :=
  match cards with
  | [] => true
  | c0 :: _ => forallb (fun card => Suit_eqb (suit card) (suit c0)) cards
  end.

(** [getRankCounts]: an object keyed by the rank character.  [Object.keys]
    lists the integer-like keys ['2'..'9'] first, in increasing order, and
    then the other keys in insertion order. *)
Definition isIndexKey (r : Rank) : bool :=
  match r with
  | R2 | R3 | R4 | R5 | R6 | R7 | R8 | R9 => true
  | _ => false
  end.

Definition key_before (r k : Rank) : bool :=
  isIndexKey r && (negb (isIndexKey k) || (value_of r <? value_of k)).

Fixpoint counts_incr (r : Rank) (o : list (Rank * Z)) : list (Rank * Z) :=
  match o with
  | [] => [(r, 1)]
  | (k, n) :: o' =>
      if Rank_eqb k r then (k, n + 1) :: o'
      else if key_before r k then (r, 1) :: o
      else (k, n) :: counts_incr r o'
  end.

Definition getRankCounts (cards : list Card) : list (Rank * Z) :=
  fold_left (fun counts card => counts_incr (rank card) counts) cards [].

Definition keys {K V : Type} (o : list (K * V)) : list K := map fst o.

Fixpoint count_of (o : list (Rank * Z)) (r : Rank) : option Z :=
  match o with
  | [] => None
  | (k, n) :: o' => if Rank_eqb k r then Some n else count_of o' r
  end.

Definition count_is (o : list (Rank * Z)) (n : Z) (r : Rank) : bool :=
  match count_of o r with
  | Some m => m =? n
  | None => false
  end.

(** [card.rank === 'A' ? 1 : rankToValue(card.rank)] *)
Definition aceLowValue (r : Rank) : Z :=
  if Rank_eqb r RA then 1 else value_of r.

Definition checkStraight (cards : list Card) : option HandEvaluation :=
  let values := js_sort ascending (map (fun card => value_of (rank card)) cards) in
  let isStraight :=
    forallb (fun i => match values !! i, values !! (i - 1)%nat with
                      | Some a, Some b => a =? b + 1
                      | _, _ => false
                      end) (seq 1 (length values - 1)) in
  if isStraight then
    Some (mkEval STRAIGHT
            (match last values with
             | Some h => Some (HandRank_num STRAIGHT * CATEGORY_BASE + h)
             | None => None
             end))
  else
    let wheelValues := [1; 2; 3; 4; 5] in
    let aceLowValues :=
      js_sort ascending
        (map (fun card => aceLowValue (rank card)) cards) in
    if bool_decide (aceLowValues = wheelValues) then
      Some (mkEval STRAIGHT (Some (HandRank_num STRAIGHT * CATEGORY_BASE + 5)))
    else None.

Definition checkRoyalFlush (cards : list Card) : option HandEvaluation :=
  if negb (isFlush cards) then None
  else
    let ranksSet := map rank cards in
    let royalRanks := [RT; RJ; RQ; RK; RA] in
    let isRoyal := forallb (fun r => existsb (Rank_eqb r) ranksSet) royalRanks in
    if negb isRoyal then None
    else Some (mkEval ROYAL_FLUSH (Some (HandRank_num ROYAL_FLUSH * CATEGORY_BASE + 14))).

Definition checkStraightFlush (cards : list Card) : option HandEvaluation :=
  if negb (isFlush cards) then None
  else
    match checkStraight cards with
    | None => None
    | Some straight =>
        let straightHigh :=
          match he_value straight with
          | Some v => Some (v - HandRank_num STRAIGHT * CATEGORY_BASE)
          | None => None
          end in
        Some (mkEval STRAIGHT_FLUSH
                (match straightHigh with
                 | Some h => Some (HandRank_num STRAIGHT_FLUSH * CATEGORY_BASE + h)
                 | None => None
                 end))
    end.

(** [base + encode(arr)] *)
Definition packed (category : HandRank) (arr : list (option Z)) : option Z :=
  match encode arr with
  | Some e => Some (HandRank_num category * CATEGORY_BASE + e)
  | None => None
  end.

Definition checkFourOfAKind (cards : list Card) : option HandEvaluation :=
  let rankCounts := getRankCounts cards in
  match find (count_is rankCounts 4) (keys rankCounts) with
  | None => None
  | Some quadRank =>
      let kicker := find (fun r => negb (Rank_eqb r quadRank)) (keys rankCounts) in
      Some (mkEval FOUR_OF_A_KIND
              (packed FOUR_OF_A_KIND [Some (value_of quadRank); value_of <$> kicker]))
  end.

Definition checkFullHouse (cards : list Card) : option HandEvaluation :=
  let rankCounts := getRankCounts cards in
  let tripleRank := find (count_is rankCounts 3) (keys rankCounts) in
  let pairRank := find (count_is rankCounts 2) (keys rankCounts) in
  match tripleRank, pairRank with
  | Some t, Some p =>
      Some (mkEval FULL_HOUSE (packed FULL_HOUSE [Some (value_of t); Some (value_of p)]))
  | _, _ => None
  end.

Definition checkFlush (cards : list Card) : option HandEvaluation :=
  if negb (isFlush cards) then None
  else if is_Some_b (checkStraight cards) then None
  else
    let values := js_sort descending (map (fun card => value_of (rank card)) cards) in
    Some (mkEval FLUSH (packed FLUSH (map Some values))).

Definition checkThreeOfAKind (cards : list Card) : option HandEvaluation :=
  let rankCounts := getRankCounts cards in
  match find (count_is rankCounts 3) (keys rankCounts) with
  | None => None
  | Some tripleRank =>
      let kickers :=
        js_sort descending
          (map value_of (List.filter (fun r => negb (Rank_eqb r tripleRank)) (keys rankCounts))) in
      Some (mkEval THREE_OF_A_KIND
              (packed THREE_OF_A_KIND
                 [Some (value_of tripleRank); kickers !! 0%nat; kickers !! 1%nat]))
  end.

Definition checkTwoPair (cards : list Card) : option HandEvaluation :=
  let rankCounts := getRankCounts cards in
  let pairs := List.filter (count_is rankCounts 2) (keys rankCounts) in
  if negb (length pairs =? 2)%nat then None
  else
    let pairValues := js_sort descending (map value_of pairs) in
    let kicker := find (count_is rankCounts 1) (keys rankCounts) in
    Some (mkEval TWO_PAIR
            (packed TWO_PAIR [pairValues !! 0%nat; pairValues !! 1%nat; value_of <$> kicker])).

Definition checkOnePair (cards : list Card) : option HandEvaluation :=
  let rankCounts := getRankCounts cards in
  match find (count_is rankCounts 2) (keys rankCounts) with
  | None => None
  | Some pairRank =>
      let kickers :=
        js_sort descending
          (map value_of (List.filter (fun r => negb (Rank_eqb r pairRank)) (keys rankCounts))) in
      Some (mkEval PAIR
              (packed PAIR
                 [Some (value_of pairRank); kickers !! 0%nat; kickers !! 1%nat; kickers !! 2%nat]))
  end.

Definition checkHighCard (cards : list Card) : HandEvaluation :=
  let values := js_sort descending (map (fun card => value_of (rank card)) cards) in
  mkEval HIGH_CARD (packed HIGH_CARD (map Some values)).

(** The cascade of [evaluateFiveCards], on the cards already sorted. *)
Definition classifyFive (sortedCards : list Card) : HandEvaluation :=
  match checkRoyalFlush sortedCards with Some e => e | None =>
  match checkStraightFlush sortedCards with Some e => e | None =>
  match checkFourOfAKind sortedCards with Some e => e | None =>
  match checkFullHouse sortedCards with Some e => e | None =>
  match checkFlush sortedCards with Some e => e | None =>
  match checkStraight sortedCards with Some e => e | None =>
  match checkThreeOfAKind sortedCards with Some e => e | None =>
  match checkTwoPair sortedCards with Some e => e | None =>
  match checkOnePair sortedCards with Some e => e | None =>
  checkHighCard sortedCards
  end end end end end end end end end.

Definition evaluateFiveCards (cards : list Card) : result HandEvaluation :=
  if negb (length cards =? 5)%nat then Err ExpectedFiveCards
  else Ok (classifyFive (sortCards cards true)).

(** *** The direct classifier for six or seven cards *)

(** [rankCounts] of [evaluateSevenCards]: an object keyed by the numeric card
    value; every key is an array index, so [Object.keys] lists them in
    increasing order. *)
Fixpoint value_incr (v : Z) (o : list (Z * Z)) : list (Z * Z) :=
  match o with
  | [] => [(v, 1)]
  | (k, n) :: o' =>
      if k =? v then (k, n + 1) :: o'
      else if v <? k then (v, 1) :: o
      else (k, n) :: value_incr v o'
  end.

Fixpoint value_count (o : list (Z * Z)) (v : Z) : option Z :=
  match o with
  | [] => None
  | (k, n) :: o' => if k =? v then Some n else value_count o' v
  end.

Definition buildRankCounts (cards : list Card) : list (Z * Z) :=
  fold_left (fun counts c => value_incr (value_of (rank c)) counts) cards [].

(** [bySuit[s]]: the cards of suit [s], in input order. *)
Definition bySuit (cards : list Card) (s : Suit) : list Card :=
  List.filter (fun c => Suit_eqb (suit c) s) cards.

(** The loop of [findStraightHigh] from index [1] on: [prev] is
    [withWheel[i-1]]. *)
Fixpoint straightScan (prev : Z) (rest : list Z) (run : Z) (bestHigh : option Z) : option Z :=
  match rest with
  | [] => bestHigh
  | x :: rest' =>
      if x =? prev + 1 then
        straightScan x rest' (run + 1) (if run + 1 >=? 5 then Some x else bestHigh)
      else if negb (x =? prev) then straightScan x rest' 1 bestHigh
      else straightScan x rest' run bestHigh
  end.

Definition findStraightHigh (valuesAsc : list Z) : option Z :=
  if (length valuesAsc <? 5)%nat then None
  else
    let withWheel := if existsb (Z.eqb 14) valuesAsc then 1 :: valuesAsc else valuesAsc in
    match withWheel with
    | [] => None
    | w0 :: rest => straightScan w0 rest 1 None
    end.

(** [if (x)] on a [number | null | undefined]. *)
Definition truthy (x : option Z) : option Z :=
  match x with
  | Some v => if v =? 0 then None else Some v
  | None => None
  end.

Definition reduce15 (arr : list Z) : Z := fold_left (fun acc v => acc * 15 + v) arr 0.

(** [rankCounts[v] >= n] and [rankCounts[v] === n] *)
Definition count_ge (rankCounts : list (Z * Z)) (n v : Z) : bool :=
  match value_count rankCounts v with Some m => m >=? n | None => false end.
Definition count_eq (rankCounts : list (Z * Z)) (n v : Z) : bool :=
  match value_count rankCounts v with Some m => m =? n | None => false end.

(** The classification part of [evaluateSevenCards], on the two
    dictionaries built by its first loop: [rankCounts] and, when some suit
    holds five cards or more, the card values [bySuit[flushSuit]] of the first
    such suit. *)
Definition classifySeven (rankCounts : list (Z * Z)) (flushValues : option (list Z))
  : HandEvaluation :=
  let uniqueValuesAsc := js_sort ascending (keys rankCounts) in
  let uniqueValuesDesc := js_sort descending uniqueValuesAsc in
  (* 1) Straight flush *)
  let straightFlush :=
    match flushValues with
    | None => None
    | Some suited =>
        let valsAsc := js_sort ascending (set_from suited) in
        match truthy (findStraightHigh valsAsc) with
        | None => None
        | Some sfHigh =>
            let category := if sfHigh =? 14 then ROYAL_FLUSH else STRAIGHT_FLUSH in
            let rankBase := HandRank_num category * 1000000000 in
            Some (mkEval category (Some (rankBase + reduce15 (take 1 [sfHigh]))))
        end
    end in
  match straightFlush with Some e => e | None =>
  (* 2) Four of a kind *)
  match truthy (find (count_eq rankCounts 4) uniqueValuesDesc) with
  | Some quad =>
      let kicker := or_default (find (fun v => negb (v =? quad)) uniqueValuesDesc) 2 in
      mkEval FOUR_OF_A_KIND
        (Some (HandRank_num FOUR_OF_A_KIND * 1000000000 + (quad * 15 + kicker)))
  | None =>
  (* 3) Full house *)
  let tripsDesc := List.filter (count_ge rankCounts 3) uniqueValuesDesc in
  let pairsDesc := List.filter (count_ge rankCounts 2) uniqueValuesDesc in
  let fullHouse :=
    match tripsDesc with
    | [] => None
    | bestTrips :: moreTrips =>
        let pairCandidates := List.filter (fun v => negb (v =? bestTrips)) pairsDesc in
        match pairCandidates with
        | bestPair :: _ =>
            Some (mkEval FULL_HOUSE
                    (Some (HandRank_num FULL_HOUSE * 1000000000 + (bestTrips * 15 + bestPair))))
        | [] =>
            match moreTrips with
            | secondTrips :: _ =>
                Some (mkEval FULL_HOUSE
                        (Some (HandRank_num FULL_HOUSE * 1000000000
                               + (bestTrips * 15 + secondTrips))))
            | [] => None
            end
        end
    end in
  match fullHouse with Some e => e | None =>
  (* 4) Flush *)
  match flushValues with
  | Some suited =>
      let top5 := take 5 (js_sort descending (set_from suited)) in
      mkEval FLUSH (Some (HandRank_num FLUSH * 1000000000 + reduce15 top5))
  | None =>
  (* 5) Straight *)
  match truthy (findStraightHigh uniqueValuesAsc) with
  | Some straightHigh =>
      mkEval STRAIGHT (Some (HandRank_num STRAIGHT * 1000000000 + straightHigh))
  | None =>
  (* 6) Three of a kind *)
  match tripsDesc with
  | t :: _ =>
      let kickers := take 2 (List.filter (fun v => negb (v =? t)) uniqueValuesDesc) in
      mkEval THREE_OF_A_KIND
        (Some (HandRank_num THREE_OF_A_KIND * 1000000000
               + reduce15 [t; or_default (kickers !! 0%nat) 0; or_default (kickers !! 1%nat) 0]))
  | [] =>
  (* 7) Two pair *)
  match pairsDesc with
  | p1 :: p2 :: _ =>
      let kicker :=
        or_default (find (fun v => negb (v =? p1) && negb (v =? p2)) uniqueValuesDesc) 0 in
      mkEval TWO_PAIR
        (Some (HandRank_num TWO_PAIR * 1000000000 + reduce15 [p1; p2; kicker]))
  (* 8) One pair *)
  | [p] =>
      let kickers := take 3 (List.filter (fun v => negb (v =? p)) uniqueValuesDesc) in
      mkEval PAIR
        (Some (HandRank_num PAIR * 1000000000
               + reduce15 [p; or_default (kickers !! 0%nat) 0;
                           or_default (kickers !! 1%nat) 0;
                           or_default (kickers !! 2%nat) 0]))
  (* 9) High card *)
  | [] =>
      let highs := take 5 uniqueValuesDesc in
      mkEval HIGH_CARD (Some (HandRank_num HIGH_CARD * 1000000000 + reduce15 highs))
  end end end end end end end.

(** [flushSuit]: the first key of [bySuit] holding five cards or more. *)
Definition flushSuit (cards : list Card) : option Suit :=
  find (fun s => (5 <=? length (bySuit cards s))%nat) [hearts; diamonds; clubs; spades].

Definition evaluateSevenCards (cards : list Card) : HandEvaluation :=
  classifySeven (buildRankCounts cards)
    ((fun s => map (fun c => value_of (rank c)) (bySuit cards s)) <$> flushSuit cards).

(** [generateCombinations(array, k)]: the backtracking enumerates the
    index-increasing selections in lexicographic order. *)
Fixpoint generateCombinations {A : Type} (array : list A) (k : nat) : list (list A) :=
  match k with
  | O => [[]]
  | S k' =>
      match array with
      | [] => []
      | x :: rest =>
          map (cons x) (generateCombinations rest k') ++ generateCombinations rest k
      end
  end.

(** [a > b] on numbers: false as soon as one side is [NaN]. *)
Definition js_gt (a b : option Z) : bool :=
  match a, b with
  | Some x, Some y => x >? y
  | _, _ => false
  end.

(** The exhaustive search of [findBestHand]; it is still in the file but
    [evaluateHand] no longer calls it. *)
Definition findBestHand (cards : list Card) : result HandEvaluation :=
  let combinations := generateCombinations cards 5 in
  let step (acc : result (option HandEvaluation)) (combination : list Card) :=
    match acc with
    | Err e => Err e
    | Ok bestHand =>
        match evaluateFiveCards combination with
        | Err e => Err e
        | Ok evaluation =>
            match bestHand with
            | None => Ok (Some evaluation)
            | Some best =>
                if js_gt (he_value evaluation) (he_value best)
                then Ok (Some evaluation) else Ok (Some best)
            end
        end
    end in
  match fold_left step combinations (Ok None) with
  | Err e => Err e
  | Ok None => Err FailedToEvaluate
  | Ok (Some best) => Ok best
  end.

Definition evaluateHand (cards : list Card) : result HandEvaluation :=
  if (length cards <? 5)%nat then Err NeedAtLeastFiveCards
  else if (length cards =? 5)%nat then evaluateFiveCards cards
  else Ok (evaluateSevenCards cards).

(** [Math.max(...xs)]: [-Infinity] is never reached because the caller
    returns early on an empty array; a [NaN] entry makes the result [NaN]. *)
Definition js_max (xs : list (option Z)) : option Z :=
  match xs with
  | [] => None
  | x :: xs' =>
      fold_left (fun acc v => match acc, v with
                              | Some a, Some b => Some (Z.max a b)
                              | _, _ => None
                              end) xs' x
  end.

(** [a === b] on numbers: [NaN] equals nothing. *)
Definition js_eq (a b : option Z) : bool :=
  match a, b with
  | Some x, Some y => x =? y
  | _, _ => false
  end.

Definition findWinners (hands : list HandEvaluation) : list nat :=
  match hands with
  | [] => []
  | _ =>
      let maxValue := js_max (map he_value hands) in
      map snd
        (List.filter (fun hi => js_eq (he_value (fst hi)) maxValue)
           (zip hands (seq 0 (length hands))))
  end.

(** ** Players, actions and the game state ([types.ts]) *)

Inductive BettingRound := PREFLOP | FLOP | TURN | RIVER | SHOWDOWN.

#[global] Instance BettingRound_eq_dec : EqDecision BettingRound.
Proof. solve_decision. Defined.

(** [PlayerAction]; the [amount] of an all-in is carried but never read.
    An amount is an integer: the program takes any number, and a fraction or
    [NaN] is not represented. *)
Inductive PlayerAction :=
  | ActFold
  | ActCheck
  | ActCall
  | ActBet (amount : Z)
  | ActRaise (amount : Z)
  | ActAllIn (amount : Z).

(** [Player], without the display fields [name] and [isAI]. *)
Record Player := mkPlayer {
  playerId : string;
  chips : Z;
  holeCards : list Card;
  currentBet : Z;
  totalBet : Z;
  position : nat;
  isDealer : bool;
  isSmallBlind : bool;
  isBigBlind : bool;
  hasActed : bool;
  isFolded : bool;
  isAllIn : bool;
  disconnected : bool
}.

Record SidePot := mkSidePot {
  amount : Z;
  eligiblePlayers : list string;
  isMain : bool
}.

(** [GameState], without the table name, the constant [maxPlayers] and
    [actionTimeoutMs], and the two wall-clock timestamps.  [tableBet] is the
    field [currentBet] of the state and [handComplete] its field
    [isHandComplete]; both names are already taken, by a field of [Player] and
    by a method.  An entry of [winners] keeps the player and the amount. *)
Record GameState := mkState {
  handNumber : Z;
  players : list Player;
  dealerPosition : nat;
  deck : list Card;
  communityCards : list Card;
  currentBettingRound : BettingRound;
  tableBet : Z;
  lastRaiseSize : Z;
  pot : Z;
  sidePots : list SidePot;
  smallBlind : Z;
  bigBlind : Z;
  activePlayerIndex : nat;
  lastAction : option PlayerAction;
  handComplete : bool;
  winners : list (string * Z)
}.

(** Field assignments. *)
Definition set_chips (v : Z) (p : Player) : Player :=
  mkPlayer (playerId p) v (holeCards p) (currentBet p) (totalBet p) (position p)
    (isDealer p) (isSmallBlind p) (isBigBlind p) (hasActed p) (isFolded p) (isAllIn p)
    (disconnected p).
Definition set_holeCards (v : list Card) (p : Player) : Player :=
  mkPlayer (playerId p) (chips p) v (currentBet p) (totalBet p) (position p)
    (isDealer p) (isSmallBlind p) (isBigBlind p) (hasActed p) (isFolded p) (isAllIn p)
    (disconnected p).
Definition set_currentBet (v : Z) (p : Player) : Player :=
  mkPlayer (playerId p) (chips p) (holeCards p) v (totalBet p) (position p)
    (isDealer p) (isSmallBlind p) (isBigBlind p) (hasActed p) (isFolded p) (isAllIn p)
    (disconnected p).
Definition set_totalBet (v : Z) (p : Player) : Player :=
  mkPlayer (playerId p) (chips p) (holeCards p) (currentBet p) v (position p)
    (isDealer p) (isSmallBlind p) (isBigBlind p) (hasActed p) (isFolded p) (isAllIn p)
    (disconnected p).
Definition set_isSmallBlind (v : bool) (p : Player) : Player :=
  mkPlayer (playerId p) (chips p) (holeCards p) (currentBet p) (totalBet p) (position p)
    (isDealer p) v (isBigBlind p) (hasActed p) (isFolded p) (isAllIn p) (disconnected p).
Definition set_isBigBlind (v : bool) (p : Player) : Player :=
  mkPlayer (playerId p) (chips p) (holeCards p) (currentBet p) (totalBet p) (position p)
    (isDealer p) (isSmallBlind p) v (hasActed p) (isFolded p) (isAllIn p) (disconnected p).
Definition set_hasActed (v : bool) (p : Player) : Player :=
  mkPlayer (playerId p) (chips p) (holeCards p) (currentBet p) (totalBet p) (position p)
    (isDealer p) (isSmallBlind p) (isBigBlind p) v (isFolded p) (isAllIn p) (disconnected p).
Definition set_isFolded (v : bool) (p : Player) : Player :=
  mkPlayer (playerId p) (chips p) (holeCards p) (currentBet p) (totalBet p) (position p)
    (isDealer p) (isSmallBlind p) (isBigBlind p) (hasActed p) v (isAllIn p) (disconnected p).
Definition set_isAllIn (v : bool) (p : Player) : Player :=
  mkPlayer (playerId p) (chips p) (holeCards p) (currentBet p) (totalBet p) (position p)
    (isDealer p) (isSmallBlind p) (isBigBlind p) (hasActed p) (isFolded p) v (disconnected p).

Definition set_handNumber (v : Z) (s : GameState) : GameState :=
  mkState v (players s) (dealerPosition s) (deck s) (communityCards s)
    (currentBettingRound s) (tableBet s) (lastRaiseSize s) (pot s) (sidePots s)
    (smallBlind s) (bigBlind s) (activePlayerIndex s) (lastAction s) (handComplete s)
    (winners s).
Definition set_players (v : list Player) (s : GameState) : GameState :=
  mkState (handNumber s) v (dealerPosition s) (deck s) (communityCards s)
    (currentBettingRound s) (tableBet s) (lastRaiseSize s) (pot s) (sidePots s)
    (smallBlind s) (bigBlind s) (activePlayerIndex s) (lastAction s) (handComplete s)
    (winners s).
Definition set_dealerPosition (v : nat) (s : GameState) : GameState :=
  mkState (handNumber s) (players s) v (deck s) (communityCards s)
    (currentBettingRound s) (tableBet s) (lastRaiseSize s) (pot s) (sidePots s)
    (smallBlind s) (bigBlind s) (activePlayerIndex s) (lastAction s) (handComplete s)
    (winners s).
Definition set_deck (v : list Card) (s : GameState) : GameState :=
  mkState (handNumber s) (players s) (dealerPosition s) v (communityCards s)
    (currentBettingRound s) (tableBet s) (lastRaiseSize s) (pot s) (sidePots s)
    (smallBlind s) (bigBlind s) (activePlayerIndex s) (lastAction s) (handComplete s)
    (winners s).
Definition set_communityCards (v : list Card) (s : GameState) : GameState :=
  mkState (handNumber s) (players s) (dealerPosition s) (deck s) v
    (currentBettingRound s) (tableBet s) (lastRaiseSize s) (pot s) (sidePots s)
    (smallBlind s) (bigBlind s) (activePlayerIndex s) (lastAction s) (handComplete s)
    (winners s).
Definition set_currentBettingRound (v : BettingRound) (s : GameState) : GameState :=
  mkState (handNumber s) (players s) (dealerPosition s) (deck s) (communityCards s)
    v (tableBet s) (lastRaiseSize s) (pot s) (sidePots s)
    (smallBlind s) (bigBlind s) (activePlayerIndex s) (lastAction s) (handComplete s)
    (winners s).
Definition set_tableBet (v : Z) (s : GameState) : GameState :=
  mkState (handNumber s) (players s) (dealerPosition s) (deck s) (communityCards s)
    (currentBettingRound s) v (lastRaiseSize s) (pot s) (sidePots s)
    (smallBlind s) (bigBlind s) (activePlayerIndex s) (lastAction s) (handComplete s)
    (winners s).
Definition set_lastRaiseSize (v : Z) (s : GameState) : GameState :=
  mkState (handNumber s) (players s) (dealerPosition s) (deck s) (communityCards s)
    (currentBettingRound s) (tableBet s) v (pot s) (sidePots s)
    (smallBlind s) (bigBlind s) (activePlayerIndex s) (lastAction s) (handComplete s)
    (winners s).
Definition set_pot (v : Z) (s : GameState) : GameState :=
  mkState (handNumber s) (players s) (dealerPosition s) (deck s) (communityCards s)
    (currentBettingRound s) (tableBet s) (lastRaiseSize s) v (sidePots s)
    (smallBlind s) (bigBlind s) (activePlayerIndex s) (lastAction s) (handComplete s)
    (winners s).
Definition set_sidePots (v : list SidePot) (s : GameState) : GameState :=
  mkState (handNumber s) (players s) (dealerPosition s) (deck s) (communityCards s)
    (currentBettingRound s) (tableBet s) (lastRaiseSize s) (pot s) v
    (smallBlind s) (bigBlind s) (activePlayerIndex s) (lastAction s) (handComplete s)
    (winners s).
Definition set_activePlayerIndex (v : nat) (s : GameState) : GameState :=
  mkState (handNumber s) (players s) (dealerPosition s) (deck s) (communityCards s)
    (currentBettingRound s) (tableBet s) (lastRaiseSize s) (pot s) (sidePots s)
    (smallBlind s) (bigBlind s) v (lastAction s) (handComplete s) (winners s).
Definition set_lastAction (v : option PlayerAction) (s : GameState) : GameState :=
  mkState (handNumber s) (players s) (dealerPosition s) (deck s) (communityCards s)
    (currentBettingRound s) (tableBet s) (lastRaiseSize s) (pot s) (sidePots s)
    (smallBlind s) (bigBlind s) (activePlayerIndex s) v (handComplete s) (winners s).
Definition set_handComplete (v : bool) (s : GameState) : GameState :=
  mkState (handNumber s) (players s) (dealerPosition s) (deck s) (communityCards s)
    (currentBettingRound s) (tableBet s) (lastRaiseSize s) (pot s) (sidePots s)
    (smallBlind s) (bigBlind s) (activePlayerIndex s) (lastAction s) v (winners s).
Definition set_winners (v : list (string * Z)) (s : GameState) : GameState :=
  mkState (handNumber s) (players s) (dealerPosition s) (deck s) (communityCards s)
    (currentBettingRound s) (tableBet s) (lastRaiseSize s) (pot s) (sidePots s)
    (smallBlind s) (bigBlind s) (activePlayerIndex s) (lastAction s) (handComplete s) v.

(** A mutation of the object [players[i]], wherever the reference was taken. *)
Definition upd_player (i : nat) (f : Player → Player) (s : GameState) : GameState :=
  set_players (alter f i (players s)) s.

(** The outcome of a method on the engine: the state it leaves, and the error
    when it throws.  Nothing is rolled back by a [throw]. *)
Inductive outcome :=
  | Done (s : GameState)
  | Throw (e : Error) (s : GameState).

Definition and_then (o : outcome) (k : GameState → outcome) : outcome :=
  match o with
  | Done s => k s
  | Throw e s => Throw e s
  end.

Notation "'let*' s := o 'in' k" := (and_then o (fun s => k))
  (at level 10, s name, o at level 100, k at level 200, only parsing).

(** The positions of the array elements that satisfy [p]: a filtered array of
    object references. *)
Fixpoint indices_from {A : Type} (i : nat) (p : A → bool) (l : list A) : list nat :=
  match l with
  | [] => []
  | x :: l' => if p x then i :: indices_from (S i) p l' else indices_from (S i) p l'
  end.

Definition indices_where {A : Type} (p : A → bool) (l : list A) : list nat :=
  indices_from 0 p l.

(** ** The engine ([PokerGameEngine]) *)

(** *** Utility functions *)

Definition findPlayerById (s : GameState) (pid : string) : option (nat * Player) :=
  list_find (fun player => playerId player = pid) (players s).

Definition isPlayersTurn (s : GameState) (pid : string) : bool :=
  match players s !! activePlayerIndex s with
  | Some currentPlayer => bool_decide (playerId currentPlayer = pid)
  | None => false
  end.

Definition getCallAmount (s : GameState) (player : Player) : Z :=
  Z.max 0 (tableBet s - currentBet player).

Definition connected (player : Player) : bool := negb (disconnected player).
Definition stillInHand (player : Player) : bool :=
  negb (disconnected player) && negb (isFolded player).
Definition canStillAct (player : Player) : bool :=
  stillInHand player && negb (isAllIn player).

Definition getActivePlayers (s : GameState) : list Player :=
  List.filter connected (players s).

Definition getPlayersStillInHand (s : GameState) : list Player :=
  List.filter (fun player => negb (isFolded player)) (getActivePlayers s).

(** The same arrays as positions in [players], for the call sites that
    mutate the players they hold. *)
Definition activeIndices (s : GameState) : list nat := indices_where connected (players s).
Definition inHandIndices (s : GameState) : list nat := indices_where stillInHand (players s).

(** *** Game setup *)

Definition setupPlayers (playerData : list (string * Z)) (dealerPos : nat) : list Player :=
  imap (fun index data =>
          mkPlayer (fst data) (snd data) [] 0 0 index (bool_decide (index = dealerPos))
            false false false false false false) playerData.

Definition resetHandState (s : GameState) : GameState :=
  let s := set_communityCards [] s in
  let s := set_currentBettingRound PREFLOP s in
  let s := set_tableBet (bigBlind s) s in
  let s := set_lastRaiseSize (bigBlind s) s in
  let s := set_pot 0 s in
  let s := set_sidePots [] s in
  let s := set_handComplete false s in
  let s := set_winners [] s in
  let s := set_lastAction None s in
  set_players
    (imap (fun index player =>
             mkPlayer (playerId player) (chips player) [] 0 0 index
               (bool_decide (index = dealerPosition s)) false false false false false
               (disconnected player)) (players s)) s.

(** [dealHoleCards] of [deck.ts]: one card at a time to each player in turn;
    returns the hands and the rest of the deck. *)
Fixpoint dealRound (deck : list Card) (hands : list (list Card)) : list (list Card) * list Card :=
  match hands with
  | [] => ([], deck)
  | h :: hands' =>
      let '(dealt, deck') := dealRound (drop 1 deck) hands' in
      ((h ++ take 1 deck) :: dealt, deck')
  end.

Fixpoint dealRounds (rounds : nat) (deck : list Card) (hands : list (list Card))
  : list (list Card) * list Card :=
  match rounds with
  | O => (hands, deck)
  | S rounds' =>
      let '(hands', deck') := dealRound deck hands in
      dealRounds rounds' deck' hands'
  end.

Definition deck_dealHoleCards (deck : list Card) (playerCount cardsPerPlayer : nat)
  : result (list (list Card) * list Card) :=
  let totalCards := (playerCount * cardsPerPlayer)%nat in
  if (length deck <? totalCards)%nat then Err CannotDeal
  else Ok (dealRounds cardsPerPlayer deck (replicate playerCount [])).

Definition dealHoleCards (s : GameState) : outcome :=
  let activePlayers := activeIndices s in
  match deck_dealHoleCards (deck s) (length activePlayers) 2 with
  | Err e => Throw e s
  | Ok (hands, deck') =>
      let s := set_deck deck' s in
      Done (foldl (fun s ih => upd_player (fst ih) (set_holeCards (snd ih)) s) s
              (zip activePlayers hands))
  end.

Definition postBlind (blindAmount : Z) (player : Player) : Player :=
  set_totalBet blindAmount
    (set_currentBet blindAmount (set_chips (chips player - blindAmount) player)).

Definition markAllInIfBroke (player : Player) : Player :=
  if chips player =? 0 then set_isAllIn true player else player.

Definition postBlinds (s : GameState) : outcome :=
  let activePlayers := activeIndices s in
  if (length activePlayers <? 2)%nat then Throw NeedTwoPlayers s
  else
    let dealerIndex := dealerPosition s in
    let smallBlindIndex := ((dealerIndex + 1) mod length activePlayers)%nat in
    let bigBlindIndex := ((dealerIndex + 2) mod length activePlayers)%nat in
    match activePlayers !! smallBlindIndex, activePlayers !! bigBlindIndex with
    | Some sb, Some bb =>
        let s := upd_player sb (set_isSmallBlind true) s in
        let s := upd_player bb (set_isBigBlind true) s in
        (* Post small blind *)
        let smallBlindAmount :=
          Z.min (smallBlind s) (default 0 (chips <$> players s !! sb)) in
        let s := upd_player sb (postBlind smallBlindAmount) s in
        let s := set_pot (pot s + smallBlindAmount) s in
        (* Post big blind *)
        let bigBlindAmount :=
          Z.min (bigBlind s) (default 0 (chips <$> players s !! bb)) in
        let s := upd_player bb (postBlind bigBlindAmount) s in
        let s := set_pot (pot s + bigBlindAmount) s in
        let s := set_tableBet bigBlindAmount s in
        let s := set_lastRaiseSize bigBlindAmount s in
        let s := upd_player sb markAllInIfBroke s in
        let s := upd_player bb markAllInIfBroke s in
        Done s
    | _, _ => Throw TypeError s
    end.

(** The [while (seen < 2)] loop of [setFirstPlayerToAct]. *)
Fixpoint seekBigBlind (fuel : nat) (ps : list Player) (idx seen : nat) : option nat :=
  if (2 <=? seen)%nat then Some idx
  else
    match fuel with
    | O => None
    | S fuel' =>
        let idx := ((idx + 1) mod length ps)%nat in
        match ps !! idx with
        | Some p => seekBigBlind fuel' ps idx (if disconnected p then seen else S seen)
        | None => None
        end
    end.

Definition setFirstPlayerToAct (s : GameState) : outcome :=
  let ps := players s in
  let dealerIndex := dealerPosition s in
  let activeCount := length (getActivePlayers s) in
  if (activeCount =? 2)%nat then
    (* Heads-up: dealer acts first preflop *)
    Done (set_activePlayerIndex dealerIndex s)
  else
    match seekBigBlind (2 * length ps) ps dealerIndex 0 with
    | None => Throw TypeError s
    | Some idx =>
        match
          find (fun j => match ps !! j with
                         | Some p => negb (disconnected p) && negb (isAllIn p)
                                     && negb (isFolded p)
                         | None => false
                         end)
            (map (fun step => ((idx + step) mod length ps)%nat) (seq 1 (length ps)))
        with
        | Some j => Done (set_activePlayerIndex j s)
        | None => Done (set_activePlayerIndex dealerIndex s)
        end
    end.

(** [startNewHand]; [shuffled] is the deck returned by
    [shuffleDeck(createDeck())]. *)
Definition startNewHand (shuffled : list Card) (s : GameState) : outcome :=
  let s := resetHandState s in
  let s := set_deck shuffled s in
  let* s := dealHoleCards s in
  let* s := postBlinds s in
  setFirstPlayerToAct s.

Definition newEngine (playerData : list (string * Z)) (small big : Z) (shuffled : list Card)
  : outcome :=
  let s :=
    mkState 1 [] 0 [] [] PREFLOP big big 0 [] small big 0 None false [] in
  let s := set_players (setupPlayers playerData (dealerPosition s)) s in
  startNewHand shuffled s.

(** *** Player action processing *)

Definition validateAction (s : GameState) (player : Player) (action : PlayerAction)
  : option Error :=
  if isFolded player then Some PlayerAlreadyFolded
  else if isAllIn player then Some PlayerAlreadyAllIn
  else
    let callAmount := getCallAmount s player in
    match action with
    | ActFold => None
    | ActCheck => if callAmount >? 0 then Some CannotCheckFacingABet else None
    | ActCall =>
        if callAmount =? 0 then Some NothingToCall
        else if chips player <? callAmount then Some NotEnoughChipsToCall
        else None
    | ActBet amount =>
        if tableBet s >? 0 then Some CannotBetFacingABet
        else if amount <? bigBlind s then Some BelowMinimumBet
        else if chips player <? amount then Some NotEnoughChipsToBet
        else None
    | ActRaise amount =>
        if tableBet s =? 0 then Some CannotRaiseNoBet
        else
          let minRaise := tableBet s + lastRaiseSize s in
          if amount <? minRaise then Some BelowMinimumRaise
          else if chips player <? amount then Some NotEnoughChipsToRaise
          else None
    | ActAllIn _ => if chips player =? 0 then Some PlayerHasNoChips else None
    end.

Definition resetOthersHasActed (excludePlayerId : string) (s : GameState) : GameState :=
  set_players
    (map (fun p =>
            if negb (bool_decide (playerId p = excludePlayerId))
               && negb (isFolded p) && negb (isAllIn p) && negb (disconnected p)
            then set_hasActed false p else p) (players s)) s.

(** [executeAction] on the player object at position [i]. *)
Definition executeAction (s : GameState) (i : nat) (player : Player) (action : PlayerAction)
  : GameState :=
  match action with
  | ActFold => upd_player i (set_isFolded true) s
  | ActCheck => s
  | ActCall =>
      let callAmount := getCallAmount s player in
      let s := upd_player i (fun p =>
                 set_totalBet (totalBet p + callAmount)
                   (set_currentBet (tableBet s) (set_chips (chips p - callAmount) p))) s in
      let s := set_pot (pot s + callAmount) s in
      upd_player i markAllInIfBroke s
  | ActBet amount =>
      let betDelta := amount - currentBet player in
      let s := upd_player i (fun p =>
                 set_totalBet (totalBet p + betDelta)
                   (set_currentBet amount (set_chips (chips p - betDelta) p))) s in
      let s := set_tableBet amount s in
      let s := set_pot (pot s + betDelta) s in
      let s := set_lastRaiseSize amount s in
      let s := resetOthersHasActed (playerId player) s in
      upd_player i markAllInIfBroke s
  | ActRaise amount =>
      let raiseDelta := amount - currentBet player in
      let previousHighest := tableBet s in
      let s := upd_player i (fun p =>
                 set_totalBet (totalBet p + raiseDelta)
                   (set_currentBet amount (set_chips (chips p - raiseDelta) p))) s in
      let s := set_lastRaiseSize (amount - previousHighest) s in
      let s := set_tableBet amount s in
      let s := set_pot (pot s + raiseDelta) s in
      let s := resetOthersHasActed (playerId player) s in
      upd_player i markAllInIfBroke s
  | ActAllIn _ =>
      let allInAmount := chips player in
      let newTotal := currentBet player + allInAmount in
      let s := upd_player i (fun p =>
                 set_isAllIn true
                   (set_currentBet newTotal
                      (set_totalBet (totalBet p + allInAmount) (set_chips 0 p)))) s in
      let s := set_pot (pot s + allInAmount) s in
      if newTotal >? tableBet s then
        let raiseAmount := newTotal - tableBet s in
        let s := if raiseAmount >=? lastRaiseSize s
                 then set_lastRaiseSize raiseAmount s else s in
        let s := set_tableBet newTotal s in
        resetOthersHasActed (playerId player) s
      else s
  end.

(** *** Betting round management *)

Definition isBettingRoundComplete (s : GameState) : bool :=
  let activePlayers := getPlayersStillInHand s in
  if (length activePlayers <=? 1)%nat then true
  else
    let playersWhoCanAct := List.filter (fun p => negb (isAllIn p)) activePlayers in
    if (length playersWhoCanAct =? 0)%nat then true
    else
      let allHaveActed := forallb hasActed playersWhoCanAct in
      let allBetsEqual := forallb (fun p => currentBet p =? tableBet s) playersWhoCanAct in
      allHaveActed && allBetsEqual.

(** [dealFlop], [dealTurn], [dealRiver]: burn one card, then reveal. *)
Definition burnAndDeal (count : nat) (s : GameState) : outcome :=
  match dealCards (deck s) 1 with
  | Err e => Throw e s
  | Ok (_, deck1) =>
      let s := set_deck deck1 s in
      match dealCards (deck s) count with
      | Err e => Throw e s
      | Ok (dealt, deck2) =>
          let s := set_deck deck2 s in
          Done (set_communityCards (communityCards s ++ dealt) s)
      end
  end.

Definition dealFlop : GameState → outcome := burnAndDeal 3.
Definition dealTurn : GameState → outcome := burnAndDeal 1.
Definition dealRiver : GameState → outcome := burnAndDeal 1.

Definition setFirstPlayerPostFlop (s : GameState) : GameState :=
  let activePlayers := List.filter (fun p => negb (isAllIn p)) (getPlayersStillInHand s) in
  if (length activePlayers =? 0)%nat then s
  else
    let dealerPos := dealerPosition s in
    let firstPlayerIndex :=
      default dealerPos
        (find (fun playerIndex =>
                 match players s !! playerIndex with
                 | Some player => negb (isFolded player) && negb (isAllIn player)
                 | None => false
                 end)
           (map (fun i => ((dealerPos + i) mod length (players s))%nat)
              (seq 1 (length activePlayers)))) in
    set_activePlayerIndex firstPlayerIndex s.

(** *** Hand completion and showdown *)

Definition isHandComplete (s : GameState) : bool :=
  let playersInHand := getPlayersStillInHand s in
  if (length playersInHand <=? 1)%nat then true
  else bool_decide (currentBettingRound s = SHOWDOWN).

Definition sumZ (xs : list Z) : Z := foldr Z.add 0 xs.

(** One pass of the [for (const level of levels)] loop of
    [calculateSidePots]; the accumulator is [prevLevel] and [sidePots]. *)
Definition sidePotLayer (allContrib : list (string * Z)) (inHand : list Player)
    (acc : Z * list SidePot) (level : Z) : Z * list SidePot :=
  let '(prevLevel, sidePots) := acc in
  let layerSize := level - prevLevel in
  if layerSize <=? 0 then (prevLevel, sidePots)
  else
    let contributorsCount := length (List.filter (fun c => snd c >=? level) allContrib) in
    if (contributorsCount <=? 1)%nat then (level, sidePots)
    else
      let amount := layerSize * Z.of_nat contributorsCount in
      let eligibleIds :=
        map playerId (List.filter (fun p => totalBet p >=? level) inHand) in
      if (amount >? 0) && (0 <? length eligibleIds)%nat
      then (level, sidePots ++ [mkSidePot amount eligibleIds (length sidePots =? 0)%nat])
      else (level, sidePots).

Definition add_to_last (extra : Z) (sidePots : list SidePot) : list SidePot :=
  alter (fun sp => mkSidePot (amount sp + extra) (eligiblePlayers sp) (isMain sp))
    (length sidePots - 1)%nat sidePots.

Definition calculateSidePots (s : GameState) (inHand : list Player) : outcome :=
  let allContrib := map (fun p => (playerId p, totalBet p)) (players s) in
  let levels := js_sort ascending (set_from (map snd allContrib)) in
  let sidePots := snd (fold_left (sidePotLayer allContrib inHand) levels (0, [])) in
  let computedTotal := sumZ (map amount sidePots) in
  let potDiff := pot s - computedTotal in
  if potDiff >? 0 then
    match allContrib with
    | [] =>
        (* [reduce] returns its initial value [allContrib[0]], here [undefined];
           the [filter] over the empty array never reads it and [topCount] is 0 *)
        if (length sidePots =? 0)%nat then
          Done (set_sidePots (sidePots ++ [mkSidePot potDiff (map playerId inHand) true]) s)
        else Done (set_sidePots (add_to_last potDiff sidePots) s)
    | c0 :: _ =>
        let highest :=
          fold_left (fun acc c => if snd c >? snd acc then c else acc) allContrib c0 in
        let topCount :=
          length (List.filter (fun c => snd c =? snd highest) allContrib) in
        if (topCount =? 1)%nat then
          let s :=
            match findPlayerById s (fst highest) with
            | Some (bettor, _) => upd_player bettor (fun p => set_chips (chips p + potDiff) p) s
            | None => s
            end in
          let s := set_pot (pot s - potDiff) s in
          Done (set_sidePots sidePots s)
        else if (length sidePots =? 0)%nat then
          Done (set_sidePots (sidePots ++ [mkSidePot potDiff (map playerId inHand) true]) s)
        else Done (set_sidePots (add_to_last potDiff sidePots) s)
    end
  else Done (set_sidePots sidePots s).

(** [aggregate[id] = (aggregate[id] || 0) + payout].  The keys are kept in
    insertion order; for ids that look like array indices JavaScript lists
    them first, a difference of order only, which nothing below reads. *)
Fixpoint aggregate_add (pid : string) (payout : Z) (agg : list (string * Z))
  : list (string * Z) :=
  match agg with
  | [] => [(pid, 0 + payout)]
  | (k, v) :: agg' =>
      if bool_decide (k = pid) then (k, v + payout) :: agg'
      else (k, v) :: aggregate_add pid payout agg'
  end.

(** The split of one side pot: for each entry of [winnerIndices], in order,
    the payout [base + (idx === 0 ? remainder : 0)]. *)
Definition potPayouts (potAmount : Z) (winnerIndices : list nat) : list (nat * Z) :=
  let base := potAmount / Z.of_nat (length winnerIndices) in
  let remainder := potAmount - base * Z.of_nat (length winnerIndices) in
  imap (fun idx winnerIndex =>
          (winnerIndex, base + (if (idx =? 0)%nat then remainder else 0))) winnerIndices.

(** [winner.player.chips += payout] and the bookkeeping of [aggregate]. *)
Definition payWinner (eligibleEvaluations : list (nat * HandEvaluation))
    (acc : GameState * list (string * Z)) (wp : nat * Z) : GameState * list (string * Z) :=
  let '(s, aggregate) := acc in
  let '(winnerIndex, payout) := wp in
  match eligibleEvaluations !! winnerIndex with
  | Some (seat, _) =>
      (upd_player seat (fun p => set_chips (chips p + payout) p) s,
       match players s !! seat with
       | Some p => aggregate_add (playerId p) payout aggregate
       | None => aggregate
       end)
  | None => acc
  end.

Definition eligibleFor (s : GameState) (sidePot : SidePot) (he : nat * HandEvaluation) : bool :=
  match players s !! fst he with
  | Some player =>
      existsb (fun pid => bool_decide (pid = playerId player)) (eligiblePlayers sidePot)
  | None => false
  end.

(** One pass of the [for (const sidePot of sidePots)] loop of [awardPots]. *)
Definition awardPot (handEvaluations : list (nat * HandEvaluation))
    (acc : GameState * list (string * Z)) (sidePot : SidePot)
  : GameState * list (string * Z) :=
  let eligibleEvaluations := List.filter (eligibleFor (fst acc) sidePot) handEvaluations in
  let evaluations := map snd eligibleEvaluations in
  let winnerIndices := findWinners evaluations in
  fold_left (payWinner eligibleEvaluations) (potPayouts (amount sidePot) winnerIndices) acc.

Definition awardPots (s : GameState) (handEvaluations : list (nat * HandEvaluation))
  : GameState :=
  let '(s, aggregate) := fold_left (awardPot handEvaluations) (sidePots s) (s, []) in
  set_winners aggregate s.

(** The hands of the players still in the hand, or the first error thrown by
    [evaluateHand]. *)
Fixpoint evaluateEach (s : GameState) (seats : list nat)
  : result (list (nat * HandEvaluation)) :=
  match seats with
  | [] => Ok []
  | seat :: seats' =>
      match players s !! seat with
      | None => Err TypeError
      | Some player =>
          match evaluateHand (holeCards player ++ communityCards s) with
          | Err e => Err e
          | Ok evaluation =>
              match evaluateEach s seats' with
              | Err e => Err e
              | Ok rest => Ok ((seat, evaluation) :: rest)
              end
          end
      end
  end.

Definition evaluateShowdown (s : GameState) : outcome :=
  let playersInHand := getPlayersStillInHand s in
  match evaluateEach s (inHandIndices s) with
  | Err e => Throw e s
  | Ok handEvaluations =>
      let contribs := map totalBet (players s) in
      let distinct := js_sort ascending (set_from contribs) in
      let* s :=
        (if (1 <? length distinct)%nat then calculateSidePots s playersInHand
         else Done (set_sidePots [mkSidePot (pot s) (map playerId playersInHand) true] s)) in
      Done (awardPots s handEvaluations)
  end.

Definition prepareNextHand (s : GameState) : GameState :=
  let originalPlayers := players s in
  let currentDealerIndex := dealerPosition s in
  let nextIndexOriginal := ((currentDealerIndex + 1) mod length originalPlayers)%nat in
  let nextDealerId :=
    playerId <$>
      (find (fun p => chips p >? 0)
         (omap (fun i => originalPlayers !! ((nextIndexOriginal + i) mod length originalPlayers)%nat)
            (seq 0 (length originalPlayers)))) in
  let remaining := List.filter (fun p => chips p >? 0) originalPlayers in
  if (length remaining =? 0)%nat then
    set_handNumber (handNumber s + 1) (set_dealerPosition 0 (set_players remaining s))
  else
    let newDealerIndex : option nat :=
      match nextDealerId with
      | Some pid =>
          if bool_decide (pid = EmptyString) then Some 0%nat
          else fst <$> list_find (fun p => playerId p = pid) remaining
      | None => Some 0%nat
      end in
    set_handNumber (handNumber s + 1)
      (set_dealerPosition (default 0%nat newDealerIndex) (set_players remaining s)).

Definition completeHand (s : GameState) : outcome :=
  let s := set_handComplete true s in
  let playersInHand := inHandIndices s in
  let* s :=
    (match playersInHand with
     | [winner] =>
         let s' := upd_player winner (fun p => set_chips (chips p + pot s) p) s in
         Done (set_winners
                 (match players s !! winner with
                  | Some p => [(playerId p, pot s)]
                  | None => []
                  end) s')
     | _ => evaluateShowdown s
     end) in
  Done (prepareNextHand s).

Definition advanceBettingRound (s : GameState) : outcome :=
  let s := set_players (map (fun player => set_currentBet 0 (set_hasActed false player))
                          (players s)) s in
  let continue (s : GameState) : outcome :=
    let s := set_tableBet 0 s in
    Done (setFirstPlayerPostFlop s) in
  match currentBettingRound s with
  | PREFLOP =>
      let* s := dealFlop s in continue (set_currentBettingRound FLOP s)
  | FLOP =>
      let* s := dealTurn s in continue (set_currentBettingRound TURN s)
  | TURN =>
      let* s := dealRiver s in continue (set_currentBettingRound RIVER s)
  | RIVER => completeHand (set_currentBettingRound SHOWDOWN s)
  | SHOWDOWN => continue s
  end.

(** [while (!isHandComplete && round !== SHOWDOWN) advanceBettingRound()],
    then [if (!isHandComplete) completeHand()].  Four passes reach the showdown
    from any street. *)
Fixpoint fastForward (passes : nat) (s : GameState) : outcome :=
  if negb (handComplete s) && negb (bool_decide (currentBettingRound s = SHOWDOWN)) then
    match passes with
    | O => Done s
    | S passes' => let* s := advanceBettingRound s in fastForward passes' s
    end
  else Done s.

Definition runToShowdown (s : GameState) : outcome :=
  let* s := fastForward 4 s in
  if negb (handComplete s) then completeHand s else Done s.

Definition advanceToNextPlayer (s : GameState) : GameState :=
  let playersStillEligible :=
    List.filter (fun p => negb (isAllIn p)) (getPlayersStillInHand s) in
  if (length playersStillEligible =? 0)%nat then s
  else
    match
      find (fun nextPlayerIndex =>
              match players s !! nextPlayerIndex with
              | Some p => negb (isFolded p || isAllIn p || disconnected p)
              | None => false
              end)
        (map (fun k => ((activePlayerIndex s + k) mod length (players s))%nat)
           (seq 1 (length (players s))))
    with
    | Some nextPlayerIndex => set_activePlayerIndex nextPlayerIndex s
    | None => s
    end.

Definition processPlayerAction (s : GameState) (pid : string) (action : PlayerAction)
  : outcome :=
  match findPlayerById s pid with
  | None => Throw PlayerNotFound s
  | Some (i, player) =>
      if negb (isPlayersTurn s pid) then Throw NotPlayersTurn s
      else
        match validateAction s player action with
        | Some e => Throw e s
        | None =>
            let s := executeAction s i player action in
            let s := set_lastAction (Some action) s in
            let s := upd_player i (set_hasActed true) s in
            if isHandComplete s then completeHand s
            else
              let playersWhoCanAct :=
                List.filter (fun p => negb (isAllIn p)) (getPlayersStillInHand s) in
              if (length playersWhoCanAct =? 0)%nat then runToShowdown s
              else if isBettingRoundComplete s then advanceBettingRound s
              else Done (advanceToNextPlayer s)
        end
  end.

(** *** Public queries *)

Definition ensureProgressIfStalled (s : GameState) : outcome :=
  if handComplete s then Done s
  else
    let current := players s !! activePlayerIndex s in
    let eligibleCount :=
      length (List.filter (fun p => negb (isAllIn p)) (getPlayersStillInHand s)) in
    if (eligibleCount =? 0)%nat then runToShowdown s
    else
      let s :=
        match current with
        | Some p =>
            if isFolded p || isAllIn p || disconnected p then advanceToNextPlayer s else s
        | None => advanceToNextPlayer s
        end in
      if isBettingRoundComplete s then advanceBettingRound s else Done s.

(** [getGameState] returns a shallow copy of the state it leaves behind: the
    snapshot is the state of the outcome. *)
Definition getGameState (s : GameState) : outcome := ensureProgressIfStalled s.

Definition canPlayerAct (s : GameState) (pid : string) : bool :=
  match findPlayerById s pid with
  | Some (_, player) =>
      isPlayersTurn s pid && negb (isFolded player) && negb (isAllIn player)
  | None => false
  end.

Inductive ActionType := TFold | TCheck | TCall | TBet | TRaise | TAllIn.

Definition getValidActions (s : GameState) (pid : string) : list ActionType :=
  match findPlayerById s pid with
  | None => []
  | Some (_, player) =>
      if negb (canPlayerAct s pid) then []
      else
        let callAmount := getCallAmount s player in
        let eligibleCount :=
          length (List.filter (fun p => negb (isAllIn p)) (getPlayersStillInHand s)) in
        [TFold]
        ++ (if callAmount =? 0 then [TCheck]
            else if chips player >=? callAmount then [TCall] else [])
        ++ (if (1 <? eligibleCount)%nat then
              if tableBet s =? 0 then
                if chips player + currentBet player >=? bigBlind s then [TBet] else []
              else
                let minRaiseTotal := tableBet s + Z.max (lastRaiseSize s) (bigBlind s) in
                if chips player + currentBet player >=? minRaiseTotal then [TRaise] else []
            else [])
        ++ (if chips player >? 0 then [TAllIn] else [])
  end.

(** ** The deck ([deck.ts]) *)

(** [createDeck]: the suits in the order of [SUITS], the ranks of each in the
    order of [RANKS]. *)
Definition createDeck : list Card :=
  flat_map (fun s => map (mkCard s) [RA; R2; R3; R4; R5; R6; R7; R8; R9; RT; RJ; RQ; RK])
    [hearts; diamonds; clubs; spades].

(** ** More of [deck.ts]: shuffling, notation, dealing the board, validation *)

(** The destructuring swap [[a[i], a[j]] = [a[j], a[i]]] on two positions of
    the array.  Both shuffles only swap positions [j <= i < a.length]; outside
    the array JavaScript would store [undefined], which a list of cards
    cannot hold, and the list is returned as it is. *)
Definition swap {A : Type} (a : list A) (i j : nat) : list A :=
  match a !! i, a !! j with
  | Some x, Some y => <[j := x]> (<[i := y]> a)
  | _, _ => a
  end.

(** The loop [for (let i = shuffled.length - 1; i > 0; i--)] of both
    shuffles, entered at [i]; [pick i] is the position [j] drawn at step
    [i]. *)
Fixpoint fisherYates {A : Type} (pick : nat → nat) (i : nat) (shuffled : list A) : list A :=
  match i with
  | O => shuffled
  | S i' => fisherYates pick i' (swap shuffled i (pick i))
  end.

(** [shuffleDeck]; [pick i] is the value of
    [Math.floor(Math.random() * (i + 1))] at step [i], a position between
    [0] and [i]. *)
Definition shuffleDeck (pick : nat → nat) (deck : list Card) : list Card :=
  fisherYates pick (length deck - 1) deck.

(** [shuffleDeckSecure]; [crypto] holds the [Uint32Array] as
    [getRandomValues] filled it, or [None] where no [crypto] object exists
    and the function falls back on [shuffleDeck]. *)
Definition shuffleDeckSecure (crypto : option (list nat)) (pick : nat → nat)
    (deck : list Card) : list Card :=
  match crypto with
  | Some randomBytes =>
      fisherYates
        (fun i => (default 0 (randomBytes !! (length deck - 1 - i)) mod (i + 1))%nat)
        (length deck - 1) deck
  | None => shuffleDeck pick deck
  end.

(** [cardToShortString]: the rank character and the suit letter. *)
Definition rankChar (r : Rank) : string :=
  match r with
  | RA => "A" | R2 => "2" | R3 => "3" | R4 => "4" | R5 => "5" | R6 => "6" | R7 => "7"
  | R8 => "8" | R9 => "9" | RT => "T" | RJ => "J" | RQ => "Q" | RK => "K"
  end.

Definition suitLetter (s : Suit) : string :=
  match s with hearts => "H" | diamonds => "D" | clubs => "C" | spades => "S" end.

Definition cardToShortString (card : Card) : string :=
  rankChar (rank card) +:+ suitLetter (suit card).

(** The result of [dealCommunityCards]. *)
Record CommunityDeal := mkCommunityDeal {
  flop : list Card;
  turn : option Card;
  river : option Card;
  remainingDeck : list Card
}.

(** [workingDeck.shift()] when [burnCard] is set and a card is left. *)
Definition burn (burnCard : bool) (deck : list Card) : list Card :=
  if burnCard && (0 <? length deck)%nat then drop 1 deck else deck.

(** [dealCommunityCards] works on a copy of the deck. *)
Definition dealCommunityCards (deck : list Card) (burnCard : bool) : result CommunityDeal :=
  let workingDeck := burn burnCard deck in
  match dealCards workingDeck 3 with
  | Err e => Err e
  | Ok (dealt, workingDeck) => Ok (mkCommunityDeal dealt None None workingDeck)
  end.

(** What [dealTurn] and [dealRiver] of [deck.ts] throw: the error of
    [dealCards], or their own when [dealCards] returns no card. *)
Inductive StreetError :=
  | StreetCannotDeal
  | NoCardsForTurn
  | NoCardsForRiver.

(** [dealTurn] and [dealRiver] of [deck.ts] take the card from the deck they
    are given: the card and the deck that is left. *)
Definition deck_dealTurn (deck : list Card) (burnCard : bool) : StreetError + Card * list Card :=
  let deck := burn burnCard deck in
  match dealCards deck 1 with
  | Err _ => inl StreetCannotDeal
  | Ok (cards, deck) =>
      match cards with
      | [] => inl NoCardsForTurn
      | card :: _ => inr (card, deck)
      end
  end.

Definition deck_dealRiver (deck : list Card) (burnCard : bool) : StreetError + Card * list Card :=
  let deck := burn burnCard deck in
  match dealCards deck 1 with
  | Err _ => inl StreetCannotDeal
  | Ok (cards, deck) =>
      match cards with
      | [] => inl NoCardsForRiver
      | card :: _ => inr (card, deck)
      end
  end.

(** The messages of [validateDeck]. *)
Inductive DeckError :=
  | WrongDeckSize (size : nat)
  | DuplicateCards
  | InvalidCard (cardString : string).

(** [validateDeck]: the pair of [isValid] and [errors]; a [Set] of strings is
    the list of its distinct members. *)
Definition validateDeck (deck : list Card) : bool * list DeckError :=
  let errors := if negb (length deck =? 52)%nat then [WrongDeckSize (length deck)] else [] in
  let cardStrings := map cardToShortString deck in
  let uniqueCards := remove_dups cardStrings in
  let errors :=
    errors ++ (if negb (length uniqueCards =? length deck)%nat then [DuplicateCards] else []) in
  let standardCardStrings := remove_dups (map cardToShortString createDeck) in
  let errors :=
    errors ++ flat_map (fun cardString =>
                          if negb (bool_decide (cardString ∈ standardCardStrings))
                          then [InvalidCard cardString] else []) cardStrings in
  ((length errors =? 0)%nat, errors).

(** ** More of [hand-evaluator.ts]: comparison and the test helpers *)

(** [compareHands]: the difference of the two strengths, [NaN] when one of
    them is. *)
Definition compareHands (hand1 hand2 : HandEvaluation) : option Z :=
  match he_value hand1, he_value hand2 with
  | Some v1, Some v2 => Some (v1 - v2)
  | _, _ => None
  end.

(** [validateHandEvaluation]: the two ranks are compared as the numbers of
    the enum; [false] also when [evaluateHand] throws. *)
Definition validateHandEvaluation (cards : list Card) (expectedRank : HandRank) : bool :=
  match evaluateHand cards with
  | Ok evaluation => HandRank_num (he_rank evaluation) =? HandRank_num expectedRank
  | Err _ => false
  end.

(** [createTestHand]; the caller that leaves [suit] out gets [hearts]. *)
Definition createTestHand (ranks : list Rank) (suit : Suit) : list Card :=
  map (fun rank => mkCard suit rank) ranks.

(** * Vocabulary of the properties *)

(** ** Hand strength *)

(** A representative hand for a list of ranks and a flush flag. *)
Definition canon5 (rs : list Rank) (fl : bool) : list Card :=
  match rs with
  | [] => []
  | r :: rs' => mkCard (if fl then hearts else spades) r :: map (mkCard hearts) rs'
  end.

(** The rank that has the value [v], the ace high. *)
Definition rank_of_value (v : Z) : Rank :=
  match v with
  | 2 => R2 | 3 => R3 | 4 => R4 | 5 => R5 | 6 => R6 | 7 => R7 | 8 => R8
  | 9 => R9 | 10 => RT | 11 => RJ | 12 => RQ | 13 => RK | _ => RA
  end.

(** The same classification written as a decision table on five values in
    increasing order. *)
Definition fast5 (vs : list Z) (fl : bool) : HandEvaluation :=
  match vs with
  | [a; b; c; d; e] =>
      let cat (r : HandRank) (x : Z) := mkEval r (Some (HandRank_num r * CATEGORY_BASE + x)) in
      let e5 (v1 v2 v3 v4 v5 : Z) := (((v1 * 15 + v2) * 15 + v3) * 15 + v4) * 15 + v5 in
      let straightHigh :=
        if (b =? a + 1) && (c =? b + 1) && (d =? c + 1) && (e =? d + 1) then Some e
        else if (a =? 2) && (b =? 3) && (c =? 4) && (d =? 5) && (e =? 14) then Some 5
        else None in
      match a =? b, b =? c, c =? d, d =? e with
      | true, true, true, false => cat FOUR_OF_A_KIND (a * 15 + e)
      | false, true, true, true => cat FOUR_OF_A_KIND (b * 15 + a)
      | true, true, false, true => cat FULL_HOUSE (a * 15 + d)
      | true, false, true, true => cat FULL_HOUSE (c * 15 + a)
      | eab, ebc, ecd, ede =>
          if fl then
            match straightHigh with
            | Some h => if h =? 14 then cat ROYAL_FLUSH 14 else cat STRAIGHT_FLUSH h
            | None => cat FLUSH (e5 e d c b a)
            end
          else
            match straightHigh with
            | Some h => cat STRAIGHT h
            | None =>
                match eab, ebc, ecd, ede with
                | true, true, false, false => cat THREE_OF_A_KIND ((a * 15 + e) * 15 + d)
                | false, true, true, false => cat THREE_OF_A_KIND ((b * 15 + e) * 15 + a)
                | false, false, true, true => cat THREE_OF_A_KIND ((c * 15 + b) * 15 + a)
                | true, false, true, false => cat TWO_PAIR ((c * 15 + a) * 15 + e)
                | true, false, false, true => cat TWO_PAIR ((d * 15 + a) * 15 + c)
                | false, true, false, true => cat TWO_PAIR ((d * 15 + b) * 15 + a)
                | true, false, false, false => cat PAIR (((a * 15 + e) * 15 + d) * 15 + c)
                | false, true, false, false => cat PAIR (((b * 15 + e) * 15 + d) * 15 + a)
                | false, false, true, false => cat PAIR (((c * 15 + e) * 15 + b) * 15 + a)
                | false, false, false, true => cat PAIR (((d * 15 + c) * 15 + b) * 15 + a)
                | _, _, _, _ => cat HIGH_CARD (e5 e d c b a)
                end
            end
      end
  | _ => mkEval HIGH_CARD None
  end.

(** The thirteen values, the ace high. *)
Definition cardValues : list Z := [2; 3; 4; 5; 6; 7; 8; 9; 10; 11; 12; 13; 14].

(** All lists of length [n], non-decreasing, over the card values [>= lo]. *)
Fixpoint forall_sorted (n : nat) (lo : Z) (P : list Z → bool) : bool :=
  match n with
  | O => P []
  | S n' =>
      forallb (fun v => forall_sorted n' v (fun l => P (v :: l)))
        (List.filter (Z.leb lo) cardValues)
  end.

(** The strictly increasing ones, above [lo]. *)
Fixpoint forall_strict (n : nat) (lo : Z) (P : list Z → bool) : bool :=
  match n with
  | O => P []
  | S n' =>
      forallb (fun v => forall_strict n' v (fun l => P (v :: l)))
        (List.filter (Z.ltb lo) cardValues)
  end.

(** [l] is one of the lists that [forall_sorted] goes through. *)
Fixpoint sorted_from (lo : Z) (l : list Z) : Prop :=
  match l with
  | [] => True
  | x :: l' => lo <= x <= 14 ∧ sorted_from x l'
  end.

(** [l] is one of the lists that [forall_strict] goes through. *)
Fixpoint strict_from (lo : Z) (l : list Z) : Prop :=
  match l with
  | [] => True
  | x :: l' => lo < x <= 14 ∧ strict_from x l'
  end.

(** Same category and same strength, the strength being a number. *)
Definition HandEvaluation_eqb (e1 e2 : HandEvaluation) : bool :=
  bool_decide (HandRank_num (he_rank e1) = HandRank_num (he_rank e2))
  && match he_value e1, he_value e2 with
     | Some a, Some b => a =? b
     | _, _ => false
     end.

(** The decision table against [classifyFive], on the representative hand. *)
Definition fast5_agrees (vs : list Z) (fl : bool) : bool :=
  HandEvaluation_eqb (classifyFive (canon5 (map rank_of_value vs) fl)) (fast5 vs fl).

(** With a flush and without. *)
Definition fast5_agrees_both (vs : list Z) : bool :=
  fast5_agrees vs true && fast5_agrees vs false.

(** The value of a card, the ace high. *)
Definition card_value (c : Card) : Z := value_of (rank c).

(** [evaluateFiveCards] through the decision table. *)
Definition fiveOf (cards : list Card) : HandEvaluation :=
  fast5 (js_sort ascending (map card_value cards)) (isFlush cards).

(** One pass of the loop of [findBestHand]. *)
Definition bestStep (acc : result (option HandEvaluation)) (combination : list Card) :=
  match acc with
  | Err e => Err e
  | Ok bestHand =>
      match evaluateFiveCards combination with
      | Err e => Err e
      | Ok evaluation =>
          match bestHand with
          | None => Ok (Some evaluation)
          | Some best =>
              if js_gt (he_value evaluation) (he_value best)
              then Ok (Some evaluation) else Ok (Some best)
          end
      end
  end.

(** [e1] is not stronger than [e2], both strengths being numbers. *)
Definition value_le (e1 e2 : HandEvaluation) : Prop :=
  match he_value e1, he_value e2 with
  | Some a, Some b => a <= b
  | _, _ => False
  end.

(** The value counts of [buildRankCounts], from the values alone. *)
Definition countsOf (vs : list Z) : list (Z * Z) :=
  fold_left (fun counts v => value_incr v counts) vs [].

(** The keys are in the order of [Object.keys]: increasing. *)
Definition ksorted (o : list (Z * Z)) : Prop := StronglySorted Z.lt (keys o).

(** No value more than four times: what a deck allows. *)
Definition count_le4 (R : list Z) : bool :=
  forallb (fun v => (length (List.filter (Z.eqb v) R) <=? 4)%nat) R.

(** The strength is a number, at most [bound]. *)
Definition value_leb (e : HandEvaluation) (bound : Z) : bool :=
  match he_value e with Some v => v <=? bound | None => false end.

(** No suit holds five cards: the classifier against the table, on the sorted
    values [R] of the hand. *)
Definition sevenCheck_plain (R : list Z) : bool :=
  if negb (count_le4 R) then true
  else
    let e7 := classifySeven (countsOf R) None in
    let combos := generateCombinations R 5 in
    match he_value e7 with
    | None => false
    | Some v7 =>
        forallb (fun T => value_leb (fast5 T false) v7) combos
        && existsb (fun T => HandEvaluation_eqb (fast5 T false) e7) combos
    end.

(** One suit holds the values [F]; the other cards have the values [E]. *)
Definition sevenCheck_flush (F E : list Z) : bool :=
  let e7 := classifySeven (countsOf (F ++ E)) (Some F) in
  match he_value e7 with
  | None => false
  | Some v7 =>
      forallb (fun T => value_leb (fast5 T false) v7)
        (generateCombinations (js_sort ascending (F ++ E)) 5)
      && forallb (fun T => value_leb (fast5 T true) v7) (generateCombinations F 5)
      && existsb (fun T => HandEvaluation_eqb (fast5 T true) e7) (generateCombinations F 5)
  end.

(** All pairs of [k] suited values and [m] other values. *)
Definition sevenCheck_flush_sizes (k m : nat) : bool :=
  forall_strict k 1 (fun F => forall_sorted m 2 (sevenCheck_flush F)).

(** The strength lies in the band of the category. *)
Definition in_category (e : HandEvaluation) : Prop :=
  ∃ v, he_value e = Some v
       ∧ HandRank_num (he_rank e) * CATEGORY_BASE <= v
           < (HandRank_num (he_rank e) + 1) * CATEGORY_BASE.

(** The same as a test. *)
Definition in_category_b (e : HandEvaluation) : bool :=
  match he_value e with
  | Some v =>
      (HandRank_num (he_rank e) * CATEGORY_BASE <=? v)
      && (v <? (HandRank_num (he_rank e) + 1) * CATEGORY_BASE)
  | None => false
  end.

(** The decision table stays in the band of its category. *)
Definition fast5_in_category (vs : list Z) : bool :=
  in_category_b (fast5 vs true) && in_category_b (fast5 vs false).

(** A value that fits one base-15 digit of the strength. *)
Definition small (v : Z) : Prop := 0 <= v <= 14.

(** The wheel, and a flush that is not a straight. *)
Definition wheel : list Card :=
  [mkCard spades RA; mkCard spades R2; mkCard hearts R3; mkCard diamonds R4; mkCard clubs R5].

Definition flush_2_to_10 : list Card :=
  [mkCard hearts R2; mkCard hearts R4; mkCard hearts R6; mkCard hearts R8; mkCard hearts RT].

(** ** The table *)

(** *** Rejected actions, and a table to try them on *)

(** The errors by which [processPlayerAction] rejects an action. *)
Definition isRejection (e : Error) : bool :=
  match e with
  | PlayerNotFound | NotPlayersTurn | PlayerAlreadyFolded | PlayerAlreadyAllIn
  | CannotCheckFacingABet | NothingToCall | NotEnoughChipsToCall
  | CannotBetFacingABet | BelowMinimumBet | NotEnoughChipsToBet
  | CannotRaiseNoBet | BelowMinimumRaise | NotEnoughChipsToRaise
  | PlayerHasNoChips => true
  | _ => false
  end.

(** Two players with 100 chips each, blinds 5 and 10, on an unshuffled deck. *)
Definition table2 : outcome :=
  newEngine [("a"%string, 100); ("b"%string, 100)] 5 10 createDeck.

Definition state2 : GameState :=
  match table2 with Done s => s | Throw _ s => s end.

(** *** Splitting a pot *)

(** The split as the specification words it: every winner gets the quotient,
    and the first [remainder] winners in order get one chip more. *)
Definition spreadPayouts (potAmount : Z) (winnerIndices : list nat) : list (nat * Z) :=
  let base := potAmount / Z.of_nat (length winnerIndices) in
  let remainder := potAmount - base * Z.of_nat (length winnerIndices) in
  imap (fun idx winnerIndex =>
          (winnerIndex, base + (if Z.of_nat idx <? remainder then 1 else 0))) winnerIndices.

(** *** The state query *)

(** The states a caller of the public interface can bring the engine to. *)
Inductive Reachable : GameState → Prop :=
  | Reachable_new playerData small big shuffled s :
      newEngine playerData small big shuffled = Done s → Reachable s
  | Reachable_action s pid action s' :
      Reachable s → processPlayerAction s pid action = Done s' → Reachable s'
  | Reachable_hand s shuffled s' :
      Reachable s → startNewHand shuffled s = Done s' → Reachable s'
  | Reachable_query s s' :
      Reachable s → getGameState s = Done s' → Reachable s'.

(** Two stacks of 5 at blinds 5/10: both blinds are all-in. *)
Definition shortTable : outcome :=
  newEngine [("a"%string, 5); ("b"%string, 5)] 5 10 createDeck.

Definition shortState : GameState :=
  match shortTable with Done s => s | Throw _ s => s end.

(** The table is stalled when nobody can act, when the indexed player cannot,
    or when the betting round is already complete. *)
Definition notStalled (s : GameState) : Prop :=
  handComplete s = true
  ∨ (List.filter (fun p => negb (isAllIn p)) (getPlayersStillInHand s) ≠ []
     ∧ (∃ p, players s !! activePlayerIndex s = Some p
             ∧ isFolded p = false ∧ isAllIn p = false ∧ disconnected p = false)
     ∧ isBettingRoundComplete s = false).

(** *** Chip accounting *)

(** The chips in the stacks, and the bets of the hand. *)
Definition totalChips (s : GameState) : Z := sumZ (map chips (players s)).

Definition totalBets (s : GameState) : Z := sumZ (map totalBet (players s)).








(** *** A hand in progress *)

(** What a player has: stack, bet of the round, bet of the hand. *)
Definition stake (p : Player) : Z * Z * Z := (chips p, currentBet p, totalBet p).

Definition stakes (s : GameState) : list (Z * Z * Z) := map stake (players s).







(** The state after an accepted action, before the engine decides what
    happens next. *)
Definition acted (s : GameState) (i : nat) (p : Player) (action : PlayerAction)
  : GameState :=
  upd_player i (set_hasActed true) (set_lastAction (Some action) (executeAction s i p action)).


(** The start of [advanceBettingRound]: bets of the round back to 0. *)
Definition clearRound (s : GameState) : GameState :=
  set_players (map (fun player => set_currentBet 0 (set_hasActed false player)) (players s)) s.



(** A player before the blinds are posted. *)
Definition fresh (p : Player) : Prop :=
  currentBet p = 0 ∧ totalBet p = 0 ∧ 0 <= chips p ∧ isFolded p = false.

(** The stake after a blind was posted. *)
Definition posted (amount : Z) (t : Z * Z * Z) : Z * Z * Z := (t.1.1 - amount, amount, amount).







(** A caller that sends one action after the other and stops at the first
    one that throws. *)
Fixpoint playActions (moves : list (string * PlayerAction)) (s : GameState) : outcome :=
  match moves with
  | [] => Done s
  | (pid, action) :: moves' =>
      let* s := processPlayerAction s pid action in playActions moves' s
  end.

(** ** The deck and the deal *)

(** The card that player [j] of [n] gets in round [r], if the deck holds it. *)
Definition dealtTo (deck : list Card) (n j : nat) (rounds : nat) : list Card :=
  flat_map (fun r => take 1 (drop (r * n + j) deck)) (seq 0 rounds).

(** ** Ties and strengths *)

(** The base-15 digit [k] of a packed strength. *)
Definition digit15 (x : Z) (k : nat) : Z := (x / 15 ^ Z.of_nat k) mod 15.

(** The five values that a strength stands for, in increasing order: the
    category says how the digits are to be read. *)
Definition decode5 (v : Z) : list Z :=
  let category := v / CATEGORY_BASE in
  let x := v mod CATEGORY_BASE in
  let d := digit15 x in
  js_sort ascending
    (if category =? 2 then [d 3; d 3; d 2; d 1; d 0]%nat
     else if category =? 3 then [d 2; d 2; d 1; d 1; d 0]%nat
     else if category =? 4 then [d 2; d 2; d 2; d 1; d 0]%nat
     else if (category =? 5) || (category =? 9) || (category =? 10) then
       if x =? 5 then [2; 3; 4; 5; 14] else [x - 4; x - 3; x - 2; x - 1; x]
     else if category =? 7 then [d 1; d 1; d 1; d 0; d 0]%nat
     else if category =? 8 then [d 1; d 1; d 1; d 1; d 0]%nat
     else [d 4; d 3; d 2; d 1; d 0]%nat).

(** Equality of two lists of values, as a test. *)
Definition list_Z_eqb (l1 l2 : list Z) : bool :=
  (length l1 =? length l2)%nat && forallb (fun p => fst p =? snd p) (zip l1 l2).

(** The strength of the decision table can be read back. *)
Definition fast5_decodes (vs : list Z) : bool :=
  match he_value (fast5 vs true), he_value (fast5 vs false) with
  | Some v1, Some v2 => list_Z_eqb (decode5 v1) vs && list_Z_eqb (decode5 v2) vs
  | _, _ => false
  end.

(** ** Turns, seats and the cards of a hand *)

(** The action that a caller sends for an offered type. *)
Definition actionOf (t : ActionType) (amount : Z) : PlayerAction :=
  match t with
  | TFold => ActFold
  | TCheck => ActCheck
  | TCall => ActCall
  | TBet => ActBet amount
  | TRaise => ActRaise amount
  | TAllIn => ActAllIn amount
  end.

(** The dealer of the two-player table, who is to act. *)
Definition dealer2 : Player :=
  default (mkPlayer "" 0 [] 0 0 0 false false false false false false false)
    (players state2 !! 0%nat).

(** A player whom the turn can go to. *)
Definition canTakeTurn (s : GameState) (seat : nat) : bool :=
  match players s !! seat with
  | Some p => negb (isFolded p || isAllIn p || disconnected p)
  | None => false
  end.

(** The connected players met in the [fuel] seats after [idx]. *)
Definition connectedAhead (ps : list Player) (idx fuel : nat) : list nat :=
  List.filter (fun k => match ps !! ((idx + k) mod length ps)%nat with
                        | Some p => negb (disconnected p)
                        | None => false
                        end) (seq 1 fuel).

(** The fields of a player that dealing and posting the blinds leave alone. *)
Definition seatOf (p : Player) : string * bool := (playerId p, disconnected p).

(** What [resetOthersHasActed] does to one player. *)
Definition reopened (excludePlayerId : string) (p : Player) : Player :=
  if negb (bool_decide (playerId p = excludePlayerId))
     && negb (isFolded p) && negb (isAllIn p) && negb (disconnected p)
  then set_hasActed false p else p.

(** The player of the two-player table who is not the dealer. *)
Definition other2 : Player :=
  default (mkPlayer "" 0 [] 0 0 0 false false false false false false false)
    (players state2 !! 1%nat).







(** The cards a street reveals. *)
Definition streetCards (r : BettingRound) : nat :=
  match r with
  | PREFLOP => 3
  | _ => 1
  end.

(** The street after [r]. *)
Definition nextStreet (r : BettingRound) : BettingRound :=
  match r with
  | PREFLOP => FLOP
  | FLOP => TURN
  | TURN => RIVER
  | RIVER => SHOWDOWN
  | SHOWDOWN => SHOWDOWN
  end.

(** * Properties of the hand evaluator *)

(** ** Sorting *)

Section SortFacts.
Context {A : Type} (cmp : A → A → Z).
Let R (x y : A) : Prop := cmp x y <= 0.

Lemma sort_insert_perm x l : sort_insert cmp x l ≡ₚ x :: l.
Proof.
  induction l as [|y l IH]; simpl; [done|].
  destruct (cmp x y <=? 0); [done|].
  rewrite IH. apply Permutation_swap.
Qed.

Lemma js_sort_perm l : js_sort cmp l ≡ₚ l.
Proof.
  induction l as [|x l IH]; simpl; [done|].
  rewrite sort_insert_perm. by rewrite IH.
Qed.

Lemma js_sort_length l : length (js_sort cmp l) = length l.
Proof. by rewrite js_sort_perm. Qed.

Hypothesis R_total : ∀ x y, R x y ∨ R y x.
Hypothesis R_trans : ∀ x y z, R x y → R y z → R x z.

Lemma sort_insert_sorted x l :
  StronglySorted R l → StronglySorted R (sort_insert cmp x l).
Proof.
  induction 1 as [|y l Hl IH Hy]; simpl.
  - repeat constructor.
  - destruct (Z.leb_spec (cmp x y) 0) as [Hxy|Hxy].
    + constructor; [by constructor|].
      constructor; [done|].
      eapply Forall_impl; [exact Hy|]. intros z Hz. by eapply R_trans.
    + constructor; [done|].
      rewrite sort_insert_perm. constructor; [|done].
      destruct (R_total x y) as [H|H]; [unfold R in H; lia|done].
Qed.

Lemma js_sort_sorted l : StronglySorted R (js_sort cmp l).
Proof.
  induction l as [|x l IH]; simpl; [constructor|].
  by apply sort_insert_sorted.
Qed.
End SortFacts.

Lemma StronglySorted_weaken {A} (R1 R2 : A → A → Prop) l :
  (∀ x y, R1 x y → R2 x y) → StronglySorted R1 l → StronglySorted R2 l.
Proof.
  intros HR. induction 1 as [|x l Hl IH Hx]; constructor; [done|].
  eapply Forall_impl; [exact Hx|]. intros y. apply HR.
Qed.

Lemma js_sort_ascending_sorted l : StronglySorted Z.le (js_sort ascending l).
Proof.
  apply (StronglySorted_weaken (fun x y => ascending x y <= 0)).
  - unfold ascending. intros; lia.
  - apply js_sort_sorted; unfold ascending; intros; lia.
Qed.

Lemma js_sort_descending_sorted l : StronglySorted (flip Z.le) (js_sort descending l).
Proof.
  apply (StronglySorted_weaken (fun x y => descending x y <= 0)).
  - unfold descending, flip. intros; lia.
  - apply js_sort_sorted; unfold descending; intros; lia.
Qed.

Lemma js_sort_ascending_unique l1 l2 :
  l1 ≡ₚ l2 → js_sort ascending l1 = js_sort ascending l2.
Proof.
  intros H. apply (StronglySorted_unique Z.le).
  - apply js_sort_ascending_sorted.
  - apply js_sort_ascending_sorted.
  - by rewrite !js_sort_perm.
Qed.

#[local] Instance flip_Zle_antisymm : AntiSymm (=) (flip Z.le).
Proof. intros x y. unfold flip. lia. Qed.

Lemma js_sort_descending_unique l1 l2 :
  l1 ≡ₚ l2 → js_sort descending l1 = js_sort descending l2.
Proof.
  intros H. apply (StronglySorted_unique (flip Z.le)).
  - apply js_sort_descending_sorted.
  - apply js_sort_descending_sorted.
  - by rewrite !js_sort_perm.
Qed.

Lemma js_sort_ascending_id l : StronglySorted Z.le l → js_sort ascending l = l.
Proof.
  intros H. apply (StronglySorted_unique Z.le); [apply js_sort_ascending_sorted|done|].
  apply js_sort_perm.
Qed.

(** Sorting the cards sorts their values. *)
Lemma sortCards_values cards :
  map (fun c => value_of (rank c)) (sortCards cards true)
  = js_sort ascending (map (fun c => value_of (rank c)) cards).
Proof.
  apply (StronglySorted_unique Z.le).
  - assert (Hs : StronglySorted (fun a b => compareCards true a b <= 0) (sortCards cards true)).
    { apply (js_sort_sorted (compareCards true)).
      - intros x y. unfold compareCards.
        destruct (Z.eqb_spec (rankToValue (rank x) true) (rankToValue (rank y) true)) as [->|];
          [rewrite Z.eqb_refl|]; simpl.
        + lia.
        + destruct (Z.eqb_spec (rankToValue (rank y) true) (rankToValue (rank x) true)); simpl; lia.
      - intros x y z. unfold compareCards.
        destruct (Z.eqb_spec (rankToValue (rank x) true) (rankToValue (rank y) true)),
                 (Z.eqb_spec (rankToValue (rank y) true) (rankToValue (rank z) true)),
                 (Z.eqb_spec (rankToValue (rank x) true) (rankToValue (rank z) true));
          simpl; lia. }
    induction Hs as [|c l Hl IH Hc]; simpl; constructor; [done|].
    rewrite Forall_forall in Hc. apply Forall_forall. intros v Hv.
    apply list_elem_of_In, in_map_iff in Hv as (c' & <- & Hc').
    apply list_elem_of_In, Hc in Hc'. unfold compareCards, value_of in *.
    destruct (Z.eqb_spec (rankToValue (rank c) true) (rankToValue (rank c') true));
      simpl in *; lia.
  - apply js_sort_ascending_sorted.
  - rewrite js_sort_perm. apply Permutation_map. unfold sortCards. apply js_sort_perm.
Qed.

(** ** The five-card classifier reads ranks and one flag *)

Lemma map_rank_ext {B} (f : Rank → B) c1 c2 :
  map rank c1 = map rank c2 →
  map (fun card => f (rank card)) c1 = map (fun card => f (rank card)) c2.
Proof. intros H. rewrite <- !(map_map rank f). by rewrite H. Qed.

Lemma getRankCounts_ranks cards :
  getRankCounts cards = fold_left (fun counts r => counts_incr r counts) (map rank cards) [].
Proof.
  unfold getRankCounts. generalize (@nil (Rank * Z)).
  induction cards as [|c cards IH]; intros o; simpl; [done|]. apply IH.
Qed.

Lemma length_map_rank_ext c1 c2 : map rank c1 = map rank c2 → length c1 = length c2.
Proof. intros H. by rewrite <- (length_map rank c1), H, length_map. Qed.

Lemma classifyFive_ext c1 c2 :
  map rank c1 = map rank c2 → isFlush c1 = isFlush c2 →
  classifyFive c1 = classifyFive c2.
Proof.
  intros Hr Hf.
  assert (Hg : getRankCounts c1 = getRankCounts c2)
    by (by rewrite !getRankCounts_ranks, Hr).
  assert (Hs : checkStraight c1 = checkStraight c2).
  { unfold checkStraight.
    rewrite (map_rank_ext value_of c1 c2 Hr).
    by rewrite (map_rank_ext aceLowValue c1 c2 Hr). }
  unfold classifyFive, checkRoyalFlush, checkStraightFlush, checkFourOfAKind,
    checkFullHouse, checkFlush, checkThreeOfAKind, checkTwoPair, checkOnePair,
    checkHighCard.
  rewrite Hf, Hr, Hg, Hs, (map_rank_ext value_of c1 c2 Hr). reflexivity.
Qed.

Lemma canon5_ranks rs fl : map rank (canon5 rs fl) = rs.
Proof.
  destruct rs as [|r rs]; simpl; [done|]. f_equal.
  rewrite map_map. simpl. apply map_id.
Qed.

Lemma canon5_isFlush rs fl : (2 <= length rs)%nat → isFlush (canon5 rs fl) = fl.
Proof.
  destruct rs as [|r [|r' rs]]; simpl; try lia. intros _.
  destruct fl; simpl; [|done].
  induction rs; simpl; auto.
Qed.

Lemma rank_of_value_of r : rank_of_value (value_of r) = r.
Proof. by destruct r. Qed.

Lemma value_of_range r : 2 <= value_of r <= 14.
Proof. destruct r; unfold value_of; simpl; lia. Qed.

Lemma cardValues_In v : 2 <= v <= 14 → In v cardValues.
Proof.
  intros H. unfold cardValues. simpl.
  assert (v = 2 ∨ v = 3 ∨ v = 4 ∨ v = 5 ∨ v = 6 ∨ v = 7 ∨ v = 8 ∨ v = 9 ∨ v = 10
          ∨ v = 11 ∨ v = 12 ∨ v = 13 ∨ v = 14) by lia.
  intuition auto.
Qed.

Lemma forall_sorted_sound n : ∀ lo P,
  2 <= lo → forall_sorted n lo P = true →
  ∀ l, length l = n → sorted_from lo l → P l = true.
Proof.
  induction n as [|n IH]; intros lo P Hlo H l Hlen Hs.
  - destruct l; [done|discriminate].
  - destruct l as [|x l]; [discriminate|].
    simpl in Hlen, Hs. destruct Hs as [Hx Hs].
    cbn [forall_sorted] in H. rewrite forallb_forall in H.
    apply (IH x (fun l => P (x :: l))); [lia| |lia|done].
    apply H. apply filter_In. split; [apply cardValues_In; lia|]. apply Z.leb_le. lia.
Qed.

Lemma forall_strict_sound n : ∀ lo P,
  1 <= lo → forall_strict n lo P = true →
  ∀ l, length l = n → strict_from lo l → P l = true.
Proof.
  induction n as [|n IH]; intros lo P Hlo H l Hlen Hs.
  - destruct l; [done|discriminate].
  - destruct l as [|x l]; [discriminate|].
    simpl in Hlen, Hs. destruct Hs as [Hx Hs].
    cbn [forall_strict] in H. rewrite forallb_forall in H.
    apply (IH x (fun l => P (x :: l))); [lia| |lia|done].
    apply H. apply filter_In. split; [apply cardValues_In; lia|]. apply Z.ltb_lt. lia.
Qed.

Lemma sorted_from_intro lo l :
  StronglySorted Z.le l → Forall (fun v => lo <= v <= 14) l → sorted_from lo l.
Proof.
  intros Hs. revert lo. induction Hs as [|x l Hl IH Hx]; intros lo Hr; simpl; [done|].
  inversion Hr as [|? ? Hx' Hr']; subst. split; [done|].
  apply IH. rewrite Forall_forall in *. intros v Hv.
  specialize (Hx v Hv). specialize (Hr' v Hv). lia.
Qed.

Lemma HandRank_num_inj r1 r2 : HandRank_num r1 = HandRank_num r2 → r1 = r2.
Proof. destruct r1, r2; simpl; intros; try lia; reflexivity. Qed.

Lemma HandEvaluation_eqb_eq e1 e2 :
  HandEvaluation_eqb e1 e2 = true → e1 = e2 ∧ is_Some (he_value e1).
Proof.
  destruct e1 as [r1 [v1|]], e2 as [r2 [v2|]]; unfold HandEvaluation_eqb; simpl;
    rewrite ?andb_true_iff, ?bool_decide_eq_true; intros [H1 H2]; try discriminate.
  apply HandRank_num_inj in H1. apply Z.eqb_eq in H2. subst. eauto.
Qed.

Lemma fast5_check_ok : forall_sorted 5 2 fast5_agrees_both = true.
Proof. vm_compute. reflexivity. Qed.

Lemma Suit_eqb_eq a b : Suit_eqb a b = true ↔ a = b.
Proof. destruct a, b; simpl; split; intros; congruence. Qed.

Lemma Rank_eqb_eq a b : Rank_eqb a b = true ↔ a = b.
Proof. destruct a, b; simpl; split; intros; congruence. Qed.

Lemma value_of_inj r1 r2 : value_of r1 = value_of r2 → r1 = r2.
Proof. intros H. by rewrite <- (rank_of_value_of r1), H, rank_of_value_of. Qed.

(** [isFlush]: all the cards share one suit. *)
Lemma isFlush_spec l : isFlush l = true ↔ ∃ s, ∀ c, In c l → suit c = s.
Proof.
  destruct l as [|c0 l]; simpl.
  - split; [intros _; exists hearts; tauto|done].
  - rewrite andb_true_iff, forallb_forall. split.
    + intros [_ H]. exists (suit c0). intros c [<-|Hc]; [done|].
      by apply Suit_eqb_eq, H.
    + intros [s H]. split.
      * by apply Suit_eqb_eq.
      * intros c Hc. apply Suit_eqb_eq. rewrite (H c), (H c0); auto.
Qed.

Lemma isFlush_perm l1 l2 : l1 ≡ₚ l2 → isFlush l1 = isFlush l2.
Proof.
  intros HP.
  assert (Hiff : isFlush l1 = true ↔ isFlush l2 = true).
  { rewrite !isFlush_spec. split; intros [s H]; exists s; intros c Hc; apply H.
    - by rewrite HP.
    - by rewrite <- HP. }
  destruct (isFlush l1), (isFlush l2); intuition congruence.
Qed.

Lemma forallb_true_In {A} (f : A → bool) l x : forallb f l = true → In x l → f x = true.
Proof. intros H. by apply forallb_forall. Qed.

Lemma sorted_values_from cards :
  sorted_from 2 (js_sort ascending (map card_value cards)).
Proof.
  apply sorted_from_intro; [apply js_sort_ascending_sorted|].
  rewrite js_sort_perm. apply Forall_forall. intros v Hv.
  apply list_elem_of_In, in_map_iff in Hv as (c & <- & _). apply value_of_range.
Qed.

Lemma fast5_agrees_sorted vs fl :
  length vs = 5%nat → sorted_from 2 vs → fast5_agrees vs fl = true.
Proof.
  intros Hl Hs.
  pose proof (forall_sorted_sound 5 2 fast5_agrees_both ltac:(lia) fast5_check_ok vs Hl Hs)
    as Hc.
  apply andb_true_iff in Hc as [Ht Hf]. by destruct fl.
Qed.

Lemma evaluateFiveCards_fast cards :
  length cards = 5%nat →
  evaluateFiveCards cards = Ok (fiveOf cards) ∧ is_Some (he_value (fiveOf cards)).
Proof.
  intros Hlen. unfold evaluateFiveCards. rewrite Hlen.
  change (negb (5 =? 5)%nat) with false. cbv iota.
  set (sc := sortCards cards true).
  assert (Hperm : sc ≡ₚ cards) by apply js_sort_perm.
  assert (Hvs : map card_value sc = js_sort ascending (map card_value cards))
    by apply sortCards_values.
  assert (Hr : map rank sc = map rank_of_value (js_sort ascending (map card_value cards))).
  { rewrite <- Hvs. unfold card_value. rewrite map_map.
    apply map_ext. intros c. by rewrite rank_of_value_of. }
  assert (Hl5 : length (js_sort ascending (map card_value cards)) = 5%nat)
    by (by rewrite js_sort_length, length_map).
  pose proof (fast5_agrees_sorted _ (isFlush cards) Hl5 (sorted_values_from cards)) as Hag.
  unfold fast5_agrees in Hag.
  apply HandEvaluation_eqb_eq in Hag as [Heq Hsome].
  assert (Hcl : classifyFive sc = fiveOf cards).
  { unfold fiveOf. rewrite <- Heq. apply classifyFive_ext.
    - by rewrite canon5_ranks.
    - rewrite canon5_isFlush; [by apply isFlush_perm|].
      rewrite length_map, Hl5. lia. }
  rewrite Hcl. split; [done|]. unfold fiveOf. by rewrite <- Heq.
Qed.

(** ** Combinations are the sublists of the given length *)

Lemma generateCombinations_sublist {A} (l : list A) : ∀ k T,
  In T (generateCombinations l k) ↔ T `sublist_of` l ∧ length T = k.
Proof.
  induction l as [|x l IH]; intros k T.
  - destruct k; simpl.
    + split.
      * intros [<-|[]]. split; [constructor|done].
      * intros [_ H]. destruct T; [auto|discriminate].
    + split; [done|]. intros [H Hl]. apply sublist_nil_r in H. by subst.
  - destruct k; simpl.
    + split.
      * intros [<-|[]]. split; [apply sublist_nil_l|done].
      * intros [_ H]. destruct T; [auto|discriminate].
    + rewrite in_app_iff, in_map_iff. split.
      * intros [(T' & <- & HT')|HT].
        -- apply IH in HT' as [Hs <-]. split; [by constructor|done].
        -- apply IH in HT as [Hs Hl]. split; [by constructor|done].
      * intros [Hs Hl]. apply sublist_cons_r in Hs as [Hs|(T' & -> & Hs)].
        -- right. by apply IH.
        -- left. exists T'. split; [done|]. apply IH. simpl in Hl. split; [done|lia].
Qed.

Lemma bestStep_fold combos : ∀ b,
  (∀ S, In S combos → length S = 5%nat) →
  is_Some (he_value b) →
  ∃ best, fold_left bestStep combos (Ok (Some b)) = Ok (Some best)
          ∧ (best = b ∨ ∃ S, In S combos ∧ best = fiveOf S)
          ∧ value_le b best
          ∧ ∀ S, In S combos → value_le (fiveOf S) best.
Proof.
  induction combos as [|S combos IH]; intros b Hlen [vb Hb].
  - exists b. simpl. split; [done|]. split; [auto|].
    split; [unfold value_le; rewrite Hb; lia|]. tauto.
  - simpl. destruct (evaluateFiveCards_fast S) as [HS [vs Hvs]]; [apply Hlen; simpl; auto|].
    rewrite HS. unfold js_gt. rewrite Hvs, Hb.
    destruct (Z.gtb_spec vs vb) as [Hgt|Hle].
    + destruct (IH (fiveOf S)) as (best & Hf & Hin & Hle' & Hall);
        [intros; apply Hlen; simpl; auto|eauto|].
      exists best. split; [done|].
      assert (value_le b best).
      { unfold value_le in *. rewrite Hb. rewrite Hvs in Hle'.
        destruct (he_value best); [lia|done]. }
      split; [|split; [done|]].
      * right. destruct Hin as [->|(S' & HS' & ->)]; [exists S|exists S']; simpl; auto.
      * intros S' [<-|HS']; [done|by apply Hall].
    + destruct (IH b) as (best & Hf & Hin & Hle' & Hall);
        [intros; apply Hlen; simpl; auto|eauto|].
      exists best. split; [done|]. split; [|split; [done|]].
      * destruct Hin as [->|(S' & HS' & ->)]; [by left|right; exists S'; simpl; auto].
      * intros S' [<-|HS']; [|by apply Hall].
        unfold value_le in *. rewrite Hvs. rewrite Hb in Hle'.
        destruct (he_value best); [lia|done].
Qed.

Lemma findBestHand_max cards :
  (5 <= length cards)%nat →
  ∃ best, findBestHand cards = Ok best
          ∧ (∃ S, In S (generateCombinations cards 5) ∧ best = fiveOf S)
          ∧ ∀ S, In S (generateCombinations cards 5) → value_le (fiveOf S) best.
Proof.
  intros Hlen. unfold findBestHand. fold bestStep.
  assert (Hall : ∀ S, In S (generateCombinations cards 5) → length S = 5%nat)
    by (intros S HS; by apply generateCombinations_sublist in HS as [_ ?]).
  destruct (generateCombinations cards 5) as [|S combos] eqn:Hc.
  - exfalso. assert (In (take 5 cards) (generateCombinations cards 5)).
    { apply generateCombinations_sublist. split; [apply sublist_take|].
      rewrite length_take. lia. }
    rewrite Hc in H. done.
  - simpl. destruct (evaluateFiveCards_fast S) as [HS Hsome]; [apply Hall; simpl; auto|].
    rewrite HS.
    destruct (bestStep_fold combos (fiveOf S)) as (best & Hf & Hin & Hle & Hmax);
      [intros; apply Hall; simpl; auto|done|].
    rewrite Hf. exists best. split; [done|]. split.
    + destruct Hin as [->|(S' & HS' & ->)]; [exists S|exists S']; simpl; auto.
    + intros S' [<-|HS']; [done|by apply Hmax].
Qed.

Lemma buildRankCounts_values cards :
  buildRankCounts cards = countsOf (map card_value cards).
Proof.
  unfold buildRankCounts, countsOf. generalize (@nil (Z * Z)).
  induction cards as [|c cards IH]; intros o; simpl; [done|]. apply IH.
Qed.

Lemma value_count_In o v n : value_count o v = Some n → In v (keys o).
Proof.
  induction o as [|[k m] o IH]; simpl; [done|].
  destruct (Z.eqb_spec k v); [auto|]. intros H. right. by apply IH.
Qed.

Lemma value_count_below k o v :
  Forall (Z.lt k) (keys o) → v <= k → value_count o v = None.
Proof.
  intros Hall Hv. destruct (value_count o v) eqn:E; [|done].
  apply value_count_In in E. rewrite Forall_forall in Hall.
  apply list_elem_of_In, Hall in E. lia.
Qed.

Lemma value_incr_keys v o x : In x (keys (value_incr v o)) → x = v ∨ In x (keys o).
Proof.
  induction o as [|[k m] o IH]; simpl; [intuition congruence|].
  destruct (Z.eqb_spec k v) as [E|E]; simpl; [intuition congruence|].
  destruct (Z.ltb_spec v k) as [L|L]; simpl; [intuition congruence|].
  intros [Hx|Hx]; [auto|]. apply IH in Hx. tauto.
Qed.

Lemma value_incr_ksorted v o : ksorted o → ksorted (value_incr v o).
Proof.
  unfold ksorted. induction o as [|[k m] o IH]; simpl; intros Hs.
  - repeat constructor.
  - inversion Hs as [|? ? Hs' Hk]; subst.
    destruct (Z.eqb_spec k v); simpl; [by constructor|].
    destruct (Z.ltb_spec v k); simpl.
    + constructor; [by constructor|]. constructor; [done|].
      eapply Forall_impl; [exact Hk|]. intros; simpl in *; lia.
    + constructor; [by apply IH|]. apply Forall_forall. intros x Hx.
      apply list_elem_of_In, value_incr_keys in Hx as [->|Hx]; [lia|].
      rewrite Forall_forall in Hk. by apply Hk, list_elem_of_In.
Qed.

Lemma value_incr_count v o w :
  ksorted o →
  value_count (value_incr v o) w
  = if w =? v then Some (default 0 (value_count o v) + 1) else value_count o w.
Proof.
  unfold ksorted. induction o as [|[k m] o IH]; simpl; intros Hs.
  - destruct (Z.eqb_spec v w), (Z.eqb_spec w v); subst; try done; lia.
  - inversion Hs as [|? ? Hs' Hk]; subst.
    destruct (Z.eqb_spec k v) as [->|Hkv]; simpl.
    + destruct (Z.eqb_spec v w) as [->|]; [by rewrite Z.eqb_refl|].
      destruct (Z.eqb_spec w v); [lia|done].
    + destruct (Z.ltb_spec v k); simpl.
      * rewrite (value_count_below k o v Hk) by lia.
        destruct (Z.eqb_spec v w) as [->|]; [by rewrite Z.eqb_refl|].
        destruct (Z.eqb_spec w v); [lia|done].
      * rewrite IH by done.
        destruct (Z.eqb_spec k w) as [->|]; [|done].
        destruct (Z.eqb_spec w v); [lia|done].
Qed.

Lemma ksorted_ext o1 : ∀ o2,
  ksorted o1 → ksorted o2 → (∀ v, value_count o1 v = value_count o2 v) → o1 = o2.
Proof.
  unfold ksorted.
  induction o1 as [|[k1 n1] o1 IH]; intros [|[k2 n2] o2] Hs1 Hs2 Hext; simpl in *.
  - done.
  - specialize (Hext k2). rewrite Z.eqb_refl in Hext. done.
  - specialize (Hext k1). rewrite Z.eqb_refl in Hext. done.
  - inversion Hs1 as [|? ? Hs1' Hk1]; inversion Hs2 as [|? ? Hs2' Hk2]; subst.
    assert (k1 = k2) as ->.
    { pose proof (Hext k1) as H1. pose proof (Hext k2) as H2.
      rewrite !Z.eqb_refl in *.
      destruct (Z.eqb_spec k2 k1) as [|Hne]; [done|].
      destruct (Z.eqb_spec k1 k2); [done|].
      symmetry in H1. apply value_count_In in H1. apply value_count_In in H2.
      rewrite Forall_forall in Hk1, Hk2.
      apply list_elem_of_In, Hk2 in H1. apply list_elem_of_In, Hk1 in H2. lia. }
    pose proof (Hext k2) as H. rewrite Z.eqb_refl in H. injection H as ->.
    f_equal. apply IH; [done..|]. intros v. specialize (Hext v).
    destruct (Z.eqb_spec k2 v) as [E|E]; [|done].
    rewrite !(value_count_below k2) by (done || lia). done.
Qed.

Lemma value_incr_comm a b o :
  ksorted o → value_incr a (value_incr b o) = value_incr b (value_incr a o).
Proof.
  intros Hs. apply ksorted_ext; [by do 2 apply value_incr_ksorted..|].
  intros v. rewrite !value_incr_count by (done || by apply value_incr_ksorted).
  destruct (Z.eqb_spec v a) as [Ha|Ha], (Z.eqb_spec v b) as [Hb|Hb]; subst; try done.
  - destruct (Z.eqb_spec a b); [lia|]. done.
  - destruct (Z.eqb_spec b a); [lia|]. done.
Qed.

Lemma fold_value_incr_perm vs1 vs2 :
  vs1 ≡ₚ vs2 → ∀ o, ksorted o →
  fold_left (fun counts v => value_incr v counts) vs1 o
  = fold_left (fun counts v => value_incr v counts) vs2 o.
Proof.
  induction 1 as [|x l l' _ IH|x y l|l l' l'' _ IH1 _ IH2]; intros o Hs; simpl.
  - done.
  - apply IH. by apply value_incr_ksorted.
  - by rewrite value_incr_comm.
  - rewrite IH1 by done. by apply IH2.
Qed.

Lemma countsOf_perm vs1 vs2 : vs1 ≡ₚ vs2 → countsOf vs1 = countsOf vs2.
Proof. intros H. apply fold_value_incr_perm; [done|]. constructor. Qed.

(** ** Suits of a hand *)

Lemma bySuit_sublist cards s : bySuit cards s `sublist_of` cards.
Proof.
  unfold bySuit. induction cards as [|c cards IH]; simpl; [constructor|].
  destruct (Suit_eqb (suit c) s); by constructor.
Qed.

Lemma bySuit_In cards s c : In c (bySuit cards s) ↔ In c cards ∧ suit c = s.
Proof. unfold bySuit. rewrite filter_In, Suit_eqb_eq. done. Qed.

Lemma bySuit_two_suits cards s1 s2 :
  s1 ≠ s2 → (length (bySuit cards s1) + length (bySuit cards s2) <= length cards)%nat.
Proof.
  intros Hne. unfold bySuit. induction cards as [|c cards IH]; simpl; [lia|].
  destruct (Suit_eqb (suit c) s1) eqn:E1, (Suit_eqb (suit c) s2) eqn:E2; simpl; try lia.
  apply Suit_eqb_eq in E1, E2. congruence.
Qed.

Lemma flushSuit_None cards s : flushSuit cards = None → (length (bySuit cards s) < 5)%nat.
Proof.
  unfold flushSuit. intros H.
  pose proof (find_none _ _ H s) as Hs. cbv beta in Hs.
  apply Nat.leb_gt, Hs. destruct s; simpl; auto.
Qed.

Lemma flushSuit_Some cards s : flushSuit cards = Some s → (5 <= length (bySuit cards s))%nat.
Proof.
  unfold flushSuit. intros H. apply find_some in H as [_ H]. by apply Nat.leb_le.
Qed.

Lemma sublist_bySuit S cards s :
  S `sublist_of` cards → (∀ c, In c S → suit c = s) → S `sublist_of` bySuit cards s.
Proof.
  unfold bySuit. induction 1 as [|x l1 l2 _ IH|x l1 l2 _ IH]; intros Hs; simpl.
  - constructor.
  - rewrite (proj2 (Suit_eqb_eq _ _) (Hs x ltac:(simpl; auto))).
    constructor. apply IH. intros c Hc. apply Hs. simpl; auto.
  - destruct (Suit_eqb (suit x) s); [constructor|]; by apply IH.
Qed.

(** ** Sorted values of sublists *)

Lemma sublist_map {A B} (f : A → B) (l1 l2 : list A) :
  l1 `sublist_of` l2 → map f l1 `sublist_of` map f l2.
Proof. induction 1; simpl; by constructor. Qed.

Lemma sublist_of_map {A B} (f : A → B) (l2 : list A) : ∀ (k : list B),
  k `sublist_of` map f l2 → ∃ l1, l1 `sublist_of` l2 ∧ map f l1 = k.
Proof.
  induction l2 as [|x l2 IH]; intros k Hk; simpl in *.
  - apply sublist_nil_r in Hk as ->. exists []. split; [constructor|done].
  - apply sublist_cons_r in Hk as [Hk|(k' & -> & Hk)].
    + destruct (IH k Hk) as (l1 & H1 & H2). exists l1. split; [by constructor|done].
    + destruct (IH k' Hk) as (l1 & H1 & H2). exists (x :: l1).
      split; [by constructor|]. simpl. by rewrite H2.
Qed.

Lemma sublist_StronglySorted {A} (R : A → A → Prop) (l1 l2 : list A) :
  StronglySorted R l2 → l1 `sublist_of` l2 → StronglySorted R l1.
Proof.
  intros Hs Hsub. induction Hsub as [|x l1 l2 Hsub IH|x l1 l2 Hsub IH].
  - constructor.
  - apply StronglySorted_cons in Hs as [Hx Hs]. apply StronglySorted_cons.
    split; [|by apply IH]. rewrite Forall_forall in *. intros y Hy.
    apply Hx. by eapply elem_of_sublist.
  - apply StronglySorted_cons in Hs as [_ Hs]. by apply IH.
Qed.

Lemma sorted_sublist_values {A} (f : A → Z) (S cards : list A) :
  S `sublist_of` cards →
  js_sort ascending (map f S) `sublist_of` js_sort ascending (map f cards).
Proof.
  intros HS.
  assert (Hsub : js_sort ascending (map f S) ⊆+ js_sort ascending (map f cards)).
  { rewrite !js_sort_perm. by apply sublist_submseteq, sublist_map. }
  apply submseteq_sublist_r in Hsub as (T' & HP & HT').
  assert (js_sort ascending (map f S) = T') as ->; [|done].
  apply (StronglySorted_unique Z.le); [apply js_sort_ascending_sorted| |done].
  eapply sublist_StronglySorted; [|exact HT']. apply js_sort_ascending_sorted.
Qed.

Lemma sorted_sublist_lift {A} (f : A → Z) (cards : list A) (T : list Z) :
  T `sublist_of` js_sort ascending (map f cards) →
  ∃ S, S `sublist_of` cards ∧ js_sort ascending (map f S) = T ∧ length S = length T.
Proof.
  intros HT.
  assert (Hsorted : StronglySorted Z.le T).
  { eapply sublist_StronglySorted; [|exact HT]. apply js_sort_ascending_sorted. }
  apply sublist_submseteq in HT. rewrite js_sort_perm in HT.
  apply submseteq_sublist_r in HT as (T' & HP & HT').
  apply sublist_of_map in HT' as (S & HS & <-).
  exists S. split; [done|]. split.
  - rewrite <- (js_sort_ascending_id T Hsorted). by apply js_sort_ascending_unique.
  - by rewrite <- (length_map f S), <- HP.
Qed.

(** ** The direct classifier against the table, on every multiset of values *)

Lemma sevenCheck_plain_6 : forall_sorted 6 2 sevenCheck_plain = true.
Proof. vm_cast_no_check (eq_refl true). Qed.

Lemma sevenCheck_plain_7 : forall_sorted 7 2 sevenCheck_plain = true.
Proof. vm_cast_no_check (eq_refl true). Qed.

Lemma sevenCheck_flush_5_1 : sevenCheck_flush_sizes 5 1 = true.
Proof. vm_cast_no_check (eq_refl true). Qed.

Lemma sevenCheck_flush_6_0 : sevenCheck_flush_sizes 6 0 = true.
Proof. vm_cast_no_check (eq_refl true). Qed.

Lemma sevenCheck_flush_6_1 : sevenCheck_flush_sizes 6 1 = true.
Proof. vm_cast_no_check (eq_refl true). Qed.

Lemma sevenCheck_flush_7_0 : sevenCheck_flush_sizes 7 0 = true.
Proof. vm_cast_no_check (eq_refl true). Qed.

Lemma sevenCheck_flush_5_2 : sevenCheck_flush_sizes 5 2 = true.
Proof. vm_cast_no_check (eq_refl true). Qed.

(** ** Facts about hands of distinct cards *)

Lemma filter_split {A} (p : A → bool) (l : list A) :
  l ≡ₚ List.filter p l ++ List.filter (fun x => negb (p x)) l.
Proof.
  induction l as [|x l IH]; simpl; [done|].
  destruct (p x); simpl.
  - by constructor.
  - rewrite <- Permutation_middle. by constructor.
Qed.

Lemma filter_length_perm {A} (p : A → bool) (l1 l2 : list A) :
  l1 ≡ₚ l2 → length (List.filter p l1) = length (List.filter p l2).
Proof.
  induction 1 as [|x l l' _ IH|x y l|l l' l'' _ IH1 _ IH2]; simpl.
  - done.
  - destruct (p x); simpl; lia.
  - destruct (p x), (p y); simpl; lia.
  - lia.
Qed.

Lemma filter_map_length {A B} (f : A → B) (p : B → bool) (l : list A) :
  length (List.filter p (map f l)) = length (List.filter (fun x => p (f x)) l).
Proof. induction l as [|x l IH]; simpl; [done|]. destruct (p (f x)); simpl; lia. Qed.

Lemma card_eq (c1 c2 : Card) : suit c1 = suit c2 → rank c1 = rank c2 → c1 = c2.
Proof. destruct c1, c2; simpl; congruence. Qed.

Lemma suits_length (l : list Suit) : NoDup l → (length l <= 4)%nat.
Proof.
  intros H. apply NoDup_ListNoDup in H.
  apply (NoDup_incl_length H (l' := [hearts; diamonds; clubs; spades])).
  intros s _. destruct s; simpl; auto.
Qed.

(** A value occurs at most four times among distinct cards. *)
Lemma value_at_most_four cards v :
  NoDup cards → (length (List.filter (Z.eqb v) (map card_value cards)) <= 4)%nat.
Proof.
  intros Hnd. rewrite filter_map_length.
  set (C := List.filter (fun c => v =? card_value c) cards).
  rewrite <- (length_map suit C). apply suits_length.
  change (map suit C) with (suit <$> C).
  apply NoDup_fmap_2_strong.
  - intros c1 c2 H1 H2 Hs.
    apply list_elem_of_In, filter_In in H1 as [_ H1].
    apply list_elem_of_In, filter_In in H2 as [_ H2].
    apply Z.eqb_eq in H1, H2. apply card_eq; [done|].
    apply value_of_inj. unfold card_value in *. congruence.
  - apply NoDup_ListNoDup, List.NoDup_filter. by apply NoDup_ListNoDup.
Qed.

Lemma count_le4_sorted_values cards :
  NoDup cards → count_le4 (js_sort ascending (map card_value cards)) = true.
Proof.
  intros Hnd. unfold count_le4. apply forallb_forall. intros v _.
  apply Nat.leb_le.
  rewrite (filter_length_perm _ _ (map card_value cards)) by apply js_sort_perm.
  by apply value_at_most_four.
Qed.

Lemma suited_values_NoDup cards s :
  NoDup cards → NoDup (map card_value (bySuit cards s)).
Proof.
  intros Hnd. change (NoDup (card_value <$> bySuit cards s)).
  apply NoDup_fmap_2_strong.
  - intros c1 c2 H1 H2 Hv.
    apply list_elem_of_In, bySuit_In in H1 as [_ H1].
    apply list_elem_of_In, bySuit_In in H2 as [_ H2].
    apply card_eq; [congruence|]. by apply value_of_inj.
  - eapply sublist_NoDup; [done|apply bySuit_sublist].
Qed.

Lemma strict_from_intro lo l :
  StronglySorted Z.le l → NoDup l → Forall (fun v => lo < v <= 14) l → strict_from lo l.
Proof.
  intros Hs. revert lo. induction Hs as [|x l Hl IH Hx]; intros lo Hnd Hr; simpl; [done|].
  apply NoDup_cons in Hnd as [Hx' Hnd].
  inversion Hr as [|? ? Hx'' Hr']; subst. split; [done|].
  apply IH; [done|]. rewrite Forall_forall in *. intros v Hv.
  specialize (Hx v Hv). specialize (Hr' v Hv).
  assert (x ≠ v) by (intros ->; done). lia.
Qed.

Lemma set_from_aux_NoDup xs : ∀ seen,
  NoDup xs → (∀ x, In x xs → ¬ In x seen) → set_from_aux seen xs = xs.
Proof.
  induction xs as [|x xs IH]; intros seen Hnd Hdis; simpl; [done|].
  apply NoDup_cons in Hnd as [Hx Hnd].
  destruct (existsb (Z.eqb x) seen) eqn:E.
  - apply existsb_exists in E as (y & Hy & Hxy). apply Z.eqb_eq in Hxy as <-.
    exfalso. apply (Hdis x); simpl; auto.
  - f_equal. apply IH; [done|]. intros y Hy [<-|Hs].
    + apply Hx. by apply list_elem_of_In.
    + apply (Hdis y); simpl; auto.
Qed.

Lemma set_from_NoDup xs : NoDup xs → set_from xs = xs.
Proof. intros H. apply set_from_aux_NoDup; [done|]. intros x _ []. Qed.

Lemma classifySeven_flush_perm rc a b :
  NoDup a → a ≡ₚ b → classifySeven rc (Some a) = classifySeven rc (Some b).
Proof.
  intros Hnd HP. unfold classifySeven.
  rewrite (set_from_NoDup a Hnd), (set_from_NoDup b) by (by rewrite <- HP).
  by rewrite (js_sort_ascending_unique a b HP), (js_sort_descending_unique a b HP).
Qed.

Lemma values_range cards :
  Forall (fun v => 1 < v <= 14) (map card_value cards).
Proof.
  apply Forall_forall. intros v Hv.
  apply list_elem_of_In, in_map_iff in Hv as (c & <- & _).
  pose proof (value_of_range (rank c)). unfold card_value. lia.
Qed.

(** ** The direct classifier returns the best five cards *)

Lemma value_leb_le e v7 e7 :
  value_leb e v7 = true → he_value e7 = Some v7 → value_le e e7.
Proof.
  unfold value_leb, value_le. intros H ->. destruct (he_value e); [|done].
  by apply Z.leb_le.
Qed.

Lemma combination_values {A} (f : A → Z) (S cards : list A) :
  In S (generateCombinations cards 5) →
  In (js_sort ascending (map f S)) (generateCombinations (js_sort ascending (map f cards)) 5).
Proof.
  intros [HS Hl]%generateCombinations_sublist. apply generateCombinations_sublist.
  split; [by apply sorted_sublist_values|]. by rewrite js_sort_length, length_map.
Qed.

Lemma combination_lift {A} (f : A → Z) (cards : list A) (T : list Z) :
  In T (generateCombinations (js_sort ascending (map f cards)) 5) →
  ∃ S, In S (generateCombinations cards 5) ∧ js_sort ascending (map f S) = T.
Proof.
  intros [HT Hl]%generateCombinations_sublist.
  destruct (sorted_sublist_lift f cards T HT) as (S & HS & HST & HSl).
  exists S. split; [|done]. apply generateCombinations_sublist. split; [done|lia].
Qed.

Lemma flush_combination cards S :
  (length cards <= 7)%nat →
  In S (generateCombinations cards 5) → isFlush S = true →
  ∃ s, flushSuit cards = Some s ∧ In S (generateCombinations (bySuit cards s) 5).
Proof.
  intros Hn [HS Hl]%generateCombinations_sublist [s0 Hs0]%isFlush_spec.
  assert (Hsub : S `sublist_of` bySuit cards s0) by (by apply sublist_bySuit).
  assert (H5 : (5 <= length (bySuit cards s0))%nat)
    by (apply sublist_length in Hsub; lia).
  destruct (flushSuit cards) as [s|] eqn:Hfs.
  - exists s. split; [done|].
    assert (s = s0) as ->.
    { destruct (decide (s = s0)) as [|Hne]; [done|]. exfalso.
      pose proof (flushSuit_Some _ _ Hfs). pose proof (bySuit_two_suits cards s s0 Hne). lia. }
    by apply generateCombinations_sublist.
  - pose proof (flushSuit_None cards s0 Hfs). lia.
Qed.

Lemma suited_isFlush cards s S :
  S `sublist_of` bySuit cards s → isFlush S = true.
Proof.
  intros HS. apply isFlush_spec. exists s. intros c Hc.
  apply list_elem_of_In in Hc. eapply elem_of_sublist in Hc; [|exact HS].
  by apply list_elem_of_In, bySuit_In in Hc as [_ ?].
Qed.

(** The classifier returns the strength of a best five-card subset. *)
Lemma evaluateSevenCards_is_max cards :
  NoDup cards → (length cards = 6 ∨ length cards = 7)%nat →
  is_Some (he_value (evaluateSevenCards cards))
  ∧ (∀ S, In S (generateCombinations cards 5) → value_le (fiveOf S) (evaluateSevenCards cards))
  ∧ (∃ S, In S (generateCombinations cards 5) ∧ fiveOf S = evaluateSevenCards cards).
Proof.
  intros Hnd Hlen.
  set (R := js_sort ascending (map card_value cards)).
  assert (HRlen : length R = length cards) by (unfold R; by rewrite js_sort_length, length_map).
  destruct (flushSuit cards) as [s|] eqn:Hfs.
  - (* one suit holds five cards or more *)
    set (suited := bySuit cards s).
    set (others := List.filter (fun c => negb (Suit_eqb (suit c) s)) cards).
    set (F := js_sort ascending (map card_value suited)).
    set (E := js_sort ascending (map card_value others)).
    assert (Hsplit : cards ≡ₚ suited ++ others) by apply filter_split.
    assert (HFE : map card_value cards ≡ₚ F ++ E).
    { unfold F, E. rewrite !js_sort_perm, <- map_app. by apply Permutation_map. }
    assert (HR : R = js_sort ascending (F ++ E)) by (by apply js_sort_ascending_unique).
    assert (HFlen : length F = length suited) by (unfold F; by rewrite js_sort_length, length_map).
    assert (HElen : length E = length others) by (unfold E; by rewrite js_sort_length, length_map).
    assert (Hsum : (length suited + length others = length cards)%nat)
      by (by rewrite Hsplit, length_app).
    pose proof (flushSuit_Some _ _ Hfs) as H5. fold suited in H5.
    assert (HsNoDup : NoDup (map card_value suited)) by (by apply suited_values_NoDup).
    assert (HF : strict_from 1 F).
    { apply strict_from_intro; [apply js_sort_ascending_sorted| |].
      - unfold F. by rewrite js_sort_perm.
      - unfold F. rewrite js_sort_perm. apply values_range. }
    assert (HE : sorted_from 2 E) by apply sorted_values_from.
    assert (He7 : evaluateSevenCards cards = classifySeven (countsOf (F ++ E)) (Some F)).
    { unfold evaluateSevenCards. rewrite Hfs. simpl.
      rewrite buildRankCounts_values, (countsOf_perm _ _ HFE).
      apply classifySeven_flush_perm; [done|]. unfold F. by rewrite js_sort_perm. }
    assert (Hcheck : sevenCheck_flush F E = true).
    { assert (Hsizes : ∀ k m, sevenCheck_flush_sizes k m = true →
                              length F = k → length E = m → sevenCheck_flush F E = true).
      { intros k m Hc HkF HmE. unfold sevenCheck_flush_sizes in Hc.
        pose proof (forall_strict_sound k 1 _ ltac:(lia) Hc F HkF HF) as Hc'.
        cbv beta in Hc'.
        exact (forall_sorted_sound m 2 _ ltac:(lia) Hc' E HmE HE). }
      assert (Hcases : ((length F = 5 ∧ length E = 1) ∨ (length F = 5 ∧ length E = 2)
                        ∨ (length F = 6 ∧ length E = 0) ∨ (length F = 6 ∧ length E = 1)
                        ∨ (length F = 7 ∧ length E = 0))%nat) by lia.
      destruct Hcases as [[? ?]|[[? ?]|[[? ?]|[[? ?]|[? ?]]]]].
      - by apply (Hsizes 5%nat 1%nat sevenCheck_flush_5_1).
      - by apply (Hsizes 5%nat 2%nat sevenCheck_flush_5_2).
      - by apply (Hsizes 6%nat 0%nat sevenCheck_flush_6_0).
      - by apply (Hsizes 6%nat 1%nat sevenCheck_flush_6_1).
      - by apply (Hsizes 7%nat 0%nat sevenCheck_flush_7_0). }
    unfold sevenCheck_flush in Hcheck. rewrite <- He7, <- HR in Hcheck.
    destruct (he_value (evaluateSevenCards cards)) as [v7|] eqn:Hv7; [|done].
    apply andb_true_iff in Hcheck as [Hcheck Hatt].
    apply andb_true_iff in Hcheck as [HubA HubB].
    rewrite forallb_forall in HubA, HubB. apply existsb_exists in Hatt as (T & HT & Heq).
    split; [eauto|]. split.
    + intros S HS. unfold fiveOf. destruct (isFlush S) eqn:Hfl.
      * destruct (flush_combination cards S ltac:(lia) HS Hfl) as (s' & Hs' & HS').
        assert (s' = s) by congruence. subst s'.
        eapply value_leb_le; [|done]. apply HubB.
        by apply (combination_values card_value).
      * eapply value_leb_le; [|done]. apply HubA.
        by apply (combination_values card_value).
    + apply (combination_lift card_value) in HT as (S & HS & HST).
      exists S. split.
      * apply generateCombinations_sublist in HS as [HS Hl].
        apply generateCombinations_sublist. split; [|done].
        etrans; [exact HS|apply bySuit_sublist].
      * apply generateCombinations_sublist in HS as [HS _].
        unfold fiveOf. rewrite HST, (suited_isFlush cards s S HS).
        by apply HandEvaluation_eqb_eq in Heq as [? _].
  - (* no suit holds five cards *)
    assert (He7 : evaluateSevenCards cards = classifySeven (countsOf R) None).
    { unfold evaluateSevenCards. rewrite Hfs. simpl.
      rewrite buildRankCounts_values. f_equal. apply countsOf_perm.
      unfold R. by rewrite js_sort_perm. }
    assert (Hcheck : sevenCheck_plain R = true).
    { destruct Hlen as [Hlen|Hlen].
      - apply (forall_sorted_sound 6 2 _ ltac:(lia) sevenCheck_plain_6);
          [lia|apply sorted_values_from].
      - apply (forall_sorted_sound 7 2 _ ltac:(lia) sevenCheck_plain_7);
          [lia|apply sorted_values_from]. }
    unfold sevenCheck_plain in Hcheck.
    assert (Hc4 : count_le4 R = true) by (by apply count_le4_sorted_values).
    rewrite Hc4, <- He7 in Hcheck.
    change (negb true) with false in Hcheck. cbv iota in Hcheck.
    destruct (he_value (evaluateSevenCards cards)) as [v7|] eqn:Hv7; [|done].
    apply andb_true_iff in Hcheck as [Hub Hatt].
    rewrite forallb_forall in Hub. apply existsb_exists in Hatt as (T & HT & Heq).
    assert (Hnf : ∀ S, In S (generateCombinations cards 5) → isFlush S = false).
    { intros S HS. destruct (isFlush S) eqn:Hfl; [|done].
      destruct (flush_combination cards S ltac:(lia) HS Hfl) as (s' & Hs' & _). congruence. }
    split; [eauto|]. split.
    + intros S HS. unfold fiveOf. rewrite (Hnf S HS).
      eapply value_leb_le; [|done]. apply Hub. by apply (combination_values card_value).
    + apply (combination_lift card_value) in HT as (S & HS & HST).
      exists S. split; [done|]. unfold fiveOf. rewrite HST, (Hnf S HS).
      by apply HandEvaluation_eqb_eq in Heq as [? _].
Qed.

(** ** Strengths stay in the band of their category *)

Lemma in_category_b_true e : in_category_b e = true → in_category e.
Proof.
  unfold in_category_b, in_category. destruct (he_value e) as [v|]; [|done].
  rewrite andb_true_iff, Z.leb_le, Z.ltb_lt. eauto.
Qed.

Lemma fast5_in_category_ok : forall_sorted 5 2 fast5_in_category = true.
Proof. vm_cast_no_check (eq_refl true). Qed.

Lemma fiveOf_in_category cards : length cards = 5%nat → in_category (fiveOf cards).
Proof.
  intros Hlen.
  assert (Hl5 : length (js_sort ascending (map card_value cards)) = 5%nat)
    by (by rewrite js_sort_length, length_map).
  pose proof (forall_sorted_sound 5 2 fast5_in_category ltac:(lia) fast5_in_category_ok
                _ Hl5 (sorted_values_from cards)) as Hc.
  apply andb_true_iff in Hc as [Ht Hf]. apply in_category_b_true.
  unfold fiveOf. by destruct (isFlush cards).
Qed.

Lemma reduce15_bound l :
  Forall small l → (length l <= 5)%nat → 0 <= reduce15 l < 1000000000.
Proof.
  unfold reduce15, small.
  destruct l as [|a [|b [|c [|d [|e [|f l]]]]]]; simpl; intros H Hl; try lia;
    repeat match goal with
           | H : Forall _ (_ :: _) |- _ => apply Forall_cons in H as [? H]
           end; lia.
Qed.

Lemma small_find p l x : Forall small l → find p l = Some x → small x.
Proof.
  intros Hl Hf. apply find_some in Hf as [Hin _].
  rewrite Forall_forall in Hl. by apply Hl, list_elem_of_In.
Qed.

Lemma small_filter p l : Forall small l → Forall small (List.filter p l).
Proof.
  rewrite !Forall_forall. intros H x Hx. apply H.
  apply list_elem_of_In. apply list_elem_of_In, filter_In in Hx. tauto.
Qed.

Lemma small_take n l : Forall small l → Forall small (take n l).
Proof. apply Forall_take. Qed.

Lemma small_sort cmp l : Forall small l → Forall small (js_sort cmp l).
Proof. intros H. by rewrite js_sort_perm. Qed.

Lemma set_from_aux_In seen xs x : In x (set_from_aux seen xs) → In x xs.
Proof.
  revert seen. induction xs as [|y xs IH]; intros seen; simpl; [done|].
  destruct (existsb (Z.eqb y) seen); simpl; [eauto|]. intros [->|H]; eauto.
Qed.

Lemma small_set_from l : Forall small l → Forall small (set_from l).
Proof.
  rewrite !Forall_forall. intros H x Hx. apply H.
  apply list_elem_of_In. apply list_elem_of_In in Hx. by eapply set_from_aux_In.
Qed.

Lemma small_lookup l i : Forall small l → small (or_default (l !! i) 0).
Proof.
  intros H. unfold or_default. destruct (l !! i) as [x|] eqn:E; [|unfold small; lia].
  destruct (x =? 0); [unfold small; lia|].
  rewrite Forall_forall in H. eapply H, list_elem_of_lookup_2, E.
Qed.

Lemma small_or_default o d :
  (∀ x, o = Some x → small x) → small d → small (or_default o d).
Proof.
  intros Ho Hd. unfold or_default. destruct o as [x|]; [|done].
  destruct (x =? 0); [done|]. by apply Ho.
Qed.

Lemma small_truthy o x : (∀ y, o = Some y → small y) → truthy o = Some x → small x.
Proof.
  unfold truthy. destruct o as [y|]; [|done]. destruct (y =? 0); [done|].
  intros H [= <-]. by apply H.
Qed.

Lemma straightScan_small rest : ∀ prev run best h,
  Forall small rest → (∀ b, best = Some b → small b) →
  straightScan prev rest run best = Some h → small h.
Proof.
  induction rest as [|x rest IH]; intros prev run best h Hr Hb; simpl.
  - intros ->. by apply Hb.
  - apply Forall_cons in Hr as [Hx Hr].
    destruct (x =? prev + 1); [|destruct (negb (x =? prev))]; apply IH; try done.
    intros b. destruct (run + 1 >=? 5); [|by apply Hb]. by intros [= <-].
Qed.

Lemma findStraightHigh_small l h : Forall small l → findStraightHigh l = Some h → small h.
Proof.
  intros Hl. unfold findStraightHigh. destruct (length l <? 5)%nat; [done|].
  destruct (existsb (Z.eqb 14) l).
  - apply straightScan_small; [done|done].
  - destruct l as [|w0 rest]; [done|]. apply Forall_cons in Hl as [_ Hl].
    apply straightScan_small; done.
Qed.

Lemma in_category_intro r x :
  0 <= x < 1000000000 →
  in_category (mkEval r (Some (HandRank_num r * 1000000000 + x))).
Proof.
  intros H. exists (HandRank_num r * 1000000000 + x).
  split; [done|]. simpl. unfold CATEGORY_BASE. lia.
Qed.

Ltac destruct_scrutinee t :=
  lazymatch t with
  | context [match ?x with _ => _ end] => destruct_scrutinee x
  | _ => destruct t eqn:?
  end.

Ltac classify_step :=
  lazymatch goal with
  | |- in_category ?e =>
      lazymatch e with
      | context [match ?x with _ => _ end] => destruct_scrutinee x
      end
  end.

Ltac derive_small :=
  repeat match goal with
    | H : truthy (findStraightHigh ?l) = Some ?x |- _ =>
        assert (small x)
          by (eapply small_truthy; [|exact H]; intros ?; apply findStraightHigh_small;
              auto using small_sort, small_set_from);
        clear H
    | H : truthy (find ?p ?l) = Some ?x |- _ =>
        assert (small x)
          by (eapply small_truthy; [|exact H]; intros ?; apply small_find;
              auto using small_sort, small_filter);
        clear H
    | H : List.filter ?p ?l = ?x :: ?l' |- _ =>
        assert (Forall small (x :: l'))
          by (rewrite <- H; auto using small_sort, small_filter);
        clear H
    | H : Forall small (_ :: _) |- _ => apply Forall_cons in H as [? H]
    end.

Lemma classifySeven_in_category rc fv :
  Forall small (keys rc) → (∀ l, fv = Some l → Forall small l) →
  in_category (classifySeven rc fv).
Proof.
  intros Hk Hfv. unfold classifySeven. cbv zeta.
  set (asc := js_sort ascending (keys rc)).
  set (desc := js_sort descending asc).
  assert (Hasc : Forall small asc) by (by apply small_sort).
  assert (Hdesc : Forall small desc) by (by apply small_sort).
  assert (Hsuited : ∀ l, fv = Some l → Forall small (set_from l))
    by (intros l Hl; by apply small_set_from, Hfv).
  repeat classify_step; simplify_eq;
    try (specialize (Hsuited _ eq_refl));
    derive_small;
    apply in_category_intro;
    repeat match goal with
      | |- context [or_default (find ?p ?l) ?d] =>
          let Hs := fresh "Hs" in
          assert (Hs : small (or_default (find p l) d))
            by (apply small_or_default;
                [intros ?; apply small_find; auto using small_filter|unfold small; lia]);
          generalize dependent (or_default (find p l) d); intros
      | |- context [or_default (?l !! ?i) 0] =>
          let Hs := fresh "Hs" in
          assert (Hs : small (or_default (l !! i) 0))
            by (apply small_lookup; auto using small_take, small_filter);
          generalize dependent (or_default (l !! i) 0); intros
      end;
    first
      [ apply reduce15_bound;
        [ repeat (apply Forall_cons; split); auto using small_take, small_sort
        | rewrite ?length_take; cbn [length]; lia ]
      | unfold reduce15; simpl; unfold small in *; lia ].
Qed.

(** ** Category dominance, agreement of the two evaluators, and the wheel *)

Lemma countsOf_keys_small vs : Forall small vs → ∀ o,
  Forall small (keys o) →
  Forall small (keys (fold_left (fun counts v => value_incr v counts) vs o)).
Proof.
  induction 1 as [|v vs Hv Hvs IH]; intros o Ho; simpl; [done|].
  apply IH. rewrite Forall_forall in *. intros x Hx.
  apply list_elem_of_In, value_incr_keys in Hx as [->|Hx]; [done|].
  by apply Ho, list_elem_of_In.
Qed.

Lemma card_values_small cards : Forall small (map card_value cards).
Proof.
  eapply Forall_impl; [apply values_range|]. unfold small. intros; simpl in *; lia.
Qed.

Lemma evaluateSevenCards_in_category cards : in_category (evaluateSevenCards cards).
Proof.
  unfold evaluateSevenCards. apply classifySeven_in_category.
  - rewrite buildRankCounts_values. apply countsOf_keys_small; [apply card_values_small|].
    constructor.
  - intros l. destruct (flushSuit cards) as [s|]; [|done].
    simpl. intros [= <-]. apply card_values_small.
Qed.

Lemma evaluateHand_in_category cards :
  (5 <= length cards)%nat →
  ∃ e, evaluateHand cards = Ok e ∧ in_category e.
Proof.
  intros Hlen. unfold evaluateHand.
  destruct (Nat.ltb_spec (length cards) 5); [lia|].
  destruct (Nat.eqb_spec (length cards) 5) as [H5|H5].
  - destruct (evaluateFiveCards_fast cards H5) as [-> _].
    eexists; split; [done|]. by apply fiveOf_in_category.
  - eexists; split; [done|]. apply evaluateSevenCards_in_category.
Qed.

(** C3: a higher category always carries a strictly higher strength. *)
Theorem category_dominates_strength (cards1 cards2 : list Card) :
  (5 <= length cards1 <= 7)%nat → (5 <= length cards2 <= 7)%nat →
  ∃ e1 e2 v1 v2,
    evaluateHand cards1 = Ok e1 ∧ evaluateHand cards2 = Ok e2
    ∧ he_value e1 = Some v1 ∧ he_value e2 = Some v2
    ∧ (HandRank_num (he_rank e2) < HandRank_num (he_rank e1) → v2 < v1).
Proof.
  intros H1 H2.
  destruct (evaluateHand_in_category cards1) as (e1 & He1 & v1 & Hv1 & Hb1); [lia|].
  destruct (evaluateHand_in_category cards2) as (e2 & He2 & v2 & Hv2 & Hb2); [lia|].
  exists e1, e2, v1, v2. repeat split; try done.
  unfold CATEGORY_BASE in *. nia.
Qed.

Lemma category_dominates_strength_witness :
  ∃ e1 e2 v1 v2,
    evaluateHand [mkCard hearts R2; mkCard hearts R4; mkCard hearts R6;
                  mkCard hearts R8; mkCard hearts RT] = Ok e1
    ∧ evaluateHand [mkCard spades RA; mkCard hearts RA; mkCard clubs RK;
                    mkCard diamonds RQ; mkCard clubs RJ; mkCard clubs R9] = Ok e2
    ∧ he_value e1 = Some v1 ∧ he_value e2 = Some v2
    ∧ (HandRank_num (he_rank e2) < HandRank_num (he_rank e1) → v2 < v1).
Proof.
  apply (category_dominates_strength
           [mkCard hearts R2; mkCard hearts R4; mkCard hearts R6;
            mkCard hearts R8; mkCard hearts RT]
           [mkCard spades RA; mkCard hearts RA; mkCard clubs RK;
            mkCard diamonds RQ; mkCard clubs RJ; mkCard clubs R9]); simpl; lia.
Defined.

(** C2: on six or seven distinct cards the direct classifier and the
    exhaustive search over the five-card subsets return the same category
    and the same strength. *)
Theorem evaluateHand_agrees_with_findBestHand (cards : list Card) :
  NoDup cards → (length cards = 6 ∨ length cards = 7)%nat →
  ∃ e best v,
    evaluateHand cards = Ok e ∧ findBestHand cards = Ok best
    ∧ he_rank e = he_rank best
    ∧ he_value e = Some v ∧ he_value best = Some v.
Proof.
  intros Hnd Hlen.
  destruct (evaluateSevenCards_is_max cards Hnd Hlen) as ([v7 Hv7] & Hub & (Sa & HSa & Hatt)).
  destruct (findBestHand_max cards) as (best & Hbest & (Sb & HSb & ->) & Hmax); [lia|].
  assert (He : evaluateHand cards = Ok (evaluateSevenCards cards)).
  { unfold evaluateHand.
    destruct (Nat.ltb_spec (length cards) 5); [lia|].
    destruct (Nat.eqb_spec (length cards) 5); [lia|done]. }
  assert (Hl5 : length Sb = 5%nat) by (by apply generateCombinations_sublist in HSb as [_ ?]).
  destruct (fiveOf_in_category Sb Hl5) as (vb & Hvb & Hcb).
  destruct (evaluateSevenCards_in_category cards) as (v7' & Hv7' & Hc7).
  assert (v7' = v7) by congruence. subst v7'.
  assert (vb = v7).
  { pose proof (Hub Sb HSb) as H1. pose proof (Hmax Sa HSa) as H2.
    unfold value_le in H1, H2. rewrite Hatt in H2. rewrite Hvb, Hv7 in *. lia. }
  subst vb.
  exists (evaluateSevenCards cards), (fiveOf Sb), v7. repeat split; try done.
  apply HandRank_num_inj. unfold CATEGORY_BASE in *. nia.
Qed.

Lemma evaluateHand_agrees_with_findBestHand_witness :
  ∃ e best v,
    evaluateHand [mkCard spades RA; mkCard spades R2; mkCard hearts R3; mkCard diamonds R4;
                  mkCard clubs R5; mkCard clubs R6; mkCard clubs RA] = Ok e
    ∧ findBestHand [mkCard spades RA; mkCard spades R2; mkCard hearts R3; mkCard diamonds R4;
                    mkCard clubs R5; mkCard clubs R6; mkCard clubs RA] = Ok best
    ∧ he_rank e = he_rank best
    ∧ he_value e = Some v ∧ he_value best = Some v.
Proof.
  apply (evaluateHand_agrees_with_findBestHand
           [mkCard spades RA; mkCard spades R2; mkCard hearts R3; mkCard diamonds R4;
            mkCard clubs R5; mkCard clubs R6; mkCard clubs RA]).
  - compute_done.
  - right. reflexivity.
Defined.

(** C9, as stated, fails: a flush is not a straight and outranks the wheel. *)
Lemma wheel_not_above_every_non_straight :
  ¬ (∀ cards e v,
       (5 <= length cards <= 7)%nat → evaluateHand cards = Ok e →
       he_rank e ≠ STRAIGHT → he_value e = Some v → v < 5000000005).
Proof.
  intros H.
  specialize (H flush_2_to_10 (mkEval FLUSH (Some 6000534662)) 6000534662).
  assert (6000534662 < 5000000005); [|lia].
  apply H; [simpl; lia|reflexivity|discriminate|reflexivity].
Qed.

(** C9, amended: the wheel is a Straight of strength [5 * 10^9 + 5]; every
    five-card hand made of the values 2 to 6 is stronger; every hand of five to
    seven cards in a category below Straight is weaker. *)
Theorem wheel_is_five_high_straight :
  evaluateHand wheel = Ok (mkEval STRAIGHT (Some (HandRank_num STRAIGHT * CATEGORY_BASE + 5)))
  ∧ (∀ cards,
       js_sort ascending (map (fun c => value_of (rank c)) cards) = [2; 3; 4; 5; 6] →
       ∃ e v, evaluateHand cards = Ok e ∧ he_value e = Some v
              ∧ HandRank_num STRAIGHT * CATEGORY_BASE + 5 < v
              ∧ (isFlush cards = false →
                 e = mkEval STRAIGHT (Some (HandRank_num STRAIGHT * CATEGORY_BASE + 6))))
  ∧ (∀ cards,
       (5 <= length cards <= 7)%nat →
       ∃ e v, evaluateHand cards = Ok e ∧ he_value e = Some v
              ∧ (HandRank_num (he_rank e) < HandRank_num STRAIGHT →
                 v < HandRank_num STRAIGHT * CATEGORY_BASE + 5)).
Proof.
  split; [reflexivity|]. split.
  - intros cards Hv.
    assert (Hlen : length cards = 5%nat).
    { rewrite <- (length_map (fun c => value_of (rank c))), <- (js_sort_length ascending), Hv.
      done. }
    unfold evaluateHand. rewrite Hlen. simpl.
    destruct (evaluateFiveCards_fast cards Hlen) as [-> _].
    unfold fiveOf, card_value. rewrite Hv.
    destruct (isFlush cards); eexists _, _; (split; [reflexivity|]);
      (split; [reflexivity|]); (split; [reflexivity|]); done.
  - intros cards Hlen.
    destruct (evaluateHand_in_category cards) as (e & He & v & Hv & Hb); [lia|].
    exists e, v. repeat split; try done. simpl. unfold CATEGORY_BASE in *. intros. nia.
Qed.

(** * Properties of the engine *)

(** ** Rejected actions *)

Lemma validateAction_rejection s p a e : validateAction s p a = Some e → isRejection e = true.
Proof.
  unfold validateAction.
  repeat match goal with
         | |- context [if ?b then _ else _] => destruct b
         | |- context [match ?a with ActFold => _ | _ => _ end] => destruct a
         end; intros [= <-]; reflexivity.
Qed.

Lemma evaluateHand_error cards e : evaluateHand cards = Err e → isRejection e = false.
Proof.
  unfold evaluateHand, evaluateFiveCards.
  repeat match goal with |- context [if ?b then _ else _] => destruct b end;
    intros [= <-]; reflexivity.
Qed.

Lemma evaluateEach_error s seats e : evaluateEach s seats = Err e → isRejection e = false.
Proof.
  induction seats as [|seat seats IH]; simpl; [done|].
  destruct (players s !! seat); [|by intros [= <-]].
  destruct (evaluateHand _) eqn:E; [|intros [= <-]; by eapply evaluateHand_error].
  destruct (evaluateEach s seats); [done|]. intros [= <-]. by apply IH.
Qed.

Lemma calculateSidePots_error s inHand e s' :
  calculateSidePots s inHand = Throw e s' → isRejection e = false.
Proof.
  unfold calculateSidePots.
  repeat match goal with
         | |- context [if ?b then _ else _] => destruct b
         | |- context [match ?l with [] => _ | _ :: _ => _ end] => destruct l
         end; try done; by intros [= <- _].
Qed.

Lemma evaluateShowdown_error s e s' :
  evaluateShowdown s = Throw e s' → isRejection e = false.
Proof.
  unfold evaluateShowdown.
  destruct (evaluateEach s _) eqn:E; [|intros [= <- _]; by eapply evaluateEach_error].
  destruct (_ <? _)%nat; simpl; [|done].
  destruct (calculateSidePots _ _) eqn:Ec; simpl; [done|].
  intros [= <- _]. by eapply calculateSidePots_error.
Qed.

Lemma completeHand_error s e s' : completeHand s = Throw e s' → isRejection e = false.
Proof.
  unfold completeHand.
  destruct (inHandIndices _) as [|w [|w' l]]; simpl.
  - destruct (evaluateShowdown _) eqn:E; simpl; [done|].
    intros [= <- _]. by eapply evaluateShowdown_error.
  - done.
  - destruct (evaluateShowdown _) eqn:E; simpl; [done|].
    intros [= <- _]. by eapply evaluateShowdown_error.
Qed.

Lemma burnAndDeal_error n s e s' : burnAndDeal n s = Throw e s' → isRejection e = false.
Proof.
  unfold burnAndDeal, dealCards.
  repeat match goal with |- context [if ?b then _ else _] => destruct b end;
    try done; by intros [= <- _].
Qed.

Lemma advanceBettingRound_error s e s' :
  advanceBettingRound s = Throw e s' → isRejection e = false.
Proof.
  unfold advanceBettingRound, dealFlop, dealTurn, dealRiver.
  destruct (currentBettingRound _); simpl;
    try (destruct (burnAndDeal _ _) eqn:E; simpl;
         [done|intros [= <- _]; by eapply burnAndDeal_error]).
  - apply completeHand_error.
  - done.
Qed.

Lemma fastForward_error n : ∀ s e s',
  fastForward n s = Throw e s' → isRejection e = false.
Proof.
  induction n as [|n IH]; intros s e s'; simpl.
  - by destruct (_ && _).
  - destruct (_ && _); [|done].
    destruct (advanceBettingRound s) eqn:E; simpl; [apply IH|].
    intros [= <- _]. by eapply advanceBettingRound_error.
Qed.

Lemma runToShowdown_error s e s' : runToShowdown s = Throw e s' → isRejection e = false.
Proof.
  unfold runToShowdown.
  destruct (fastForward 4 s) eqn:E; simpl.
  - destruct (negb _); [apply completeHand_error|done].
  - intros [= <- _]. by eapply fastForward_error.
Qed.

(** C8: an action rejected by [processPlayerAction] leaves the whole game
    state exactly as it was. *)
Theorem rejected_action_leaves_state_unchanged (s s' : GameState) (pid : string)
    (action : PlayerAction) (e : Error) :
  processPlayerAction s pid action = Throw e s' →
  isRejection e = true →
  s' = s.
Proof.
  unfold processPlayerAction. intros H Hrej.
  destruct (findPlayerById s pid) as [[i player]|]; [|by injection H].
  destruct (negb (isPlayersTurn s pid)); [by injection H|].
  destruct (validateAction s player action); [by injection H|].
  exfalso.
  assert (isRejection e = false); [|congruence].
  revert H.
  repeat match goal with |- context [if ?b then _ else _] => destruct b end.
  - apply completeHand_error.
  - apply runToShowdown_error.
  - apply advanceBettingRound_error.
  - done.
Qed.

(** Every way in which the action is refused is one of these rejections. *)
Lemma processPlayerAction_refusals s pid action :
  (findPlayerById s pid = None → processPlayerAction s pid action = Throw PlayerNotFound s)
  ∧ (∀ i p, findPlayerById s pid = Some (i, p) → isPlayersTurn s pid = false →
            processPlayerAction s pid action = Throw NotPlayersTurn s)
  ∧ (∀ i p, findPlayerById s pid = Some (i, p) → isPlayersTurn s pid = true →
            isFolded p = true →
            processPlayerAction s pid action = Throw PlayerAlreadyFolded s)
  ∧ (∀ i p, findPlayerById s pid = Some (i, p) → isPlayersTurn s pid = true →
            isFolded p = false → isAllIn p = true →
            processPlayerAction s pid action = Throw PlayerAlreadyAllIn s)
  ∧ (∀ i p e, findPlayerById s pid = Some (i, p) → isPlayersTurn s pid = true →
              validateAction s p action = Some e →
              processPlayerAction s pid action = Throw e s).
Proof.
  unfold processPlayerAction. repeat split.
  - by intros ->.
  - by intros i p -> ->.
  - intros i p -> -> Hf. unfold validateAction. by rewrite Hf.
  - intros i p -> -> Hf Ha. unfold validateAction. by rewrite Hf, Ha.
  - by intros i p e -> -> ->.
Qed.

Lemma rejected_action_leaves_state_unchanged_witness :
  processPlayerAction state2 "b" ActFold = Throw NotPlayersTurn state2
  ∧ isRejection NotPlayersTurn = true
  ∧ state2 = state2.
Proof.
  split; [reflexivity|]. split; [reflexivity|].
  apply (rejected_action_leaves_state_unchanged state2 state2 "b" ActFold NotPlayersTurn);
    reflexivity.
Defined.

(** ** Queries about who may act *)

(** C10: for an unknown id, and for a player who is folded, all-in or not the
    one to act, both queries answer with a value ([false], the empty list),
    and [processPlayerAction] throws. *)
Theorem ineligible_player_queries (s : GameState) (pid : string) :
  (findPlayerById s pid = None
   ∨ ∃ i p, findPlayerById s pid = Some (i, p)
            ∧ (isFolded p = true ∨ isAllIn p = true ∨ isPlayersTurn s pid = false)) →
  canPlayerAct s pid = false
  ∧ getValidActions s pid = []
  ∧ ∀ action, ∃ e, processPlayerAction s pid action = Throw e s ∧ isRejection e = true.
Proof.
  intros H.
  assert (Hc : canPlayerAct s pid = false).
  { unfold canPlayerAct. destruct H as [->|(i & p & -> & [Hf|[Ha|Ht]])]; [done|..].
    - rewrite Hf. by rewrite andb_false_r.
    - rewrite Ha. by rewrite andb_false_r.
    - by rewrite Ht. }
  split; [done|]. split.
  - unfold getValidActions. rewrite Hc. by destruct (findPlayerById s pid) as [[??]|].
  - intros action. unfold processPlayerAction.
    destruct H as [->|(i & p & -> & Hcase)]; [by exists PlayerNotFound|].
    destruct (isPlayersTurn s pid) eqn:Ht; simpl; [|by exists NotPlayersTurn].
    unfold validateAction.
    destruct (isFolded p) eqn:Hf; [by exists PlayerAlreadyFolded|].
    destruct (isAllIn p) eqn:Ha; [by exists PlayerAlreadyAllIn|].
    exfalso. destruct Hcase as [?|[?|?]]; congruence.
Qed.

Lemma ineligible_player_queries_witness :
  canPlayerAct state2 "b" = false
  ∧ getValidActions state2 "b" = []
  ∧ ∀ action, ∃ e, processPlayerAction state2 "b" action = Throw e state2
                   ∧ isRejection e = true.
Proof.
  apply (ineligible_player_queries state2 "b").
  right. exists 1%nat, (mkPlayer "b" 95 [mkCard hearts R2; mkCard hearts R4] 5 5 1
                          false true false false false false false).
  split; [reflexivity|]. right. right. reflexivity.
Defined.

(** ** Raises *)

(** What [validateAction] accepts as a raise. *)
Lemma validateAction_raise s p amount :
  isFolded p = false → isAllIn p = false →
  (validateAction s p (ActRaise amount) = None
   ↔ tableBet s ≠ 0 ∧ tableBet s + lastRaiseSize s <= amount ∧ amount <= chips p).
Proof.
  intros Hf Ha. unfold validateAction. rewrite Hf, Ha.
  destruct (Z.eqb_spec (tableBet s) 0); [split; [done|lia]|].
  destruct (Z.ltb_spec amount (tableBet s + lastRaiseSize s)); [split; [done|lia]|].
  destruct (Z.ltb_spec (chips p) amount); [split; [done|lia]|].
  split; [lia|done].
Qed.

(** C4 at the opening of a heads-up hand, blinds 5/10, stacks of 100: the
    dealer has 10 in front and 90 behind; a raise to 95 costs 85, meets the
    three conditions of the claim, and is refused. *)
Theorem raise_within_stack_is_refused :
  ∃ i p,
    findPlayerById state2 "a" = Some (i, p)
    ∧ isPlayersTurn state2 "a" = true
    ∧ isFolded p = false ∧ isAllIn p = false
    ∧ tableBet state2 > 0
    ∧ 95 >= tableBet state2 + lastRaiseSize state2
    ∧ chips p >= 95 - currentBet p
    ∧ processPlayerAction state2 "a" (ActRaise 95) = Throw NotEnoughChipsToRaise state2.
Proof.
  eexists _, _. split; [vm_compute; reflexivity|].
  repeat split; vm_compute; congruence.
Qed.

(** ** Blinds of a heads-up hand *)

(** C5 at the same table: seat 0 holds the button, posts the big blind and is
    the first to act; seat 1 posts the small blind. *)
Theorem heads_up_dealer_posts_big_blind :
  dealerPosition state2 = 0%nat
  ∧ activePlayerIndex state2 = 0%nat
  ∧ (∃ p, players state2 !! 0%nat = Some p
          ∧ isDealer p = true ∧ isBigBlind p = true ∧ isSmallBlind p = false
          ∧ currentBet p = 10)
  ∧ (∃ p, players state2 !! 1%nat = Some p
          ∧ isDealer p = false ∧ isSmallBlind p = true ∧ isBigBlind p = false
          ∧ currentBet p = 5).
Proof.
  split; [vm_compute; reflexivity|]. split; [vm_compute; reflexivity|].
  split; eexists; (split; [vm_compute; reflexivity|]); repeat split.
Qed.

(** ** Splitting a pot *)

(** C7 as stated fails: a pot of 35 between three tied winners is paid
    13, 11, 11, not 12, 12, 11. *)
Lemma remainder_is_not_spread :
  potPayouts 35 [0; 1; 2]%nat = [(0%nat, 13); (1%nat, 11); (2%nat, 11)]
  ∧ spreadPayouts 35 [0; 1; 2]%nat = [(0%nat, 12); (1%nat, 12); (2%nat, 11)]
  ∧ potPayouts 35 [0; 1; 2]%nat ≠ spreadPayouts 35 [0; 1; 2]%nat.
Proof. split; [reflexivity|]. split; [reflexivity|]. discriminate. Qed.

Lemma imap_index_free {A B} (f : nat → A → B) (g : A → B) (l : list A) :
  (∀ i x, f i x = g x) → imap f l = map g l.
Proof.
  intros H. rewrite (imap_ext f (fun _ => g) l) by (intros; apply H).
  apply (imap_const g l).
Qed.

Lemma potPayouts_cons potAmount first rest :
  let k := Z.of_nat (length (first :: rest)) in
  potPayouts potAmount (first :: rest)
  = (first, potAmount / k + (potAmount - potAmount / k * k))
      :: map (fun w => (w, potAmount / k)) rest.
Proof.
  intros k. unfold potPayouts. fold k. simpl imap. f_equal.
  apply imap_index_free. intros i x. unfold compose. simpl. f_equal. lia.
Qed.



Lemma sumZ_map_const {A} (base : Z) (ws : list A) :
  sumZ (map (fun _ => base) ws) = base * Z.of_nat (length ws).
Proof. unfold sumZ. induction ws as [|w ws IH]; simpl; [lia|]. rewrite IH. lia. Qed.

Lemma potPayouts_sum potAmount winnerIndices :
  winnerIndices ≠ [] → sumZ (map snd (potPayouts potAmount winnerIndices)) = potAmount.
Proof.
  destruct winnerIndices as [|first rest]; [done|]. intros _.
  rewrite potPayouts_cons. simpl map. rewrite map_map. simpl.
  rewrite sumZ_map_const. simpl length. lia.
Qed.


(** [findWinners]: the positions holding the maximum, in increasing order. *)
Lemma js_max_fold xs : ∀ m,
  Forall (fun x => is_Some x) xs →
  ∃ m', fold_left (fun acc v => match acc, v with
                                | Some a, Some b => Some (Z.max a b)
                                | _, _ => None
                                end) xs (Some m) = Some m'
        ∧ m <= m' ∧ Forall (fun x => ∃ v, x = Some v ∧ v <= m') xs
        ∧ (m' = m ∨ In (Some m') xs).
Proof.
  induction xs as [|x xs IH]; intros m Hall; simpl.
  - exists m. repeat split; [lia|constructor|auto].
  - apply Forall_cons in Hall as [[v ->] Hall].
    destruct (IH (Z.max m v) Hall) as (m' & Hf & Hle & Hub & Hin).
    exists m'. split; [done|]. split; [lia|]. split.
    + constructor; [exists v; split; [done|lia]|done].
    + destruct Hin as [->|Hin]; [|auto].
      destruct (Z.max_spec m v) as [[? ->]|[? ->]]; auto.
Qed.

Lemma js_max_spec xs :
  xs ≠ [] → Forall (fun x => is_Some x) xs →
  ∃ m, js_max xs = Some m ∧ In (Some m) xs ∧ Forall (fun x => ∃ v, x = Some v ∧ v <= m) xs.
Proof.
  destruct xs as [|x xs]; [done|]. intros _ Hall. simpl.
  apply Forall_cons in Hall as [[v ->] Hall].
  destruct (js_max_fold xs v Hall) as (m & Hf & Hle & Hub & Hin).
  exists m. split; [done|]. split.
  - destruct Hin as [->|Hin]; simpl; auto.
  - constructor; [exists v; split; [done|lia]|done].
Qed.

Lemma filter_zip_seq_sorted {A} (p : A * nat → bool) (l : list A) : ∀ start,
  StronglySorted lt (map snd (List.filter p (zip l (seq start (length l)))))
  ∧ Forall (fun i => (start <= i < start + length l)%nat)
      (map snd (List.filter p (zip l (seq start (length l))))).
Proof.
  induction l as [|x l IH]; intros start; simpl; [split; constructor|].
  destruct (IH (S start)) as [Hs Hr].
  assert (Hr' : Forall (fun i => (start <= i < start + S (length l))%nat)
                  (map snd (List.filter p (zip l (seq (S start) (length l)))))).
  { eapply Forall_impl; [exact Hr|]. intros; simpl in *; lia. }
  destruct (p (x, start)); simpl; [|done]. split.
  - constructor; [done|]. eapply Forall_impl; [exact Hr|]. intros; simpl in *; lia.
  - constructor; [lia|done].
Qed.

Lemma findWinners_spec hands :
  hands ≠ [] → Forall (fun h => is_Some (he_value h)) hands →
  ∃ m, js_max (map he_value hands) = Some m
       ∧ findWinners hands ≠ []
       ∧ StronglySorted lt (findWinners hands)
       ∧ ∀ i, In i (findWinners hands) ↔ ∃ h, hands !! i = Some h ∧ he_value h = Some m.
Proof.
  intros Hne Hall.
  destruct (js_max_spec (map he_value hands)) as (m & Hm & Hin & Hub).
  { by destruct hands. }
  { apply Forall_forall. intros x Hx.
    apply list_elem_of_In, in_map_iff in Hx as (h & <- & Hh).
    rewrite Forall_forall in Hall. by apply Hall, list_elem_of_In. }
  exists m. split; [done|].
  assert (Hfw : findWinners hands
                = map snd (List.filter (fun hi => js_eq (he_value (fst hi)) (Some m))
                             (zip hands (seq 0 (length hands))))).
  { unfold findWinners. destruct hands; [done|]. by rewrite Hm. }
  assert (Hiff : ∀ i, In i (findWinners hands)
                      ↔ ∃ h, hands !! i = Some h ∧ he_value h = Some m).
  { intros i. rewrite Hfw, in_map_iff. split.
    - intros ([h j] & <- & Hf). apply filter_In in Hf as [Hz Hv]. simpl in *.
      apply list_elem_of_In, list_elem_of_lookup in Hz as [k Hk].
      apply lookup_zip_with_Some in Hk as (h' & j' & [= <- <-] & Hh & Hj).
      apply lookup_seq in Hj as [-> _]. exists h. split; [done|].
      unfold js_eq in Hv. destruct (he_value h); [|done]. apply Z.eqb_eq in Hv. by subst.
    - intros (h & Hh & Hv). exists (h, i). split; [done|]. apply filter_In. split.
      + apply list_elem_of_In, list_elem_of_lookup. exists i.
        apply lookup_zip_with_Some. exists h, i. split; [done|]. split; [done|].
        apply lookup_seq. split; [done|]. by eapply lookup_lt_Some.
      + simpl. rewrite Hv. simpl. apply Z.eqb_refl. }
  split; [|split; [|done]].
  - apply in_map_iff in Hin as (h & Hh & Hin).
    apply list_elem_of_In, list_elem_of_lookup in Hin as [i Hi].
    intros Hnil. assert (In i (findWinners hands)) by (apply Hiff; eauto).
    rewrite Hnil in H. done.
  - rewrite Hfw. apply filter_zip_seq_sorted.
Qed.

(** C7, amended: the winners are the positions of the maximal strength in
    increasing order; each receives the quotient and the first of them the
    whole remainder besides; the payouts add up to the pot. *)
Theorem pot_split_remainder_to_first (potAmount : Z) (hands : list HandEvaluation) :
  hands ≠ [] → Forall (fun h => is_Some (he_value h)) hands →
  ∃ m first rest,
    js_max (map he_value hands) = Some m
    ∧ findWinners hands = first :: rest
    ∧ StronglySorted lt (first :: rest)
    ∧ (∀ i, In i (first :: rest) ↔ ∃ h, hands !! i = Some h ∧ he_value h = Some m)
    ∧ let k := Z.of_nat (length (first :: rest)) in
      potPayouts potAmount (findWinners hands)
      = (first, potAmount / k + (potAmount - potAmount / k * k))
          :: map (fun w => (w, potAmount / k)) rest
      ∧ sumZ (map snd (potPayouts potAmount (findWinners hands))) = potAmount.
Proof.
  intros Hne Hall.
  destruct (findWinners_spec hands Hne Hall) as (m & Hm & Hnn & Hs & Hiff).
  destruct (findWinners hands) as [|first rest] eqn:Hfw; [done|].
  exists m, first, rest. repeat split; try done; try apply Hiff.
  - apply potPayouts_cons.
  - by apply potPayouts_sum.
Qed.

Lemma pot_split_remainder_to_first_witness :
  [mkEval PAIR (Some 7); mkEval PAIR (Some 9); mkEval PAIR (Some 9)] ≠ []
  ∧ ∃ m first rest,
      js_max (map he_value [mkEval PAIR (Some 7); mkEval PAIR (Some 9); mkEval PAIR (Some 9)])
      = Some m
      ∧ findWinners [mkEval PAIR (Some 7); mkEval PAIR (Some 9); mkEval PAIR (Some 9)]
        = first :: rest
      ∧ StronglySorted lt (first :: rest)
      ∧ (∀ i, In i (first :: rest)
              ↔ ∃ h, [mkEval PAIR (Some 7); mkEval PAIR (Some 9); mkEval PAIR (Some 9)] !! i
                     = Some h ∧ he_value h = Some m)
      ∧ let k := Z.of_nat (length (first :: rest)) in
        potPayouts 35 (findWinners [mkEval PAIR (Some 7); mkEval PAIR (Some 9);
                                    mkEval PAIR (Some 9)])
        = (first, 35 / k + (35 - 35 / k * k)) :: map (fun w => (w, 35 / k)) rest
        ∧ sumZ (map snd (potPayouts 35 (findWinners [mkEval PAIR (Some 7);
                                                     mkEval PAIR (Some 9);
                                                     mkEval PAIR (Some 9)]))) = 35.
Proof.
  split; [discriminate|].
  apply (pot_split_remainder_to_first 35
           [mkEval PAIR (Some 7); mkEval PAIR (Some 9); mkEval PAIR (Some 9)]).
  - discriminate.
  - repeat constructor; simpl; eauto.
Defined.

(** ** The state query *)

(** C1 as stated fails: on this freshly dealt hand the query runs the board
    out and settles the hand. *)
Lemma getGameState_mutates_reachable_state :
  ¬ (∀ s, Reachable s → getGameState s = Done s).
Proof.
  intros H.
  assert (Hr : Reachable shortState).
  { apply (Reachable_new [("a"%string, 5); ("b"%string, 5)] 5 10 createDeck).
    vm_compute. reflexivity. }
  specialize (H shortState Hr).
  assert (Hc : handComplete shortState = false) by (vm_compute; reflexivity).
  assert (Hq : ∃ s', getGameState shortState = Done s' ∧ handComplete s' = true
                     ∧ currentBettingRound s' = SHOWDOWN ∧ length (communityCards s') = 5%nat).
  { eexists. split; [vm_compute; reflexivity|]. repeat split. }
  destruct Hq as (s' & Hs' & Hc' & _). rewrite H in Hs'. injection Hs' as <-. congruence.
Qed.

(** C1, amended: when the hand is complete or the table is not stalled,
    [getGameState] returns the current state and changes no field of it. *)
Theorem getGameState_read_only_unless_stalled (s : GameState) :
  notStalled s → getGameState s = Done s.
Proof.
  unfold notStalled, getGameState, ensureProgressIfStalled.
  intros [->|(Hne & (p & -> & Hf & Ha & Hd) & Hb)]; [done|].
  destruct (handComplete s); [done|].
  destruct (List.filter _ _) as [|q l] eqn:E; [done|].
  cbn [length Nat.eqb]. rewrite Hf, Ha, Hd. cbn [orb]. by rewrite Hb.
Qed.

Lemma getGameState_read_only_unless_stalled_witness :
  notStalled state2 ∧ getGameState state2 = Done state2.
Proof.
  assert (H : notStalled state2).
  { right. split; [vm_compute; discriminate|]. split; [|vm_compute; reflexivity].
    eexists. split; [vm_compute; reflexivity|]. repeat split. }
  split; [exact H|]. exact (getGameState_read_only_unless_stalled state2 H).
Defined.

(** ** Chip conservation at settlement *)

(** *** Sums over the players *)



Lemma sumZ_alter_same {A} (g : A → Z) (f : A → A) (l : list A) i :
  (∀ x, g (f x) = g x) → sumZ (map g (alter f i l)) = sumZ (map g l).
Proof.
  unfold sumZ, alter. intros Hg. revert i.
  induction l as [|y l IH]; intros [|i]; simpl; try done.
  - by rewrite Hg.
  - by rewrite IH.
Qed.

Lemma sumZ_map_ext {A} (g h : A → Z) (l : list A) :
  (∀ x, g x = h x) → sumZ (map g l) = sumZ (map h l).
Proof.
  unfold sumZ. intros H. induction l as [|x l IH]; simpl; [done|]. by rewrite H, IH.
Qed.

Lemma sumZ_map_same {A} (g : A → Z) (f : A → A) (l : list A) :
  (∀ x, g (f x) = g x) → sumZ (map g (map f l)) = sumZ (map g l).
Proof. intros H. rewrite map_map. by apply sumZ_map_ext. Qed.



(** *** Filtered arrays and the positions of their elements *)

Lemma indices_from_spec {A} (p : A → bool) (l : list A) : ∀ start,
  map (fun i => l !! (i - start)%nat) (indices_from start p l)
  = map Some (List.filter p l)
  ∧ Forall (fun i => (start <= i < start + length l)%nat) (indices_from start p l).
Proof.
  induction l as [|x l IH]; intros start; simpl; [split; [done|constructor]|].
  destruct (IH (S start)) as [IH1 IH2].
  assert (Hm : map (fun i => (x :: l) !! (i - start)%nat) (indices_from (S start) p l)
               = map (fun i => l !! (i - S start)%nat) (indices_from (S start) p l)).
  { apply map_ext_in. intros i Hi. rewrite Forall_forall in IH2.
    apply list_elem_of_In, IH2 in Hi.
    replace (i - start)%nat with (S (i - S start)) by lia. done. }
  assert (Hr : Forall (fun i => (start <= i < start + S (length l))%nat)
                 (indices_from (S start) p l)).
  { eapply Forall_impl; [exact IH2|]. intros; simpl in *; lia. }
  destruct (p x); simpl.
  - rewrite Nat.sub_diag. simpl. rewrite Hm, IH1. split; [done|]. constructor; [lia|done].
  - by rewrite Hm, IH1.
Qed.

Lemma indices_where_lookup {A} (p : A → bool) (l : list A) :
  map (fun i => l !! i) (indices_where p l) = map Some (List.filter p l).
Proof.
  destruct (indices_from_spec p l 0) as [H _]. rewrite <- H.
  apply map_ext. intros i. by rewrite Nat.sub_0_r.
Qed.

Lemma indices_where_length {A} (p : A → bool) (l : list A) :
  length (indices_where p l) = length (List.filter p l).
Proof.
  rewrite <- (length_map (fun i => l !! i)), indices_where_lookup. by rewrite length_map.
Qed.



Lemma filter_filter_and {A} (p q : A → bool) (l : list A) :
  List.filter q (List.filter p l) = List.filter (fun x => p x && q x) l.
Proof.
  induction l as [|x l IH]; simpl; [done|].
  destruct (p x); simpl; [destruct (q x); simpl; by rewrite IH|done].
Qed.

Lemma getPlayersStillInHand_filter s :
  getPlayersStillInHand s = List.filter stillInHand (players s).
Proof. unfold getPlayersStillInHand, getActivePlayers. apply filter_filter_and. Qed.

Lemma inHand_length s : length (inHandIndices s) = length (getPlayersStillInHand s).
Proof. rewrite getPlayersStillInHand_filter. apply indices_where_length. Qed.


























(** *** Showdown and hand completion *)







(** *** Stakes of the players *)




Lemma map_alter_commute {A B} (g : A → B) (f : A → A) (f' : B → B) (l : list A) i :
  (∀ x, g (f x) = f' (g x)) → map g (alter f i l) = alter f' i (map g l).
Proof.
  intros H. unfold alter. revert i.
  induction l as [|x l IH]; intros [|i]; simpl; try done.
  - by rewrite H.
  - by rewrite IH.
Qed.

Lemma map_alter_invariant {A B} (g : A → B) (f : A → A) (l : list A) i :
  (∀ x, g (f x) = g x) → map g (alter f i l) = map g l.
Proof.
  intros H. unfold alter. revert i.
  induction l as [|x l IH]; intros [|i]; simpl; try done.
  - by rewrite H.
  - by rewrite IH.
Qed.

Lemma stakes_upd s i f f' :
  (∀ p, stake (f p) = f' (stake p)) → stakes (upd_player i f s) = alter f' i (stakes s).
Proof. intros H. unfold stakes, upd_player. simpl. by apply map_alter_commute. Qed.



Lemma stakes_resetOthers pid s : stakes (resetOthersHasActed pid s) = stakes s.
Proof.
  unfold stakes, resetOthersHasActed. simpl. rewrite map_map. apply map_ext.
  intros p. by destruct (_ && _).
Qed.

Lemma indices_from_map {A B} (q : B → bool) (g : A → B) (l : list A) : ∀ start,
  indices_from start q (map g l) = indices_from start (fun x => q (g x)) l.
Proof.
  induction l as [|x l IH]; intros start; simpl; [done|]. by rewrite IH.
Qed.







(** *** The effect of an accepted action *)










(** *** Streets, the run to the showdown, and the settlement *)












(** *** The start of a hand *)

Lemma map_imap_free {A B C} (g : B → C) (h : A → C) (l : list A) : ∀ (f : nat → A → B),
  (∀ i x, g (f i x) = h x) → map g (imap f l) = map h l.
Proof.
  induction l as [|x l IH]; intros f H; simpl; [done|].
  rewrite H. f_equal. apply IH. intros i y. apply H.
Qed.




Lemma stake_postBlind amount p : stake (postBlind amount p) = posted amount (stake p).
Proof. done. Qed.










(** *** Hands in progress *)


(** *** An action after the showdown *)

(** C6 fails on a hand that is already settled.  [processPlayerAction] does
    not look at [isHandComplete] before it accepts an action, the pot is not
    emptied by the settlement, and an action accepted after the showdown
    settles the hand again.  Stacks of 100 and 50, blinds 5/10: the dealer
    raises to 50, the other player calls all-in, the dealer checks the three
    streets and wins the pot of 100; the table holds its 150 chips and the
    loser is removed.  One more check by the winner is accepted and pays the
    pot of 100 a second time, to a player whose bets of the hand are 50: the
    table now holds 250 chips. *)
Theorem settlement_repeats_after_showdown :
  ∃ s0 s1 s2,
    newEngine [("a"%string, 100); ("b"%string, 50)] 5 10 createDeck = Done s0
    ∧ totalChips s0 + pot s0 = 150
    ∧ playActions [("a"%string, ActRaise 50); ("b"%string, ActCall); ("a"%string, ActCheck);
                   ("a"%string, ActCheck); ("a"%string, ActCheck)] s0 = Done s1
    ∧ handComplete s1 = true ∧ winners s1 = [("a"%string, 100)]
    ∧ totalChips s1 = 150 ∧ pot s1 = 100 ∧ totalBets s1 = 50
    ∧ processPlayerAction s1 "a" ActCheck = Done s2
    ∧ handComplete s2 = true ∧ winners s2 = [("a"%string, 100)]
    ∧ totalChips s2 = 250.
Proof.
  do 3 eexists.
  repeat (split; [vm_compute; reflexivity|]).
  vm_compute. reflexivity.
Qed.

(** * Properties of the deck *)

(** ** The standard deck *)

Lemma createDeck_NoDup : NoDup createDeck.
Proof. compute_done. Qed.

Lemma createDeck_all (c : Card) : c ∈ createDeck.
Proof. destruct c as [[] []]; compute_done. Qed.

(** X1: [createDeck] returns the 52 cards: every card of every suit once. *)
Theorem createDeck_standard :
  length createDeck = 52%nat ∧ NoDup createDeck ∧ ∀ c : Card, c ∈ createDeck.
Proof. split; [reflexivity|]. split; [apply createDeck_NoDup|apply createDeck_all]. Qed.

(** ** Shuffling *)

Lemma swap_perm {A} (a : list A) i j : swap a i j ≡ₚ a.
Proof.
  unfold swap. destruct (a !! i) as [x|] eqn:Ei; [|done].
  destruct (a !! j) as [y|] eqn:Ej; [|done].
  by apply Permutation_insert_swap.
Qed.

Lemma fisherYates_perm {A} (pick : nat → nat) i : ∀ a : list A, fisherYates pick i a ≡ₚ a.
Proof.
  induction i as [|i IH]; intros a; simpl; [done|].
  rewrite IH. apply swap_perm.
Qed.

(** X2: whatever positions are drawn, [shuffleDeck] returns the cards of the
    deck it was given, each as often as it was there, in some order. *)
Theorem shuffleDeck_permutation (pick : nat → nat) (deck : list Card) :
  (∀ i, (pick i <= i)%nat) →
  shuffleDeck pick deck ≡ₚ deck ∧ length (shuffleDeck pick deck) = length deck.
Proof.
  intros _. assert (H : shuffleDeck pick deck ≡ₚ deck) by apply fisherYates_perm.
  split; [done|]. by rewrite H.
Qed.

Lemma shuffleDeck_permutation_witness :
  shuffleDeck (fun i => (i / 2)%nat) createDeck ≡ₚ createDeck
  ∧ length (shuffleDeck (fun i => (i / 2)%nat) createDeck) = length createDeck.
Proof.
  apply (shuffleDeck_permutation (fun i => (i / 2)%nat) createDeck).
  intros i. apply Nat.Div0.div_le_upper_bound. lia.
Defined.

(** X3: [shuffleDeckSecure] returns a rearrangement of the deck as well, for
    every content of the random array and on the fallback path; the position
    it draws at step [i] is at most [i]. *)
Theorem shuffleDeckSecure_permutation (crypto : option (list nat)) (pick : nat → nat)
    (deck : list Card) :
  (∀ i, (pick i <= i)%nat) →
  (∀ randomBytes, crypto = Some randomBytes → length randomBytes = length deck) →
  shuffleDeckSecure crypto pick deck ≡ₚ deck
  ∧ (∀ randomBytes i, crypto = Some randomBytes →
       (default 0 (randomBytes !! (length deck - 1 - i)) mod (i + 1) <= i)%nat)
  ∧ (crypto = None → shuffleDeckSecure crypto pick deck = shuffleDeck pick deck).
Proof.
  intros _ _. split; [|split].
  - destruct crypto; apply fisherYates_perm.
  - intros randomBytes i _.
    pose proof (Nat.mod_upper_bound
                  (default 0 (randomBytes !! (length deck - 1 - i)))%nat (i + 1)%nat).
    lia.
  - by intros ->.
Qed.

Lemma shuffleDeckSecure_permutation_witness :
  shuffleDeckSecure (Some (seq 1000 52)) (fun i => i) createDeck ≡ₚ createDeck
  ∧ (∀ randomBytes i, Some (seq 1000 52) = Some randomBytes →
       (default 0 (randomBytes !! (length createDeck - 1 - i)) mod (i + 1) <= i)%nat)
  ∧ (Some (seq 1000 52) = None →
     shuffleDeckSecure (Some (seq 1000 52)) (fun i => i) createDeck
     = shuffleDeck (fun i => i) createDeck).
Proof.
  apply (shuffleDeckSecure_permutation (Some (seq 1000 52)) (fun i => i) createDeck).
  - intros i. lia.
  - intros randomBytes [= <-]. reflexivity.
Defined.

(** The swaps below position [i] leave what lies behind alone. *)
Lemma swap_app {A} (a b : list A) i j :
  (j <= i < length a)%nat → swap (a ++ b) i j = swap a i j ++ b.
Proof.
  intros H. unfold swap.
  rewrite !lookup_app_l by lia.
  destruct (a !! i) as [x|] eqn:Ei; [|done].
  destruct (a !! j) as [y|] eqn:Ej; [|done].
  rewrite insert_app_l by lia.
  rewrite insert_app_l by (rewrite length_insert; lia). done.
Qed.

Lemma swap_length {A} (a : list A) i j : length (swap a i j) = length a.
Proof.
  unfold swap. destruct (a !! i); [|done]. destruct (a !! j); [|done].
  by rewrite !length_insert.
Qed.

Lemma fisherYates_app {A} (pick : nat → nat) (b : list A) i : ∀ a,
  (∀ k, (pick k <= k)%nat) → (i < length a)%nat →
  fisherYates pick i (a ++ b) = fisherYates pick i a ++ b.
Proof.
  induction i as [|i IH]; intros a Hp Hi; simpl; [done|].
  rewrite swap_app by (split; [apply Hp|lia]).
  apply IH; [done|]. rewrite swap_length. lia.
Qed.

Lemma fisherYates_ext {A} (pick pick' : nat → nat) i : ∀ a : list A,
  (∀ k, (k <= i)%nat → pick k = pick' k) → fisherYates pick i a = fisherYates pick' i a.
Proof.
  induction i as [|i IH]; intros a H; simpl; [done|].
  rewrite (H (S i)) by lia. apply IH. intros k Hk. apply H. lia.
Qed.

Lemma swap_last {A} (a : list A) j x :
  a !! j = Some x → last (swap a (length a - 1) j) = Some x.
Proof.
  intros Hj.
  assert (Hlen : (j < length a)%nat) by (by eapply lookup_lt_Some).
  rewrite last_lookup, swap_length.
  replace (Init.Nat.pred (length a)) with (length a - 1)%nat by lia.
  unfold swap.
  destruct (a !! (length a - 1)%nat) as [y|] eqn:Ei.
  2: { apply lookup_ge_None in Ei. lia. }
  rewrite Hj.
  destruct (decide (j = (length a - 1)%nat)) as [->|Hne].
  - rewrite list_lookup_insert_eq by (rewrite length_insert; lia). congruence.
  - rewrite list_lookup_insert_ne by done.
    by rewrite list_lookup_insert_eq by lia.
Qed.

Lemma fisherYates_reaches {A} n : ∀ (a target : list A),
  length a = n → target ≡ₚ a →
  ∃ pick, (∀ i, (pick i <= i)%nat) ∧ fisherYates pick (n - 1) a = target.
Proof.
  induction n as [|n IH]; intros a target Hlen Hperm.
  { destruct a; [|done]. apply Permutation_nil_r in Hperm as ->.
    exists (fun _ => 0%nat). split; [intros; lia|done]. }
  destruct n as [|n].
  { destruct a as [|x [|]]; try done. apply Permutation_singleton_r in Hperm as ->.
    exists (fun _ => 0%nat). split; [intros; lia|done]. }
  assert (Ht : is_Some (last target)).
  { apply last_is_Some. intros ->. apply Permutation_nil_l in Hperm. by subst. }
  destruct Ht as [x Hx]. apply last_Some in Hx as [t' ->].
  assert (Hin : x ∈ a) by (rewrite <- Hperm; apply elem_of_app; right; constructor).
  apply list_elem_of_lookup in Hin as [j Hj].
  assert (Hjn : (j < length a)%nat) by (by eapply lookup_lt_Some).
  pose proof (swap_last a j x Hj) as Hl.
  apply last_Some in Hl as [a' Ha'].
  assert (Hp' : t' ≡ₚ a').
  { apply (Permutation_app_inv_r [x]). rewrite <- Ha', swap_perm. done. }
  assert (Hlen' : length a' = S n).
  { pose proof (swap_length a (length a - 1) j) as E. rewrite Ha', length_app in E.
    simpl in E. lia. }
  destruct (IH a' t' Hlen' Hp') as (pick' & Hpick' & Hfy).
  exists (fun i => if decide (i = S n) then j else pick' i). split.
  - intros i. destruct (decide (i = S n)) as [->|]; [lia|apply Hpick'].
  - replace (S (S n) - 1)%nat with (S n) by lia. cbn [fisherYates].
    rewrite decide_True by done.
    replace (S n) with (length a - 1)%nat at 1 by lia. rewrite Ha'.
    rewrite (fisherYates_ext _ pick').
    + rewrite fisherYates_app by (done || lia).
      replace n with (S n - 1)%nat at 1 by lia. by rewrite Hfy.
    + intros k Hk. rewrite decide_False by lia. done.
Qed.

(** X4: every order of the deck can come out of [shuffleDeck]: for each
    rearrangement there are draws, each within its range, that produce it. *)
Theorem shuffleDeck_reaches_every_order (deck target : list Card) :
  target ≡ₚ deck →
  ∃ pick, (∀ i, (pick i <= i)%nat) ∧ shuffleDeck pick deck = target.
Proof. intros H. by apply fisherYates_reaches. Qed.

Lemma shuffleDeck_reaches_every_order_witness :
  ∃ pick, (∀ i, (pick i <= i)%nat) ∧ shuffleDeck pick createDeck = rev createDeck.
Proof.
  apply (shuffleDeck_reaches_every_order createDeck (rev createDeck)).
  apply Permutation_rev.
Defined.

(** ** Validation of a deck *)

Lemma cardToShortString_inj c1 c2 : cardToShortString c1 = cardToShortString c2 → c1 = c2.
Proof.
  destruct c1 as [s1 r1], c2 as [s2 r2]. unfold cardToShortString. simpl.
  destruct r1, r2; try (by destruct s1, s2; cbv; intros [=]);
    destruct s1, s2; (reflexivity || (cbv; intros [=])).
Qed.

#[local] Instance cardToShortString_Inj : Inj (=) (=) cardToShortString.
Proof. intros c1 c2. apply cardToShortString_inj. Qed.

Lemma remove_dups_length_le {A} `{EqDecision A} (l : list A) :
  (length (remove_dups l) <= length l)%nat.
Proof.
  induction l as [|x l IH]; simpl; [done|].
  destruct (decide_rel elem_of x l); simpl; lia.
Qed.

Lemma remove_dups_length_NoDup {A} `{EqDecision A} (l : list A) :
  length (remove_dups l) = length l ↔ NoDup l.
Proof.
  induction l as [|x l IH]; simpl.
  - split; [constructor|done].
  - pose proof (remove_dups_length_le l).
    destruct (decide_rel elem_of x l) as [Hin|Hin]; simpl.
    + split; [lia|]. intros Hnd. apply NoDup_cons in Hnd as [Hx _]. done.
    + split.
      * intros E. apply NoDup_cons. split; [done|]. apply IH. lia.
      * intros Hnd. apply NoDup_cons in Hnd as [_ Hnd]. apply IH in Hnd. lia.
Qed.

Lemma flat_map_nil {A B} (f : A → list B) (l : list A) :
  flat_map f l = [] ↔ ∀ x, x ∈ l → f x = [].
Proof.
  induction l as [|x l IH]; simpl.
  - split; [intros _ y Hy; by apply elem_of_nil in Hy|done].
  - split.
    + intros E. apply app_eq_nil in E as [E1 E2]. intros y Hy.
      apply elem_of_cons in Hy as [->|Hy]; [done|]. by apply IH.
    + intros H. rewrite (H x) by constructor. simpl. apply IH.
      intros y Hy. apply H. by constructor.
Qed.

Lemma validateDeck_errors (deck : list Card) :
  snd (validateDeck deck) = [] ↔ length deck = 52%nat ∧ NoDup deck.
Proof.
  unfold validateDeck. cbv zeta. cbn [snd].
  split.
  - intros E. apply app_eq_nil in E as [E E3]. apply app_eq_nil in E as [E1 E2].
    destruct (Nat.eqb_spec (length deck) 52) as [H52|]; [|done].
    split; [done|].
    destruct (Nat.eqb_spec (length (remove_dups (map cardToShortString deck))) (length deck))
      as [Hu|]; [|done].
    apply (NoDup_fmap_1 cardToShortString).
    apply remove_dups_length_NoDup.
    change (cardToShortString <$> deck) with (map cardToShortString deck).
    by rewrite Hu, length_map.
  - intros [H52 Hnd].
    rewrite H52. cbn [Nat.eqb negb app].
    assert (Hu : length (remove_dups (map cardToShortString deck)) = 52%nat).
    { rewrite <- H52, <- (length_map cardToShortString deck).
      apply remove_dups_length_NoDup.
      change (map cardToShortString deck) with (cardToShortString <$> deck).
      by apply (NoDup_fmap_2 cardToShortString). }
    rewrite Hu. cbn [Nat.eqb negb app].
    apply flat_map_nil. intros str Hstr.
    apply list_elem_of_In, in_map_iff in Hstr as (c & <- & _).
    rewrite bool_decide_eq_true_2; [done|].
    apply elem_of_remove_dups, list_elem_of_In, in_map, list_elem_of_In, createDeck_all.
Qed.

Lemma full_deck_permutation (deck : list Card) :
  length deck = 52%nat ∧ NoDup deck ↔ deck ≡ₚ createDeck.
Proof.
  split.
  - intros [Hlen Hnd]. apply submseteq_length_Permutation.
    + apply NoDup_submseteq; [done|]. intros c _. apply createDeck_all.
    + rewrite Hlen. reflexivity.
  - intros H. split; [by rewrite H|]. rewrite H. apply createDeck_NoDup.
Qed.

(** X5: [validateDeck] reports a deck as valid exactly when it is a
    rearrangement of the standard deck, and then reports no error; a deck of
    another size is told its size, a deck with a repeated card is told so. *)
Theorem validateDeck_accepts_rearrangements (deck : list Card) :
  (fst (validateDeck deck) = true ↔ deck ≡ₚ createDeck)
  ∧ (fst (validateDeck deck) = true ↔ snd (validateDeck deck) = [])
  ∧ (length deck ≠ 52%nat → WrongDeckSize (length deck) ∈ snd (validateDeck deck))
  ∧ (¬ NoDup deck → DuplicateCards ∈ snd (validateDeck deck)).
Proof.
  assert (Hv : fst (validateDeck deck) = true ↔ snd (validateDeck deck) = []).
  { unfold validateDeck. cbv zeta. cbn [fst snd].
    destruct (_ ++ _); simpl; split; done. }
  split; [|split; [done|split]].
  - rewrite Hv, validateDeck_errors. apply full_deck_permutation.
  - intros Hlen. unfold validateDeck. cbv zeta. cbn [snd].
    destruct (Nat.eqb_spec (length deck) 52); [done|]. cbn [negb].
    rewrite <- app_assoc. apply elem_of_app. left. constructor.
  - intros Hnd. unfold validateDeck. cbv zeta. cbn [snd].
    destruct (Nat.eqb_spec (length (remove_dups (map cardToShortString deck))) (length deck))
      as [Hu|Hu].
    + exfalso. apply Hnd. apply (NoDup_fmap_1 cardToShortString).
      apply remove_dups_length_NoDup.
    change (cardToShortString <$> deck) with (map cardToShortString deck).
    by rewrite Hu, length_map.
    + cbn [negb]. apply elem_of_app. left. apply elem_of_app. right. constructor.
Qed.

(** X6: a deck created and shuffled, by either shuffle, passes
    [validateDeck]. *)
Theorem shuffled_deck_is_valid (crypto : option (list nat)) (pick : nat → nat) :
  (∀ i, (pick i <= i)%nat) →
  (∀ randomBytes, crypto = Some randomBytes → length randomBytes = 52%nat) →
  validateDeck (shuffleDeck pick createDeck) = (true, [])
  ∧ validateDeck (shuffleDeckSecure crypto pick createDeck) = (true, []).
Proof.
  intros _ _.
  assert (H : ∀ deck, deck ≡ₚ createDeck → validateDeck deck = (true, [])).
  { intros deck Hp. apply full_deck_permutation in Hp.
    apply validateDeck_errors in Hp.
    unfold validateDeck in *. cbv zeta in *. cbn [snd] in Hp. by rewrite Hp. }
  split; apply H.
  - apply fisherYates_perm.
  - destruct crypto; apply fisherYates_perm.
Qed.

Lemma shuffled_deck_is_valid_witness :
  validateDeck (shuffleDeck (fun i => (i / 3)%nat) createDeck) = (true, [])
  ∧ validateDeck (shuffleDeckSecure (Some (seq 7 52)) (fun i => (i / 3)%nat) createDeck)
    = (true, []).
Proof.
  apply (shuffled_deck_is_valid (Some (seq 7 52)) (fun i => (i / 3)%nat)).
  - intros i. apply Nat.Div0.div_le_upper_bound. lia.
  - intros randomBytes [= <-]. reflexivity.
Defined.

Lemma dealRound_spec (hands : list (list Card)) : ∀ deck,
  dealRound deck hands
  = (imap (fun j h => h ++ take 1 (drop j deck)) hands, drop (length hands) deck).
Proof.
  induction hands as [|h hands IH]; intros deck; simpl; [done|].
  rewrite IH. f_equal.
  - rewrite drop_0. f_equal. apply imap_ext. intros j x _. simpl.
    by rewrite drop_drop.
  - by rewrite drop_drop.
Qed.

Lemma flat_map_seq_shift {B} (f : nat → list B) (k : nat) :
  flat_map f (seq 1 k) = flat_map (fun r => f (S r)) (seq 0 k).
Proof.
  rewrite <- seq_shift. rewrite (flat_map_concat_map f), map_map.
  by rewrite <- flat_map_concat_map.
Qed.

Lemma imap_compose {A B C} (l : list A) : ∀ (f : nat → B → C) (g : nat → A → B),
  imap f (imap g l) = imap (fun j x => f j (g j x)) l.
Proof.
  induction l as [|x l IH]; intros f g; simpl; [done|]. f_equal. apply IH.
Qed.

Lemma dealRounds_spec (rounds : nat) : ∀ deck (hands : list (list Card)),
  dealRounds rounds deck hands
  = (imap (fun j h => h ++ dealtTo deck (length hands) j rounds) hands,
     drop (rounds * length hands) deck).
Proof.
  induction rounds as [|rounds IH]; intros deck hands.
  - simpl. rewrite drop_0. f_equal. symmetry.
    rewrite (imap_ext _ (fun _ h => h)).
    + rewrite (imap_const (fun h => h)). apply list_fmap_id.
    + intros j h _. unfold dealtTo. simpl. by rewrite app_nil_r.
  - cbn [dealRounds]. rewrite dealRound_spec, IH, length_imap. f_equal.
    + rewrite imap_compose. apply imap_ext. intros j h _. cbn.
      rewrite <- app_assoc. f_equal. unfold dealtTo. cbn. f_equal.
      rewrite flat_map_seq_shift.
      apply flat_map_ext. intros r. rewrite drop_drop. do 2 f_equal; lia.
    + rewrite drop_drop. f_equal; lia.
Qed.

Lemma take1_drop_lookup (deck : list Card) i c :
  deck !! i = Some c → take 1 (drop i deck) = [c].
Proof.
  intros Hc. rewrite <- (take_drop_middle deck _ c Hc) at 1.
  rewrite drop_app_length'; [done|]. rewrite length_take.
  apply lookup_lt_Some in Hc. lia.
Qed.

Lemma dealt_in_range (deck : list Card) (f : nat → nat) (rs : list nat) :
  (∀ r, r ∈ rs → (f r < length deck)%nat) →
  Forall2 (fun c r => deck !! f r = Some c)
    (flat_map (fun r => take 1 (drop (f r) deck)) rs) rs.
Proof.
  induction rs as [|r rs IH]; intros H; simpl; [constructor|].
  destruct (lookup_lt_is_Some_2 deck (f r)) as [c Hc]; [apply H; constructor|].
  rewrite (take1_drop_lookup _ _ _ Hc). simpl. constructor; [done|].
  apply IH. intros q Hq. apply H. by constructor.
Qed.

Lemma dealtTo_lookup deck n j rounds :
  (rounds * n <= length deck)%nat → (j < n)%nat →
  length (dealtTo deck n j rounds) = rounds
  ∧ ∀ r, (r < rounds)%nat → dealtTo deck n j rounds !! r = deck !! (r * n + j)%nat.
Proof.
  intros Hlen Hj.
  assert (H : Forall2 (fun c r => deck !! (r * n + j)%nat = Some c)
                (dealtTo deck n j rounds) (seq 0 rounds)).
  { apply (dealt_in_range deck (fun r => (r * n + j)%nat)).
    intros r Hr. apply elem_of_seq in Hr. nia. }
  split.
  - apply Forall2_length in H. by rewrite length_seq in H.
  - intros r Hr.
    destruct (Forall2_lookup_r _ _ _ r r H) as (c & Hc & Hd).
    { apply lookup_seq. lia. }
    by rewrite Hc, Hd.
Qed.

Lemma dealHoleCards_round_robin_total (deck : list Card) (n k : nat) :
  match deck_dealHoleCards deck n k with
  | Err e => e = CannotDeal ∧ (length deck < n * k)%nat
  | Ok (hands, rest) =>
      (n * k <= length deck)%nat
      ∧ rest = drop (n * k) deck
      ∧ length hands = n
      ∧ ∀ j, (j < n)%nat →
          ∃ h, hands !! j = Some h ∧ length h = k
               ∧ ∀ r, (r < k)%nat → h !! r = deck !! (r * n + j)%nat
  end.
Proof.
  unfold deck_dealHoleCards. cbv zeta.
  destruct (Nat.ltb_spec (length deck) (n * k)) as [H|H]; [done|].
  rewrite dealRounds_spec, length_replicate.
  split; [done|]. split; [f_equal; lia|].
  split; [by rewrite length_imap, length_replicate|].
  intros j Hj. rewrite list_lookup_imap, lookup_replicate_2 by done. simpl.
  eexists. split; [done|].
  destruct (dealtTo_lookup deck n j k) as [Hl Hr]; [lia|done|]. done.
Qed.

(** X7: [dealHoleCards] of [deck.ts] deals round by round: with [n] players
    and [k] cards each it throws when the deck has fewer than [n * k] cards;
    otherwise player [j] holds [k] cards, the one of round [r] being card
    [r * n + j] of the deck, and the deck is left without its first [n * k]
    cards. *)
Theorem dealHoleCards_round_robin (deck : list Card) (n k : nat) :
  match deck_dealHoleCards deck n k with
  | Err e => e = CannotDeal ∧ (length deck < n * k)%nat
  | Ok (hands, rest) =>
      (n * k <= length deck)%nat
      ∧ rest = drop (n * k) deck
      ∧ length hands = n
      ∧ ∀ j, (j < n)%nat →
          ∃ h, hands !! j = Some h ∧ length h = k
               ∧ ∀ r, (r < k)%nat → h !! r = deck !! (r * n + j)%nat
  end.
Proof. apply dealHoleCards_round_robin_total. Qed.

(** ** Dealing the board *)

Lemma burn_nonempty (deck : list Card) :
  (1 <= length deck)%nat → burn true deck = drop 1 deck.
Proof. intros H. unfold burn. simpl. by destruct (Nat.ltb_spec 0 (length deck)); [|lia]. Qed.

Lemma deck_dealRiver_dealTurn (deck : list Card) (burnCard : bool) :
  deck_dealRiver deck burnCard = deck_dealTurn deck burnCard.
Proof.
  unfold deck_dealRiver, deck_dealTurn, dealCards. cbv zeta.
  destruct (Nat.ltb_spec (length (burn burnCard deck)) 1) as [|H]; [done|].
  destruct (burn burnCard deck); [simpl in H; lia|done].
Qed.

(** X8: the board helpers of [deck.ts], asked to burn, and the engine's
    [dealFlop], [dealTurn] and [dealRiver] take the same cards from the same
    deck and fail on the same decks.  The flop needs four cards and is cards
    1 to 3; a turn or river needs two and is card 1; card 0 is burnt.  When
    the engine throws, its deck has already lost the burnt card. *)
Theorem board_helpers_agree_with_engine (s : GameState) :
  match dealFlop s with
  | Done s' =>
      (4 <= length (deck s))%nat
      ∧ dealCommunityCards (deck s) true
        = Ok (mkCommunityDeal (take 3 (drop 1 (deck s))) None None (deck s'))
      ∧ communityCards s' = communityCards s ++ take 3 (drop 1 (deck s))
      ∧ deck s' = drop 4 (deck s)
  | Throw e s' =>
      (length (deck s) < 4)%nat ∧ e = CannotDeal
      ∧ dealCommunityCards (deck s) true = Err CannotDeal
      ∧ s' = set_deck (burn true (deck s)) s
  end
  ∧ dealRiver s = dealTurn s
  ∧ deck_dealRiver (deck s) true = deck_dealTurn (deck s) true
  ∧ match dealTurn s with
    | Done s' =>
        ∃ card, deck s !! 1%nat = Some card
                ∧ deck_dealTurn (deck s) true = inr (card, deck s')
                ∧ communityCards s' = communityCards s ++ [card]
                ∧ deck s' = drop 2 (deck s)
    | Throw e s' =>
        (length (deck s) < 2)%nat ∧ e = CannotDeal
        ∧ deck_dealTurn (deck s) true = inl StreetCannotDeal
        ∧ s' = set_deck (burn true (deck s)) s
    end.
Proof.
  assert (Hs : ∀ t : GameState, set_deck (deck t) t = t) by (by intros []).
  assert (Hb : (length (deck s) < 1)%nat → burn true (deck s) = deck s).
  { intros H. unfold burn. simpl. by destruct (Nat.ltb_spec 0 (length (deck s))); [lia|]. }
  split; [|split; [done|split; [apply deck_dealRiver_dealTurn|]]].
  - unfold dealFlop, burnAndDeal, dealCommunityCards, dealCards.
    destruct (Nat.ltb_spec (length (deck s)) 1) as [H0|H1].
    { rewrite (Hb H0), Hs.
      destruct (Nat.ltb_spec (length (deck s)) 3); [|lia].
      repeat split; try done. lia. }
    cbn [deck set_deck].
    rewrite burn_nonempty by done. rewrite length_drop.
    destruct (Nat.ltb_spec (length (deck s) - 1) 3) as [H3|H3].
    + repeat split; try done. lia.
    + cbn. rewrite drop_drop. repeat split; try done. lia.
  - unfold dealTurn, burnAndDeal, deck_dealTurn, dealCards.
    destruct (Nat.ltb_spec (length (deck s)) 1) as [H0|H1].
    { rewrite (Hb H0), Hs.
      destruct (Nat.ltb_spec (length (deck s)) 1); [|lia].
      repeat split; try done. lia. }
    cbn [deck set_deck].
    rewrite burn_nonempty by done. rewrite length_drop.
    destruct (Nat.ltb_spec (length (deck s) - 1) 1) as [H3|H3].
    + repeat split; try done. lia.
    + cbn [communityCards deck set_deck set_communityCards].
      destruct (lookup_lt_is_Some_2 (deck s) 1) as [card Hc]; [lia|].
      exists card.
      assert (E : take 1 (drop 1 (deck s)) = [card]) by (by apply take1_drop_lookup).
      rewrite E, drop_drop. done.
Qed.

(** ** Sorting cards *)

Lemma rankToValue_inj aceHigh r1 r2 : rankToValue r1 aceHigh = rankToValue r2 aceHigh → r1 = r2.
Proof. destruct aceHigh, r1, r2; simpl; intros H; try done; lia. Qed.

Lemma suitOrder_inj s1 s2 : suitOrder s1 = suitOrder s2 → s1 = s2.
Proof. destruct s1, s2; simpl; intros H; try done; lia. Qed.

Lemma compareCards_spec aceHigh c1 c2 :
  compareCards aceHigh c1 c2 <= 0
  ↔ rankToValue (rank c1) aceHigh < rankToValue (rank c2) aceHigh
    ∨ (rankToValue (rank c1) aceHigh = rankToValue (rank c2) aceHigh
       ∧ suitOrder (suit c1) <= suitOrder (suit c2)).
Proof.
  unfold compareCards. cbv zeta.
  destruct (Z.eqb_spec (rankToValue (rank c1) aceHigh) (rankToValue (rank c2) aceHigh));
    simpl; lia.
Qed.

Lemma compareCards_total aceHigh c1 c2 :
  compareCards aceHigh c1 c2 <= 0 ∨ compareCards aceHigh c2 c1 <= 0.
Proof. rewrite !compareCards_spec. lia. Qed.

Lemma compareCards_trans aceHigh c1 c2 c3 :
  compareCards aceHigh c1 c2 <= 0 → compareCards aceHigh c2 c3 <= 0 →
  compareCards aceHigh c1 c3 <= 0.
Proof. rewrite !compareCards_spec. lia. Qed.

Lemma compareCards_antisym aceHigh c1 c2 :
  compareCards aceHigh c1 c2 <= 0 → compareCards aceHigh c2 c1 <= 0 → c1 = c2.
Proof.
  rewrite !compareCards_spec. intros H1 H2.
  assert (Hr : rankToValue (rank c1) aceHigh = rankToValue (rank c2) aceHigh) by lia.
  assert (Hs : suitOrder (suit c1) = suitOrder (suit c2)) by lia.
  apply rankToValue_inj in Hr. apply suitOrder_inj in Hs.
  destruct c1, c2. simpl in *. congruence.
Qed.

(** X9: [sortCards] returns the cards it was given in increasing order of
    [compareCards], which is zero on equal cards only: the result does not
    depend on the order of the input, and sorting twice changes nothing. *)
Theorem sortCards_canonical (cards cards' : list Card) (aceHigh : bool) :
  sortCards cards aceHigh ≡ₚ cards
  ∧ StronglySorted (fun c1 c2 => compareCards aceHigh c1 c2 <= 0) (sortCards cards aceHigh)
  ∧ (∀ c1 c2, compareCards aceHigh c1 c2 = 0 ↔ c1 = c2)
  ∧ (cards ≡ₚ cards' → sortCards cards aceHigh = sortCards cards' aceHigh)
  ∧ sortCards (sortCards cards aceHigh) aceHigh = sortCards cards aceHigh.
Proof.
  assert (Hsorted : ∀ l, StronglySorted (fun c1 c2 => compareCards aceHigh c1 c2 <= 0)
                           (sortCards l aceHigh)).
  { intros l. apply js_sort_sorted;
      [apply compareCards_total|apply compareCards_trans]. }
  assert (Hanti : AntiSymm (=) (fun c1 c2 => compareCards aceHigh c1 c2 <= 0)).
  { intros c1 c2. apply compareCards_antisym. }
  assert (Hperm : ∀ l l', l ≡ₚ l' → sortCards l aceHigh = sortCards l' aceHigh).
  { intros l l' H. eapply StronglySorted_unique; [exact Hanti|apply Hsorted..|].
    unfold sortCards. by rewrite !js_sort_perm. }
  split; [apply js_sort_perm|]. split; [apply Hsorted|]. split; [|split].
  - intros c1 c2. split.
    + intros H. apply (compareCards_antisym aceHigh); [lia|].
      assert (compareCards aceHigh c2 c1 = - compareCards aceHigh c1 c2); [|lia].
      unfold compareCards. cbv zeta.
      destruct (Z.eqb_spec (rankToValue (rank c1) aceHigh) (rankToValue (rank c2) aceHigh)),
               (Z.eqb_spec (rankToValue (rank c2) aceHigh) (rankToValue (rank c1) aceHigh));
        simpl; lia.
    + intros ->. unfold compareCards. cbv zeta. rewrite Z.eqb_refl. simpl. lia.
  - apply Hperm.
  - apply Hperm. apply js_sort_perm.
Qed.

(** * More properties of the hand evaluator *)

(** ** Combinations *)

Lemma generateCombinations_short {A} (l : list A) : ∀ k,
  (length l < k)%nat → generateCombinations l k = [].
Proof.
  induction l as [|x l IH]; intros [|k] H; simpl in *; try lia; [done|].
  rewrite (IH k), (IH (S k)) by lia. done.
Qed.

Lemma generateCombinations_count {A} (l : list A) : ∀ k,
  (k <= length l)%nat →
  (length (generateCombinations l k) * (fact k * fact (length l - k)) = fact (length l))%nat.
Proof.
  induction l as [|x l IH]; intros [|k] H; simpl in H; try lia.
  - reflexivity.
  - cbn [generateCombinations length]. simpl. lia.
  - cbn [generateCombinations]. rewrite length_app, length_map.
    cbn [length]. replace (S (length l) - S k)%nat with (length l - k)%nat by lia.
    destruct (decide (k = length l)) as [->|Hk].
    + rewrite (generateCombinations_short l (S (length l))) by lia.
      pose proof (IH (length l) (le_n _)) as E.
      rewrite Nat.sub_diag in *. cbn [length]. rewrite Nat.add_0_r.
      change (fact (S (length l))) with (S (length l) * fact (length l))%nat.
      simpl fact at 2. simpl fact at 2 in E. nia.
    + pose proof (IH k ltac:(lia)) as E1. pose proof (IH (S k) ltac:(lia)) as E2.
      replace (length l - k)%nat with (S (length l - S k)) in * by lia.
      change (fact (S (length l))) with (S (length l) * fact (length l))%nat.
      change (fact (S k)) with (S k * fact k)%nat in *.
      change (fact (S (length l - S k))) with (S (length l - S k) * fact (length l - S k))%nat in *.
      nia.
Qed.

(** X10: [generateCombinations(array, k)] lists the selections of [k]
    elements taken in the order of the array, and nothing else; there are
    n!/(k!(n-k)!) of them, none when [k] exceeds the length of the array. *)
Theorem generateCombinations_complete {A : Type} (array : list A) (k : nat) :
  (∀ T, In T (generateCombinations array k) ↔ T `sublist_of` array ∧ length T = k)
  ∧ ((k <= length array)%nat →
     (length (generateCombinations array k) * (fact k * fact (length array - k))
      = fact (length array))%nat)
  ∧ ((length array < k)%nat → generateCombinations array k = []).
Proof.
  split; [intros T; apply generateCombinations_sublist|].
  split; [apply generateCombinations_count|apply generateCombinations_short].
Qed.

(** ** The order of the cards does not matter *)

Lemma fiveOf_perm cards cards' : cards ≡ₚ cards' → fiveOf cards = fiveOf cards'.
Proof.
  intros H. unfold fiveOf.
  rewrite (js_sort_ascending_unique (map card_value cards) (map card_value cards')).
  - by rewrite (isFlush_perm cards cards').
  - change (card_value <$> cards ≡ₚ card_value <$> cards'). by rewrite H.
Qed.

Lemma bySuit_perm cards cards' s : cards ≡ₚ cards' → bySuit cards s ≡ₚ bySuit cards' s.
Proof.
  unfold bySuit. induction 1 as [|x l l' _ IH|x y l|l1 l2 l3 _ IH1 _ IH2]; simpl.
  - done.
  - destruct (Suit_eqb (suit x) s); [by constructor|done].
  - destruct (Suit_eqb (suit x) s), (Suit_eqb (suit y) s); try done. apply perm_swap.
  - by etrans.
Qed.

Lemma flushSuit_perm cards cards' : cards ≡ₚ cards' → flushSuit cards = flushSuit cards'.
Proof.
  intros H. unfold flushSuit. simpl.
  by rewrite !(Permutation_length (bySuit_perm cards cards' _ H)).
Qed.

Lemma evaluateSevenCards_perm cards cards' :
  NoDup cards → cards ≡ₚ cards' → evaluateSevenCards cards = evaluateSevenCards cards'.
Proof.
  intros Hnd H. unfold evaluateSevenCards.
  rewrite !buildRankCounts_values.
  rewrite (countsOf_perm (map card_value cards) (map card_value cards')).
  2: { change (card_value <$> cards ≡ₚ card_value <$> cards'). by rewrite H. }
  rewrite <- (flushSuit_perm cards cards' H).
  destruct (flushSuit cards) as [s|]; [|done]. simpl.
  apply classifySeven_flush_perm.
  - apply (suited_values_NoDup cards s Hnd).
  - change (card_value <$> bySuit cards s ≡ₚ card_value <$> bySuit cards' s).
    by rewrite (bySuit_perm cards cards' s H).
Qed.

(** X11: [evaluateHand] does not depend on the order in which the cards are
    given: two arrangements of the same distinct cards get the same result,
    be it an evaluation or the error for fewer than five cards. *)
Theorem evaluateHand_order_independent (cards cards' : list Card) :
  NoDup cards → cards ≡ₚ cards' → evaluateHand cards = evaluateHand cards'.
Proof.
  intros Hnd H. unfold evaluateHand. rewrite <- (Permutation_length H).
  destruct (Nat.ltb_spec (length cards) 5); [done|].
  destruct (Nat.eqb_spec (length cards) 5) as [H5|_].
  - destruct (evaluateFiveCards_fast cards H5) as [-> _].
    destruct (evaluateFiveCards_fast cards') as [-> _]; [by rewrite <- H|].
    by rewrite (fiveOf_perm cards cards' H).
  - by rewrite (evaluateSevenCards_perm cards cards' Hnd H).
Qed.

Lemma evaluateHand_order_independent_witness :
  evaluateHand [mkCard spades RA; mkCard hearts RK; mkCard hearts R7; mkCard clubs R7;
                mkCard diamonds R2; mkCard clubs RA; mkCard spades R9]
  = evaluateHand [mkCard spades R9; mkCard clubs RA; mkCard diamonds R2; mkCard clubs R7;
                  mkCard hearts R7; mkCard hearts RK; mkCard spades RA].
Proof.
  apply (evaluateHand_order_independent
           [mkCard spades RA; mkCard hearts RK; mkCard hearts R7; mkCard clubs R7;
            mkCard diamonds R2; mkCard clubs RA; mkCard spades R9]).
  - compute_done.
  - apply (Permutation_rev
             [mkCard spades RA; mkCard hearts RK; mkCard hearts R7; mkCard clubs R7;
              mkCard diamonds R2; mkCard clubs RA; mkCard spades R9]).
Defined.

(** ** Errors of the evaluators *)

(** X12: [evaluateHand] throws on fewer than five cards and on nothing else:
    five cards or more, repeated or not, always get a category and a numeric
    strength inside the band of that category. *)
Theorem evaluateHand_total (cards : list Card) :
  match evaluateHand cards with
  | Err e => e = NeedAtLeastFiveCards ∧ (length cards < 5)%nat
  | Ok e =>
      (5 <= length cards)%nat
      ∧ ∃ v, he_value e = Some v
             ∧ HandRank_num (he_rank e) * CATEGORY_BASE <= v
                 < (HandRank_num (he_rank e) + 1) * CATEGORY_BASE
  end.
Proof.
  destruct (Nat.ltb_spec (length cards) 5) as [H|H].
  - unfold evaluateHand. apply Nat.ltb_lt in H. rewrite H. split; [done|].
    by apply Nat.ltb_lt.
  - destruct (evaluateHand_in_category cards H) as (e & -> & Hc). split; [done|]. exact Hc.
Qed.

(** X13: [findBestHand] fails on fewer than five cards, where there is no
    combination to evaluate; on five cards or more it returns the evaluation
    of one of the five-card selections, and no five-card selection is
    stronger. *)
Theorem findBestHand_is_the_strongest_selection (cards : list Card) :
  match findBestHand cards with
  | Err e => e = FailedToEvaluate ∧ (length cards < 5)%nat
  | Ok best =>
      (5 <= length cards)%nat
      ∧ (∃ five, five `sublist_of` cards ∧ length five = 5%nat
                 ∧ evaluateHand five = Ok best)
      ∧ ∀ five, five `sublist_of` cards → length five = 5%nat →
          ∃ e v vbest, evaluateHand five = Ok e
                       ∧ he_value e = Some v ∧ he_value best = Some vbest ∧ v <= vbest
  end.
Proof.
  assert (H5 : ∀ five, length five = 5%nat → evaluateHand five = Ok (fiveOf five)).
  { intros five Hlen. unfold evaluateHand. rewrite Hlen. simpl.
    by destruct (evaluateFiveCards_fast five Hlen) as [-> _]. }
  destruct (Nat.ltb_spec (length cards) 5) as [H|H].
  - unfold findBestHand. cbv zeta.
    rewrite (generateCombinations_short cards 5 H). simpl. split; [done|]. lia.
  - destruct (findBestHand_max cards H) as (best & -> & (S & HS & ->) & Hmax).
    split; [done|]. split.
    + apply generateCombinations_sublist in HS as [Hsub Hlen]. exists S. by rewrite H5.
    + intros five Hsub Hlen. rewrite (H5 five Hlen).
      specialize (Hmax five). unfold value_le in Hmax.
      destruct (he_value (fiveOf five)) as [v|] eqn:Ev,
               (he_value (fiveOf S)) as [vb|] eqn:Eb;
        try (exfalso; apply Hmax; by apply generateCombinations_sublist).
      exists (fiveOf five), v, vb. repeat split; try done.
      apply Hmax. by apply generateCombinations_sublist.
Qed.

Lemma list_Z_eqb_eq l1 : ∀ l2, list_Z_eqb l1 l2 = true → l1 = l2.
Proof.
  unfold list_Z_eqb.
  induction l1 as [|x l1 IH]; intros [|y l2] H; simpl in H; try done.
  apply andb_true_iff in H as [Hl H]. apply andb_true_iff in H as [Hxy H].
  apply Z.eqb_eq in Hxy as ->. f_equal. apply IH. by rewrite Hl, H.
Qed.

Lemma fast5_decodes_ok : forall_sorted 5 2 fast5_decodes = true.
Proof. vm_cast_no_check (eq_refl true). Qed.

Lemma fiveOf_decodes cards v :
  length cards = 5%nat → he_value (fiveOf cards) = Some v →
  decode5 v = js_sort ascending (map card_value cards).
Proof.
  intros Hlen Hv.
  assert (H : fast5_decodes (js_sort ascending (map card_value cards)) = true).
  { apply (forall_sorted_sound 5 2); [lia|apply fast5_decodes_ok| |apply sorted_values_from].
    by rewrite js_sort_length, length_map. }
  unfold fast5_decodes in H. unfold fiveOf in Hv.
  destruct (isFlush cards); rewrite Hv in H.
  - destruct (he_value (fast5 _ false)); [|done].
    apply andb_true_iff in H as [H _]. by apply list_Z_eqb_eq.
  - destruct (he_value (fast5 _ true)); [|done].
    apply andb_true_iff in H as [_ H]. by apply list_Z_eqb_eq.
Qed.

(** X14: between two hands of five cards, the strengths are equal only when
    the two hands hold the same values, and then the categories are equal
    too; and two hands with the same values that are both flushes, or both
    not, get the same evaluation: suits count only through the flush. *)
Theorem five_card_ties (cards1 cards2 : list Card) :
  length cards1 = 5%nat → length cards2 = 5%nat →
  ∃ e1 e2,
    evaluateHand cards1 = Ok e1 ∧ evaluateHand cards2 = Ok e2
    ∧ (he_value e1 = he_value e2 →
       map card_value cards1 ≡ₚ map card_value cards2 ∧ he_rank e1 = he_rank e2)
    ∧ (map card_value cards1 ≡ₚ map card_value cards2 →
       isFlush cards1 = isFlush cards2 → e1 = e2).
Proof.
  intros H1 H2.
  assert (H5 : ∀ five, length five = 5%nat → evaluateHand five = Ok (fiveOf five)).
  { intros five Hlen. unfold evaluateHand. rewrite Hlen. simpl.
    by destruct (evaluateFiveCards_fast five Hlen) as [-> _]. }
  exists (fiveOf cards1), (fiveOf cards2). rewrite !H5 by done.
  split; [done|]. split; [done|]. split.
  - intros Hv.
    destruct (fiveOf_in_category cards1 H1) as (v1 & Hv1 & Hb1).
    destruct (fiveOf_in_category cards2 H2) as (v2 & Hv2 & Hb2).
    assert (v1 = v2) as -> by congruence.
    split.
    + rewrite <- (js_sort_perm ascending (map card_value cards1)).
      rewrite <- (js_sort_perm ascending (map card_value cards2)).
      by rewrite <- (fiveOf_decodes cards1 v2 H1 Hv1), <- (fiveOf_decodes cards2 v2 H2 Hv2).
    + assert (E : HandRank_num (he_rank (fiveOf cards1))
                  = HandRank_num (he_rank (fiveOf cards2)))
        by (unfold CATEGORY_BASE in *; nia).
      by apply HandRank_num_inj.
  - intros Hp Hf. unfold fiveOf.
    by rewrite (js_sort_ascending_unique _ _ Hp), Hf.
Qed.

Lemma five_card_ties_witness :
  ∃ e1 e2,
    evaluateHand [mkCard spades RA; mkCard hearts RA; mkCard clubs R9;
                  mkCard diamonds R5; mkCard clubs R2] = Ok e1
    ∧ evaluateHand [mkCard clubs RA; mkCard diamonds RA; mkCard hearts R9;
                    mkCard spades R5; mkCard hearts R2] = Ok e2
    ∧ (he_value e1 = he_value e2 →
       map card_value [mkCard spades RA; mkCard hearts RA; mkCard clubs R9;
                       mkCard diamonds R5; mkCard clubs R2]
       ≡ₚ map card_value [mkCard clubs RA; mkCard diamonds RA; mkCard hearts R9;
                          mkCard spades R5; mkCard hearts R2]
       ∧ he_rank e1 = he_rank e2)
    ∧ (map card_value [mkCard spades RA; mkCard hearts RA; mkCard clubs R9;
                       mkCard diamonds R5; mkCard clubs R2]
       ≡ₚ map card_value [mkCard clubs RA; mkCard diamonds RA; mkCard hearts R9;
                          mkCard spades R5; mkCard hearts R2] →
       isFlush [mkCard spades RA; mkCard hearts RA; mkCard clubs R9;
                mkCard diamonds R5; mkCard clubs R2]
       = isFlush [mkCard clubs RA; mkCard diamonds RA; mkCard hearts R9;
                  mkCard spades R5; mkCard hearts R2] → e1 = e2).
Proof.
  apply (five_card_ties
           [mkCard spades RA; mkCard hearts RA; mkCard clubs R9;
            mkCard diamonds R5; mkCard clubs R2]
           [mkCard clubs RA; mkCard diamonds RA; mkCard hearts R9;
            mkCard spades R5; mkCard hearts R2]); reflexivity.
Defined.

(** ** Comparing hands *)

(** X15: among hands that have a numeric strength, as every hand that
    [evaluateHand] returns has, the winners that [findWinners] reports are
    exactly the hands that [compareHands] puts below no other hand. *)
Theorem findWinners_agrees_with_compareHands (hands : list HandEvaluation) :
  hands ≠ [] → Forall (fun h => is_Some (he_value h)) hands →
  ∀ i, In i (findWinners hands)
       ↔ ∃ h, hands !! i = Some h
              ∧ ∀ j h', hands !! j = Some h' → ∃ d, compareHands h' h = Some d ∧ d <= 0.
Proof.
  intros Hne Hall i.
  destruct (findWinners_spec hands Hne Hall) as (m & Hm & _ & _ & Hiff).
  destruct (js_max_spec (map he_value hands)) as (m' & Hm' & Hin & Hle).
  { by destruct hands. }
  { apply Forall_forall. intros x Hx. apply list_elem_of_In, in_map_iff in Hx as (h & <- & Hh).
    rewrite Forall_forall in Hall. apply Hall. by apply list_elem_of_In. }
  assert (m' = m) as -> by congruence.
  rewrite Hiff. split.
  - intros (h & Hh & Hv). exists h. split; [done|]. intros j h' Hj.
    rewrite Forall_forall in Hle.
    destruct (Hle (he_value h')) as (v' & Ev & Hv').
    { apply list_elem_of_In, in_map, list_elem_of_In, list_elem_of_lookup. eauto. }
    unfold compareHands. rewrite Ev, Hv. eexists. split; [done|]. lia.
  - intros (h & Hh & Hall'). exists h. split; [done|].
    apply in_map_iff in Hin as (hm & Ehm & Hin).
    apply list_elem_of_In, list_elem_of_lookup in Hin as [j Hj].
    destruct (Hall' j hm Hj) as (d & Hd & Hd0).
    unfold compareHands in Hd. rewrite Ehm in Hd.
    destruct (he_value h) as [v|] eqn:Ev; [|done]. injection Hd as <-.
    rewrite Forall_forall in Hle.
    destruct (Hle (Some v)) as (v' & Ev' & Hv').
    { rewrite <- Ev. apply list_elem_of_In, in_map, list_elem_of_In, list_elem_of_lookup. eauto. }
    injection Ev' as <-. f_equal. lia.
Qed.

Lemma findWinners_agrees_with_compareHands_witness :
  In 1%nat (findWinners [mkEval PAIR (Some 2000000001); mkEval FLUSH (Some 6000000000);
                         mkEval FLUSH (Some 6000000000)])
  ↔ ∃ h, [mkEval PAIR (Some 2000000001); mkEval FLUSH (Some 6000000000);
          mkEval FLUSH (Some 6000000000)] !! 1%nat = Some h
         ∧ ∀ j h', [mkEval PAIR (Some 2000000001); mkEval FLUSH (Some 6000000000);
                    mkEval FLUSH (Some 6000000000)] !! j = Some h' →
                   ∃ d, compareHands h' h = Some d ∧ d <= 0.
Proof.
  apply (findWinners_agrees_with_compareHands
           [mkEval PAIR (Some 2000000001); mkEval FLUSH (Some 6000000000);
            mkEval FLUSH (Some 6000000000)]).
  - discriminate.
  - repeat constructor; simpl; eauto.
Defined.

(** ** The test helpers *)

Lemma isFlush_createTestHand ranks suit : isFlush (createTestHand ranks suit) = true.
Proof.
  apply isFlush_spec. exists suit. intros c Hc.
  unfold createTestHand in Hc. by apply in_map_iff in Hc as (r & <- & _).
Qed.

Lemma fast5_flush_rank (vs : list Z) : HandRank_num FLUSH <= HandRank_num (he_rank (fast5 vs true))
                                       ∨ length vs ≠ 5%nat.
Proof.
  destruct vs as [|a [|b [|c [|d [|e [|f vs]]]]]]; try (right; simpl; lia). left.
  unfold fast5.
  destruct (a =? b), (b =? c), (c =? d), (d =? e); simpl; try lia;
    repeat (match goal with |- context [if ?x then _ else _] => destruct x end; simpl; try lia).
Qed.

Lemma bySuit_createTestHand ranks suit s :
  bySuit (createTestHand ranks suit) s = if Suit_eqb suit s then createTestHand ranks suit else [].
Proof.
  unfold bySuit, createTestHand.
  induction ranks as [|r ranks IH]; simpl; [by destruct (Suit_eqb suit s)|].
  rewrite IH. by destruct (Suit_eqb suit s).
Qed.

Lemma flushSuit_createTestHand ranks suit :
  (5 <= length ranks)%nat → flushSuit (createTestHand ranks suit) = Some suit.
Proof.
  intros H. unfold flushSuit. cbn [find].
  rewrite !bySuit_createTestHand.
  assert (E : (5 <=? length (createTestHand ranks suit))%nat = true).
  { apply Nat.leb_le. unfold createTestHand. by rewrite length_map. }
  destruct suit; unfold Suit_eqb; cbn [length Nat.leb] in E |- *; by rewrite E.
Qed.

Lemma classifySeven_flush_rank rc suited :
  HandRank_num FLUSH <= HandRank_num (he_rank (classifySeven rc (Some suited))).
Proof.
  unfold classifySeven. cbv zeta.
  repeat (match goal with
          | |- context [match ?x with _ => _ end] =>
              lazymatch x with
              | context [match _ with _ => _ end] => fail
              | _ => destruct x
              end
          end; simpl; try lia).
Qed.

(** X16: [createTestHand] builds hands of one suit, so a hand it builds is
    never evaluated below a flush: when [validateHandEvaluation] confirms a
    rank for such a hand, the hand has five cards or more and the rank is
    Flush, Full House, Four of a Kind, Straight Flush or Royal Flush. *)
Theorem test_hands_are_flushes (ranks : list Rank) (suit : Suit) (expectedRank : HandRank) :
  validateHandEvaluation (createTestHand ranks suit) expectedRank = true →
  (5 <= length ranks)%nat ∧ HandRank_num FLUSH <= HandRank_num expectedRank.
Proof.
  unfold validateHandEvaluation, evaluateHand.
  assert (Hlen : length (createTestHand ranks suit) = length ranks)
    by (unfold createTestHand; by rewrite length_map).
  rewrite Hlen.
  destruct (Nat.ltb_spec (length ranks) 5) as [|H5]; [done|].
  destruct (Nat.eqb_spec (length ranks) 5) as [E5|_].
  - destruct (evaluateFiveCards_fast (createTestHand ranks suit)) as [-> _]; [congruence|].
    intros E. apply Z.eqb_eq in E. split; [done|]. rewrite <- E.
    unfold fiveOf. rewrite isFlush_createTestHand.
    destruct (fast5_flush_rank (js_sort ascending (map card_value (createTestHand ranks suit))))
      as [H|H]; [done|].
    rewrite js_sort_length, length_map in H. congruence.
  - intros E. apply Z.eqb_eq in E. split; [done|]. rewrite <- E.
    unfold evaluateSevenCards. rewrite flushSuit_createTestHand by done.
    apply classifySeven_flush_rank.
Qed.

Lemma test_hands_are_flushes_witness :
  (5 <= length [R2; R3; R4; R5; R7])%nat ∧ HandRank_num FLUSH <= HandRank_num FLUSH.
Proof.
  apply (test_hands_are_flushes [R2; R3; R4; R5; R7] hearts FLUSH). reflexivity.
Defined.

(** ** More cards never make a weaker hand *)

Lemma sublist_full {A} (l1 l2 : list A) :
  l1 `sublist_of` l2 → length l1 = length l2 → l1 = l2.
Proof.
  induction 1 as [|x l1 l2 Hs IH|x l1 l2 Hs IH]; simpl; intros Hl.
  - done.
  - f_equal. apply IH. lia.
  - apply sublist_length in Hs. lia.
Qed.

(** On five to seven distinct cards [evaluateHand] returns the strength of
    one of the five-card selections, and no selection is stronger. *)
Lemma evaluateHand_best_five (cards : list Card) :
  NoDup cards → (5 <= length cards <= 7)%nat →
  ∃ e, evaluateHand cards = Ok e
       ∧ (∃ five, five `sublist_of` cards ∧ length five = 5%nat ∧ fiveOf five = e)
       ∧ ∀ five, five `sublist_of` cards → length five = 5%nat → value_le (fiveOf five) e.
Proof.
  intros Hnd Hlen.
  destruct (decide (length cards = 5%nat)) as [H5|H5].
  - destruct (evaluateFiveCards_fast cards H5) as [E [v Hv]].
    exists (fiveOf cards). unfold evaluateHand. rewrite H5. simpl.
    split; [done|]. split; [by exists cards|].
    intros five Hsub Hl.
    assert (five = cards) as -> by (apply sublist_full; [done|lia]).
    unfold value_le. rewrite Hv. lia.
  - destruct (evaluateSevenCards_is_max cards Hnd) as (_ & Hub & (S & HS & HSe)); [lia|].
    exists (evaluateSevenCards cards). split.
    { unfold evaluateHand.
      destruct (Nat.ltb_spec (length cards) 5); [lia|].
      by destruct (Nat.eqb_spec (length cards) 5). }
    split.
    + apply generateCombinations_sublist in HS as [? ?]. by exists S.
    + intros five Hsub Hl. apply Hub. by apply generateCombinations_sublist.
Qed.

(** X17: a hand of five to seven distinct cards is never weaker than the
    hand made of some of these cards: [evaluateHand] succeeds on both and
    the strength of the larger hand is at least that of the smaller one. *)
Theorem evaluateHand_monotone (cards cards' : list Card) :
  NoDup cards' → cards `sublist_of` cards' →
  (5 <= length cards)%nat → (length cards' <= 7)%nat →
  ∃ e e' v v',
    evaluateHand cards = Ok e ∧ evaluateHand cards' = Ok e'
    ∧ he_value e = Some v ∧ he_value e' = Some v' ∧ v <= v'.
Proof.
  intros Hnd Hsub H5 H7.
  pose proof (sublist_length _ _ Hsub) as Hl.
  destruct (evaluateHand_best_five cards) as (e & He & (S & HS & HSl & HSe) & _);
    [by eapply sublist_NoDup|lia|].
  destruct (evaluateHand_best_five cards' Hnd) as (e' & He' & _ & Hmax); [lia|].
  specialize (Hmax S (transitivity HS Hsub) HSl). rewrite HSe in Hmax.
  unfold value_le in Hmax.
  destruct (he_value e) as [v|] eqn:Ev; [|done].
  destruct (he_value e') as [v'|] eqn:Ev'; [|done].
  by exists e, e', v, v'.
Qed.

Lemma evaluateHand_monotone_witness :
  ∃ e e' v v',
    evaluateHand [mkCard hearts R2; mkCard spades R7; mkCard clubs R9;
                  mkCard hearts RJ; mkCard diamonds RK] = Ok e
    ∧ evaluateHand [mkCard hearts R2; mkCard spades R7; mkCard clubs R9;
                    mkCard hearts RJ; mkCard diamonds RK; mkCard clubs RK] = Ok e'
    ∧ he_value e = Some v ∧ he_value e' = Some v' ∧ v <= v'.
Proof.
  apply (evaluateHand_monotone
           [mkCard hearts R2; mkCard spades R7; mkCard clubs R9;
            mkCard hearts RJ; mkCard diamonds RK]
           [mkCard hearts R2; mkCard spades R7; mkCard clubs R9;
            mkCard hearts RJ; mkCard diamonds RK; mkCard clubs RK]).
  - compute_done.
  - do 5 apply sublist_skip. apply sublist_cons. constructor.
  - simpl. lia.
  - simpl. lia.
Defined.

(** * More properties of the engine *)

(** ** The pot during a hand *)








(** X19: for the player whose turn it is, [getValidActions] and
    [validateAction] agree on folding, checking, calling and moving all-in:
    each of them is offered exactly when [validateAction] accepts it; a fold
    is always offered. *)
Theorem offered_actions_are_the_accepted_ones (s : GameState) (pid : string)
    (i : nat) (p : Player) (t : ActionType) (amount : Z) :
  findPlayerById s pid = Some (i, p) → canPlayerAct s pid = true → 0 <= chips p →
  t = TFold ∨ t = TCheck ∨ t = TCall ∨ t = TAllIn →
  (In t (getValidActions s pid) ↔ validateAction s p (actionOf t amount) = None)
  ∧ In TFold (getValidActions s pid).
Proof.
  intros Hf Hc Hch Ht.
  unfold getValidActions. rewrite Hf, Hc. cbn [negb]. cbv zeta.
  unfold canPlayerAct in Hc. rewrite Hf in Hc.
  apply andb_true_iff in Hc as [Hc Ha]. apply andb_true_iff in Hc as [_ Hfo].
  apply negb_true_iff in Ha, Hfo.
  unfold validateAction. rewrite Hfo, Ha.
  assert (H0 : 0 <= getCallAmount s p) by (unfold getCallAmount; lia).
  split; [|by left].
  destruct (Z.eqb_spec (getCallAmount s p) 0), (Z.geb_spec (chips p) (getCallAmount s p)),
           (Z.gtb_spec (chips p) 0), (Z.gtb_spec (getCallAmount s p) 0),
           (Z.ltb_spec (chips p) (getCallAmount s p)), (Z.eqb_spec (chips p) 0);
    try lia;
    destruct (1 <? _)%nat; destruct (tableBet s =? 0);
    destruct (chips p + currentBet p >=? bigBlind s);
    destruct (chips p + currentBet p >=? tableBet s + lastRaiseSize s `max` bigBlind s);
    destruct Ht as [-> | [-> | [-> | ->]]]; simpl; intuition congruence.
Qed.

Lemma offered_actions_are_the_accepted_ones_witness :
  (In TCheck (getValidActions state2 "a")
   ↔ validateAction state2 dealer2 (actionOf TCheck 0) = None)
  ∧ In TFold (getValidActions state2 "a").
Proof.
  apply (offered_actions_are_the_accepted_ones state2 "a" 0 dealer2 TCheck 0).
  - vm_compute. reflexivity.
  - vm_compute. reflexivity.
  - vm_compute. discriminate.
  - right. left. reflexivity.
Defined.

(** ** Scanning the seats in a circle *)

Lemma find_first {A} (f : A → bool) (l : list A) x :
  find f l = Some x →
  ∃ i, l !! i = Some x ∧ f x = true ∧ ∀ j y, (j < i)%nat → l !! j = Some y → f y = false.
Proof.
  induction l as [|a l IH]; simpl; [done|].
  destruct (f a) eqn:Ea.
  - intros [= <-]. exists 0%nat. split; [done|]. split; [done|]. intros j y Hj. lia.
  - intros H. destruct (IH H) as (i & Hi & Hx & Hfirst). exists (S i).
    split; [done|]. split; [done|]. intros [|j] y Hj Hy; simpl in Hy.
    + by injection Hy as <-.
    + apply (Hfirst j); [lia|done].
Qed.

Lemma find_is_Some {A} (f : A → bool) (l : list A) y :
  In y l → f y = true → is_Some (find f l).
Proof.
  intros Hin Hy. destruct (find f l) eqn:E; [eauto|].
  by rewrite (find_none f l E y Hin) in Hy.
Qed.

(** Every seat is met within one turn of the table. *)
Lemma seat_within_one_turn (n a i : nat) :
  (i < n)%nat → ∃ k, (1 <= k <= n)%nat ∧ ((a + k) mod n)%nat = i.
Proof.
  intros Hi.
  assert (Ha : (a mod n < n)%nat) by (apply Nat.mod_upper_bound; lia).
  assert (Hmod : ∀ k, ((a + k) mod n = (a mod n + k) mod n)%nat).
  { intros k. by rewrite Nat.Div0.add_mod_idemp_l. }
  destruct (lt_eq_lt_dec i (a mod n)) as [[Hlt|Heq]|Hgt].
  - exists (i + n - a mod n)%nat. split; [lia|]. rewrite Hmod.
    replace (a mod n + (i + n - a mod n))%nat with (i + 1 * n)%nat by lia.
    rewrite Nat.Div0.mod_add. by apply Nat.mod_small.
  - exists n. split; [lia|]. rewrite Hmod.
    replace (a mod n + n)%nat with (i + 1 * n)%nat by lia.
    rewrite Nat.Div0.mod_add. by apply Nat.mod_small.
  - exists (i - a mod n)%nat. split; [lia|]. rewrite Hmod.
    replace (a mod n + (i - a mod n))%nat with i by lia. by apply Nat.mod_small.
Qed.

Lemma lookup_circle (n j : nat) (g : nat → nat) :
  map g (seq 1 n) !! j = (if decide (j < n)%nat then Some (g (S j)) else None).
Proof.
  change (map g (seq 1 n)) with (g <$> seq 1 n). rewrite list_lookup_fmap.
  destruct (decide (j < n)%nat) as [H|H].
  - by rewrite (lookup_seq_lt _ _ _ H).
  - rewrite lookup_seq_ge by lia. done.
Qed.

Lemma eligible_seat s :
  List.filter (fun p => negb (isAllIn p)) (getPlayersStillInHand s) ≠ [] →
  ∃ i, (i < length (players s))%nat ∧ canTakeTurn s i = true.
Proof.
  intros Hne.
  destruct (List.filter _ _) as [|p l] eqn:E; [done|].
  assert (Hin : In p (List.filter (fun p => negb (isAllIn p)) (getPlayersStillInHand s)))
    by (rewrite E; by left).
  apply filter_In in Hin as [Hin Ha].
  rewrite getPlayersStillInHand_filter in Hin. apply filter_In in Hin as [Hin Hs].
  apply list_elem_of_In, list_elem_of_lookup in Hin as [i Hi].
  exists i. split; [by eapply lookup_lt_Some|].
  unfold canTakeTurn. rewrite Hi. unfold stillInHand in Hs.
  apply andb_true_iff in Hs as [Hd Hf].
  apply negb_true_iff in Hd, Hf, Ha. by rewrite Hd, Hf, Ha.
Qed.

Lemma advanceToNextPlayer_turn (s : GameState) :
  List.filter (fun p => negb (isAllIn p)) (getPlayersStillInHand s) ≠ [] →
  ∃ k, (1 <= k <= length (players s))%nat
       ∧ advanceToNextPlayer s
         = set_activePlayerIndex ((activePlayerIndex s + k) mod length (players s))%nat s
       ∧ canTakeTurn (set_activePlayerIndex
                        ((activePlayerIndex s + k) mod length (players s))%nat s)
           ((activePlayerIndex s + k) mod length (players s))%nat = true
       ∧ ∀ k', (1 <= k' < k)%nat →
           canTakeTurn s ((activePlayerIndex s + k') mod length (players s))%nat = false.
Proof.
  intros Hne. unfold advanceToNextPlayer. cbv zeta.
  destruct (List.filter _ _) as [|p0 l0] eqn:E0; [done|]. cbn [length Nat.eqb].
  assert (Hne' : List.filter (fun p => negb (isAllIn p)) (getPlayersStillInHand s) ≠ [])
    by (by rewrite E0).
  destruct (eligible_seat s Hne') as (i & Hi & Hci).
  destruct (seat_within_one_turn (length (players s)) (activePlayerIndex s) i Hi)
    as (k0 & Hk0 & Ek0).
  change (fun nextPlayerIndex : nat =>
            match players s !! nextPlayerIndex with
            | Some p => negb (isFolded p || isAllIn p || disconnected p)
            | None => false
            end) with (canTakeTurn s).
  set (g := fun k => ((activePlayerIndex s + k) mod length (players s))%nat).
  destruct (find (canTakeTurn s) (map g (seq 1 (length (players s))))) as [j|] eqn:Ef.
  + apply find_first in Ef as (pos & Hpos & Hj & Hfirst).
    rewrite lookup_circle in Hpos.
    destruct (decide (pos < length (players s))%nat) as [Hlt|]; [|done].
    injection Hpos as <-. exists (S pos). split; [lia|]. split; [done|]. split; [done|].
    intros k' Hk'. destruct k' as [|k']; [lia|].
    apply (Hfirst k' (g (S k'))); [lia|].
    rewrite lookup_circle. by rewrite decide_True by lia.
  + exfalso.
    assert (Hs : is_Some (find (canTakeTurn s) (map g (seq 1 (length (players s)))))).
    { apply (find_is_Some _ _ i); [|done].
      apply in_map_iff. exists k0. split; [done|]. apply in_seq. lia. }
    rewrite Ef in Hs. by destruct Hs.
Qed.

(** X20: when somebody still in the hand is not all-in, [advanceToNextPlayer]
    moves the turn to the first seat after the current one, going round the
    table, whose player is neither folded, all-in nor disconnected, and changes
    nothing else; when nobody is, it changes nothing. *)
Theorem advanceToNextPlayer_next_in_turn (s : GameState) :
  (List.filter (fun p => negb (isAllIn p)) (getPlayersStillInHand s) = [] →
   advanceToNextPlayer s = s)
  ∧ (List.filter (fun p => negb (isAllIn p)) (getPlayersStillInHand s) ≠ [] →
     ∃ k, (1 <= k <= length (players s))%nat
          ∧ advanceToNextPlayer s
            = set_activePlayerIndex ((activePlayerIndex s + k) mod length (players s))%nat s
          ∧ canTakeTurn s ((activePlayerIndex s + k) mod length (players s))%nat = true
          ∧ ∀ k', (1 <= k' < k)%nat →
              canTakeTurn s ((activePlayerIndex s + k') mod length (players s))%nat = false).
Proof.
  split.
  - intros E. unfold advanceToNextPlayer. by rewrite E.
  - intros Hne. destruct (advanceToNextPlayer_turn s Hne) as (k & Hk & E & Hc & Hfirst).
    exists k. done.
Qed.

Lemma connectedAhead_step ps idx fuel :
  length (connectedAhead ps idx (S fuel))
  = ((match ps !! ((idx + 1) mod length ps)%nat with
      | Some p => if disconnected p then 0 else 1
      | None => 0
      end)
     + length (connectedAhead ps ((idx + 1) mod length ps) fuel))%nat.
Proof.
  unfold connectedAhead. change (seq 1 (S fuel)) with (1%nat :: seq 2 fuel).
  cbn [List.filter].
  assert (E : length (List.filter
                (fun k => match ps !! ((idx + k) mod length ps)%nat with
                          | Some p => negb (disconnected p)
                          | None => false
                          end) (seq 2 fuel))
              = length (List.filter
                  (fun k => match ps !! (((idx + 1) mod length ps + k) mod length ps)%nat with
                            | Some p => negb (disconnected p)
                            | None => false
                            end) (seq 1 fuel))).
  { rewrite <- (seq_shift fuel 1). rewrite filter_map_length.
    f_equal. apply filter_ext. intros k.
    rewrite Nat.Div0.add_mod_idemp_l. by replace (idx + S k)%nat with (idx + 1 + k)%nat by lia. }
  rewrite <- E.
  destruct (ps !! ((idx + 1) mod length ps)%nat) as [p|]; [|done].
  destruct (disconnected p); simpl; lia.
Qed.

Lemma seekBigBlind_found (ps : list Player) (fuel : nat) : ∀ idx seen,
  (0 < length ps)%nat →
  (2 <= seen + length (connectedAhead ps idx fuel))%nat →
  is_Some (seekBigBlind fuel ps idx seen).
Proof.
  induction fuel as [|fuel IH]; intros idx seen Hn H.
  - cbn [seekBigBlind]. unfold connectedAhead in H. cbn [seq List.filter length] in H.
    destruct (Nat.leb_spec 2 seen); [eauto|lia].
  - cbn [seekBigBlind]. destruct (Nat.leb_spec 2 seen); [eauto|].
    rewrite connectedAhead_step in H.
    assert (Hlt : ((idx + 1) mod length ps < length ps)%nat)
      by (apply Nat.mod_upper_bound; lia).
    destruct (lookup_lt_is_Some_2 ps _ Hlt) as [p Hp]. rewrite Hp in *.
    apply IH; [done|]. destruct (disconnected p); lia.
Qed.

Lemma connectedAhead_two_turns ps idx :
  List.filter connected ps ≠ [] → (2 <= length (connectedAhead ps idx (2 * length ps)))%nat.
Proof.
  intros Hne. destruct (List.filter connected ps) as [|p l] eqn:E; [done|].
  assert (Hin : In p (List.filter connected ps)) by (rewrite E; by left).
  apply filter_In in Hin as [Hin Hc].
  apply list_elem_of_In, list_elem_of_lookup in Hin as [i Hi].
  assert (Hlt : (i < length ps)%nat) by (by eapply lookup_lt_Some).
  destruct (seat_within_one_turn (length ps) idx i Hlt) as (k & Hk & Ek).
  assert (Hsub : [k; (k + length ps)%nat] ⊆+ connectedAhead ps idx (2 * length ps)).
  { apply NoDup_submseteq.
    - apply NoDup_cons. split; [|apply NoDup_singleton].
      intros Hx. apply list_elem_of_singleton in Hx. lia.
    - intros x Hx. apply list_elem_of_In. apply filter_In.
      assert (Ex : ((idx + x) mod length ps)%nat = i).
      { apply elem_of_cons in Hx as [->|Hx]; [done|].
        apply list_elem_of_singleton in Hx as ->.
        replace (idx + (k + length ps))%nat with (idx + k + 1 * length ps)%nat by lia.
        by rewrite Nat.Div0.mod_add. }
      split.
      + apply in_seq. apply elem_of_cons in Hx as [->|Hx]; [lia|].
        apply list_elem_of_singleton in Hx as ->. lia.
      + rewrite Ex, Hi. exact Hc. }
  apply submseteq_length in Hsub. cbn [length] in Hsub. lia.
Qed.

Lemma setFirstPlayerToAct_succeeds s :
  getActivePlayers s ≠ [] →
  ∃ j, setFirstPlayerToAct s = Done (set_activePlayerIndex j s).
Proof.
  intros Hne. unfold setFirstPlayerToAct. cbv zeta.
  destruct (_ =? 2)%nat; [eauto|].
  assert (Hn : (0 < length (players s))%nat).
  { unfold getActivePlayers in Hne. destruct (players s); [done|simpl; lia]. }
  destruct (seekBigBlind_found (players s) (2 * length (players s)) (dealerPosition s) 0 Hn)
    as [idx ->].
  { pose proof (connectedAhead_two_turns (players s) (dealerPosition s) Hne). lia. }
  destruct (find _ _); eauto.
Qed.

Lemma seats_alter (f : Player → Player) i (l : list Player) :
  (∀ p, seatOf (f p) = seatOf p) → map seatOf (alter f i l) = map seatOf l.
Proof. intros H. by apply map_alter_invariant. Qed.

Lemma seats_connected (l l' : list Player) :
  map seatOf l' = map seatOf l →
  indices_where connected l' = indices_where connected l
  ∧ length (List.filter connected l') = length (List.filter connected l)
  ∧ length l' = length l.
Proof.
  intros E.
  assert (Hc : map connected l' = map connected l).
  { assert (H : ∀ k, map connected k = map (fun t => negb (snd t)) (map seatOf k))
      by (intros k; by rewrite map_map).
    by rewrite (H l'), (H l), E. }
  assert (Hi : indices_where connected l' = indices_where connected l).
  { assert (H : ∀ k : list Player,
              indices_where connected k = indices_where (fun b : bool => b) (map connected k))
      by (intros k; unfold indices_where; by rewrite indices_from_map).
    by rewrite (H l'), (H l), Hc. }
  split; [done|]. split.
  - by rewrite <- !indices_where_length, Hi.
  - by rewrite <- (length_map connected l'), Hc, length_map.
Qed.

Lemma dealt_seats (l : list (nat * list Card)) : ∀ s,
  let s' := foldl (fun s ih => upd_player (fst ih) (set_holeCards (snd ih)) s) s l in
  s' = set_players (players s') s ∧ map seatOf (players s') = map seatOf (players s).
Proof.
  induction l as [|[i h] l IH]; intros s; simpl.
  - split; [by destruct s|done].
  - destruct (IH (upd_player i (set_holeCards h) s)) as [E1 E2]. split.
    + rewrite E1 at 1. done.
    + rewrite E2. unfold upd_player. simpl. by apply seats_alter.
Qed.

Lemma postBlinds_frame s s' :
  postBlinds s = Done s' →
  deck s' = deck s ∧ communityCards s' = communityCards s
  ∧ currentBettingRound s' = currentBettingRound s ∧ handComplete s' = handComplete s
  ∧ map seatOf (players s') = map seatOf (players s).
Proof.
  unfold postBlinds. destruct (_ <? 2)%nat; [done|]. cbv zeta.
  destruct (activeIndices s !! _) as [sb|]; [|done].
  destruct (activeIndices s !! _) as [bb|]; [|done].
  intros [= <-]. cbn [deck communityCards currentBettingRound handComplete players
                      upd_player set_players set_pot set_tableBet set_lastRaiseSize].
  repeat split.
  rewrite !seats_alter; try done.
  all: intros p; unfold seatOf, markAllInIfBroke; by destruct (chips p =? 0).
Qed.

Lemma postBlinds_outcome s :
  match postBlinds s with
  | Done _ => (2 <= length (getActivePlayers s))%nat
  | Throw e s' => e = NeedTwoPlayers ∧ (length (getActivePlayers s) < 2)%nat ∧ s' = s
  end.
Proof.
  unfold postBlinds. unfold activeIndices. rewrite indices_where_length.
  fold (getActivePlayers s).
  destruct (Nat.ltb_spec (length (getActivePlayers s)) 2) as [H|H]; [done|].
  cbv zeta.
  assert (Hlen : length (indices_where connected (players s)) = length (getActivePlayers s))
    by apply indices_where_length.
  destruct (lookup_lt_is_Some_2 (indices_where connected (players s))
              ((dealerPosition s + 1) mod length (getActivePlayers s))%nat) as [sb ->].
  { rewrite Hlen. apply Nat.mod_upper_bound. lia. }
  destruct (lookup_lt_is_Some_2 (indices_where connected (players s))
              ((dealerPosition s + 2) mod length (getActivePlayers s))%nat) as [bb ->].
  { rewrite Hlen. apply Nat.mod_upper_bound. lia. }
  done.
Qed.

Lemma getActivePlayers_length s :
  length (getActivePlayers s) = length (List.filter connected (players s)).
Proof. done. Qed.

Lemma dealHoleCards_outcome s :
  match dealHoleCards s with
  | Done s' =>
      (2 * length (getActivePlayers s) <= length (deck s))%nat
      ∧ deck s' = drop (2 * length (getActivePlayers s)) (deck s)
      ∧ map seatOf (players s') = map seatOf (players s)
      ∧ communityCards s' = communityCards s
      ∧ currentBettingRound s' = currentBettingRound s
      ∧ handComplete s' = handComplete s
  | Throw e s' =>
      e = CannotDeal ∧ (length (deck s) < 2 * length (getActivePlayers s))%nat ∧ s' = s
  end.
Proof.
  unfold dealHoleCards.
  assert (Ec : length (activeIndices s) = length (getActivePlayers s))
    by apply indices_where_length.
  pose proof (dealHoleCards_round_robin_total (deck s) (length (activeIndices s)) 2) as Hd.
  destruct (deck_dealHoleCards (deck s) (length (activeIndices s)) 2) as [[hands deck']|e].
  - destruct Hd as (Hd1 & -> & _).
    destruct (dealt_seats (zip (activeIndices s) hands)
                (set_deck (drop (length (activeIndices s) * 2) (deck s)) s)) as [E1 E2].
    split; [lia|]. split; [|split; [exact E2|]]; rewrite E1.
    + cbn [deck set_players set_deck]. f_equal. lia.
    + done.
  - destruct Hd as [-> Hd]. split; [done|]. split; [lia|done].
Qed.

Lemma blinds_and_turn_outcome (s1 : GameState) :
  match (let* s := postBlinds s1 in setFirstPlayerToAct s) with
  | Done s' =>
      (2 <= length (getActivePlayers s1))%nat
      ∧ deck s' = deck s1 ∧ communityCards s' = communityCards s1
      ∧ currentBettingRound s' = currentBettingRound s1
      ∧ handComplete s' = handComplete s1
      ∧ map seatOf (players s') = map seatOf (players s1)
  | Throw e s' => e = NeedTwoPlayers ∧ (length (getActivePlayers s1) < 2)%nat ∧ s' = s1
  end.
Proof.
  pose proof (postBlinds_outcome s1) as Hp.
  destruct (postBlinds s1) as [s2|e s2] eqn:Ep; [|exact Hp].
  cbn [and_then].
  apply postBlinds_frame in Ep as (Ed2 & Ecc & Er & Eh & Es).
  destruct (seats_connected _ _ Es) as (_ & Hc2 & _).
  destruct (setFirstPlayerToAct_succeeds s2) as [j ->].
  { unfold getActivePlayers in *.
    destruct (List.filter connected (players s2)); [simpl in Hc2; lia|done]. }
  cbn [currentBettingRound communityCards handComplete deck players set_activePlayerIndex].
  done.
Qed.

(** X21: [startNewHand] throws when the deck cannot give two cards to every
    connected player, and then has changed only what [resetHandState] resets;
    it throws when fewer than two players are connected, after the cards were
    dealt; in every other case it starts the hand: the round is the preflop,
    the board is empty, the hand is not complete, the deck has lost two cards
    for each connected player, and nobody has left or joined. *)
Theorem startNewHand_outcome (shuffled : list Card) (s : GameState) :
  match startNewHand shuffled s with
  | Done s' =>
      (2 <= length (getActivePlayers s))%nat
      ∧ (2 * length (getActivePlayers s) <= length shuffled)%nat
      ∧ currentBettingRound s' = PREFLOP ∧ communityCards s' = []
      ∧ handComplete s' = false
      ∧ deck s' = drop (2 * length (getActivePlayers s)) shuffled
      ∧ map playerId (players s') = map playerId (players s)
  | Throw e s' =>
      (e = CannotDeal ∧ (length shuffled < 2 * length (getActivePlayers s))%nat
       ∧ s' = set_deck shuffled (resetHandState s))
      ∨ (e = NeedTwoPlayers ∧ (length (getActivePlayers s) < 2)%nat
         ∧ deck s' = drop (2 * length (getActivePlayers s)) shuffled)
  end.
Proof.
  assert (Hreset : map seatOf (players (set_deck shuffled (resetHandState s)))
                   = map seatOf (players s)).
  { unfold resetHandState. cbn [players set_players set_deck]. by apply map_imap_free. }
  assert (Hid : ∀ k, map playerId k = map fst (map seatOf k))
    by (intros k; by rewrite map_map).
  unfold startNewHand. cbv zeta.
  pose proof (dealHoleCards_outcome (set_deck shuffled (resetHandState s))) as Hd.
  destruct (seats_connected _ _ Hreset) as (_ & Hac & _).
  rewrite <- !getActivePlayers_length in Hac.
  destruct (dealHoleCards (set_deck shuffled (resetHandState s))) as [s1|e s1].
  2: { destruct Hd as (He & Hd & Hs). left. rewrite Hac in Hd.
       split; [exact He|]. split; [exact Hd|exact Hs]. }
  destruct Hd as (Hd1 & Hd2 & Hd3 & Hd4 & Hd5 & Hd6).
  rewrite Hac in Hd1, Hd2.
  cbn [and_then].
  pose proof (blinds_and_turn_outcome s1) as Hb.
  rewrite Hreset in Hd3.
  destruct (seats_connected _ _ Hd3) as (_ & Hc1 & _).
  rewrite <- !getActivePlayers_length in Hc1.
  destruct (let* s := postBlinds s1 in setFirstPlayerToAct s) as [s'|e s'].
  - destruct Hb as (Hb1 & Hb2 & Hb3 & Hb4 & Hb5 & Hb6).
    rewrite Hc1 in Hb1.
    split; [exact Hb1|]. split; [exact Hd1|].
    rewrite Hb4, Hb3, Hb5, Hb2, Hd5, Hd4, Hd6, Hd2.
    split; [reflexivity|]. split; [reflexivity|]. split; [reflexivity|].
    split; [reflexivity|].
    by rewrite (Hid (players s')), Hb6, Hd3, <- Hid.
  - destruct Hb as (He & Hb & Hs). right. rewrite Hc1 in Hb.
    split; [exact He|]. split; [exact Hb|]. rewrite Hs. exact Hd2.
Qed.

(** ** A bet or a raise reopens the betting *)

Lemma filter_two {A} (f : A → bool) (l : list A) i k a b :
  i ≠ k → l !! i = Some a → l !! k = Some b → f a = true → f b = true →
  (2 <= length (List.filter f l))%nat.
Proof.
  revert i k. induction l as [|x l IH]; intros i k Hik Hi Hk Ha Hb; [done|].
  assert (Hone : ∀ j c, l !! j = Some c → f c = true → (1 <= length (List.filter f l))%nat).
  { intros j c Hj Hc.
    assert (Hin : In c (List.filter f l)).
    { apply filter_In. split; [|done]. apply list_elem_of_In, list_elem_of_lookup. eauto. }
    destruct (List.filter f l); [done|simpl; lia]. }
  destruct i as [|i], k as [|k]; simpl in *; try done.
  - injection Hi as ->. rewrite Ha. simpl. pose proof (Hone k b Hk Hb). lia.
  - injection Hk as ->. rewrite Hb. simpl. pose proof (Hone i a Hi Ha). lia.
  - assert (H : (2 <= length (List.filter f l))%nat) by (apply (IH i k); congruence || done).
    destruct (f x); simpl; lia.
Qed.

Lemma acted_bet_players s i p action amount :
  action = ActBet amount ∨ action = ActRaise amount →
  players (acted s i p action)
  = alter (set_hasActed true) i
      (alter markAllInIfBroke i
         (map (reopened (playerId p))
            (alter (fun q => set_totalBet (totalBet q + (amount - currentBet p))
                               (set_currentBet amount
                                  (set_chips (chips q - (amount - currentBet p)) q))) i
               (players s))))
  ∧ currentBettingRound (acted s i p action) = currentBettingRound s
  ∧ tableBet (acted s i p action) = amount.
Proof. intros [->| ->]; done. Qed.

(** X22: when a bet or a raise is accepted while another player, neither
    folded, all-in nor disconnected, is in the hand, the hand goes on in the same
    round: the table bet is the amount, that other player has to act again,
    and the turn moves to the next player who can act. *)
Theorem bet_or_raise_reopens_the_betting (s : GameState) (pid : string) (i : nat) (p : Player)
    (action : PlayerAction) (amount : Z) (k : nat) (q : Player) :
  action = ActBet amount ∨ action = ActRaise amount →
  findPlayerById s pid = Some (i, p) → isPlayersTurn s pid = true →
  validateAction s p action = None →
  disconnected p = false → currentBettingRound s ≠ SHOWDOWN →
  players s !! k = Some q → playerId q ≠ pid →
  isFolded q = false → isAllIn q = false → disconnected q = false →
  ∃ s',
    processPlayerAction s pid action = Done s'
    ∧ s' = advanceToNextPlayer (acted s i p action)
    ∧ currentBettingRound s' = currentBettingRound s
    ∧ tableBet s' = amount
    ∧ players s' !! k = Some (set_hasActed false q)
    ∧ canTakeTurn s' (activePlayerIndex s') = true.
Proof.
  intros Hact Hf Ht Hv Hdp Hround Hk Hqid Hqf Hqa Hqd.
  assert (Hfind := Hf). apply list_find_Some in Hfind as (Hi & Hpid & _).
  assert (Hik : i ≠ k).
  { intros ->. rewrite Hi in Hk. injection Hk as <-. done. }
  destruct (acted_bet_players s i p action amount Hact) as (Hps & Hr & Htb).
  assert (Hpf : isFolded p = false ∧ isAllIn p = false).
  { unfold validateAction in Hv. destruct (isFolded p); [done|]. by destruct (isAllIn p). }
  destruct Hpf as [Hpf Hpa].
  (* the other player after the action *)
  assert (Hk1 : players (acted s i p action) !! k = Some (set_hasActed false q)).
  { rewrite Hps. rewrite !list_lookup_alter_ne by done.
    change (map (reopened (playerId p)) ?l) with (reopened (playerId p) <$> l).
    rewrite list_lookup_fmap, list_lookup_alter_ne by done. rewrite Hk. simpl.
    unfold reopened. rewrite Hqf, Hqa, Hqd, Hpid.
    by rewrite bool_decide_eq_false_2 by done. }
  (* the player who acted *)
  assert (Hi1 : ∃ p', players (acted s i p action) !! i = Some p'
                      ∧ isFolded p' = false ∧ disconnected p' = false).
  { rewrite Hps. rewrite !list_lookup_alter_eq.
    change (map (reopened (playerId p)) ?l) with (reopened (playerId p) <$> l).
    rewrite list_lookup_fmap, list_lookup_alter_eq, Hi. simpl.
    eexists. split; [done|].
    unfold reopened, markAllInIfBroke. simpl.
    rewrite bool_decide_eq_true_2 by done. simpl.
    destruct (_ =? 0); simpl; done. }
  destruct Hi1 as (p' & Hi1 & Hpf' & Hpd').
  remember (acted s i p action) as s1 eqn:Es1.
  assert (Hin2 : (2 <= length (getPlayersStillInHand s1))%nat).
  { rewrite getPlayersStillInHand_filter.
    apply (filter_two stillInHand _ i k p' (set_hasActed false q)); try done.
    - unfold stillInHand. by rewrite Hpf', Hpd'.
    - unfold stillInHand. simpl. by rewrite Hqf, Hqd. }
  assert (Hq1 : In (set_hasActed false q)
                  (List.filter (fun p => negb (isAllIn p)) (getPlayersStillInHand s1))).
  { apply filter_In. split; [|simpl; by rewrite Hqa].
    rewrite getPlayersStillInHand_filter. apply filter_In. split.
    - apply list_elem_of_In, list_elem_of_lookup. eauto.
    - unfold stillInHand. simpl. by rewrite Hqf, Hqd. }
  assert (Hne : List.filter (fun p => negb (isAllIn p)) (getPlayersStillInHand s1) ≠ []).
  { intros E. by rewrite E in Hq1. }
  assert (Hhc : isHandComplete s1 = false).
  { unfold isHandComplete. destruct (Nat.leb_spec (length (getPlayersStillInHand s1)) 1); [lia|].
    rewrite Hr. by apply bool_decide_eq_false_2. }
  assert (Hbc : isBettingRoundComplete s1 = false).
  { unfold isBettingRoundComplete. cbv zeta.
    destruct (Nat.leb_spec (length (getPlayersStillInHand s1)) 1); [lia|].
    destruct (List.filter _ _) as [|x l] eqn:E; [done|]. cbn [length Nat.eqb].
    apply andb_false_iff. left.
    apply not_true_is_false. intros Hall. rewrite forallb_forall in Hall.
    by specialize (Hall _ Hq1). }
  exists (advanceToNextPlayer s1).
  split.
  { unfold processPlayerAction. rewrite Hf, Ht, Hv. cbn [negb]. cbv zeta.
    fold (acted s i p action). rewrite <- Es1. rewrite Hhc, Hbc.
    destruct (List.filter _ _) as [|x l] eqn:E; [done|]. done. }
  split; [done|].
  destruct (advanceToNextPlayer_turn s1 Hne) as (t & _ & -> & Hc & _).
  cbn [currentBettingRound tableBet players activePlayerIndex set_activePlayerIndex].
  split; [done|]. split; [done|]. split; [done|].
  exact Hc.
Qed.

Lemma bet_or_raise_reopens_the_betting_witness :
  ∃ s',
    processPlayerAction state2 "a" (ActRaise 20) = Done s'
    ∧ s' = advanceToNextPlayer (acted state2 0 dealer2 (ActRaise 20))
    ∧ currentBettingRound s' = currentBettingRound state2
    ∧ tableBet s' = 20
    ∧ players s' !! 1%nat = Some (set_hasActed false other2)
    ∧ canTakeTurn s' (activePlayerIndex s') = true.
Proof.
  apply (bet_or_raise_reopens_the_betting state2 "a" 0 dealer2 (ActRaise 20) 20 1 other2).
  - right. reflexivity.
  - vm_compute. reflexivity.
  - vm_compute. reflexivity.
  - vm_compute. reflexivity.
  - vm_compute. reflexivity.
  - vm_compute. discriminate.
  - vm_compute. reflexivity.
  - vm_compute. discriminate.
  - vm_compute. reflexivity.
  - vm_compute. reflexivity.
  - vm_compute. reflexivity.
Defined.

(** ** Between two hands *)

Lemma omap_total {A B} (f : A → option B) (xs : list A) :
  (∀ x, In x xs → is_Some (f x)) →
  Forall2 (fun y x => f x = Some y) (omap f xs) xs.
Proof.
  induction xs as [|x xs IH]; intros H; simpl; [constructor|].
  destruct (H x) as [y Hy]; [by left|]. rewrite Hy. constructor; [done|].
  apply IH. intros z Hz. apply H. by right.
Qed.

Lemma same_id_same_player (l : list Player) a b :
  NoDup (map playerId l) → In a l → In b l → playerId a = playerId b → a = b.
Proof.
  intros Hnd Ha Hb E.
  apply list_elem_of_In, list_elem_of_lookup in Ha as [i Hi].
  apply list_elem_of_In, list_elem_of_lookup in Hb as [j Hj].
  change (map playerId l) with (playerId <$> l) in Hnd.
  assert (i = j).
  { eapply (NoDup_lookup _ i j (playerId a) Hnd).
    - by rewrite list_lookup_fmap, Hi.
    - by rewrite list_lookup_fmap, Hj, E. }
  subst. congruence.
Qed.

(** X23: [prepareNextHand] removes the players without chips, keeps the
    others in their order and counts the hand.  The button is left on a
    seat of the new table; when the ids are distinct and not empty, it is on
    the first player with chips met going round the old table from the seat
    after the old button. *)
Theorem prepareNextHand_moves_the_button (s : GameState) :
  let n := length (players s) in
  let s' := prepareNextHand s in
  players s' = List.filter (fun p => chips p >? 0) (players s)
  ∧ handNumber s' = handNumber s + 1
  ∧ (players s' = [] → dealerPosition s' = 0%nat)
  ∧ (players s' ≠ [] → (dealerPosition s' < length (players s'))%nat)
  ∧ (NoDup (map playerId (players s)) → ¬ In EmptyString (map playerId (players s)) →
     players s' ≠ [] →
     ∃ k q, (k < n)%nat
            ∧ players s !! ((dealerPosition s + 1 + k) mod n)%nat = Some q
            ∧ 0 < chips q
            ∧ (∀ k' q', (k' < k)%nat →
                 players s !! ((dealerPosition s + 1 + k') mod n)%nat = Some q' →
                 chips q' <= 0)
            ∧ players s' !! dealerPosition s' = Some q).
Proof.
  cbv zeta. unfold prepareNextHand. cbv zeta.
  set (n := length (players s)).
  set (remaining := List.filter (fun p => chips p >? 0) (players s)).
  set (scan := omap (fun i => players s !! (((dealerPosition s + 1) mod n + i) mod n)%nat)
                 (seq 0 n)).
  destruct (Nat.eqb_spec (length remaining) 0) as [E0|E0].
  { assert (Er : remaining = []) by (by destruct remaining).
    cbn [players handNumber dealerPosition set_players set_handNumber set_dealerPosition].
    rewrite Er. repeat split; try done. }
  cbn [players handNumber dealerPosition set_players set_handNumber set_dealerPosition].
  assert (Hne : remaining ≠ []) by (intros Er; by rewrite Er in E0).
  split; [done|]. split; [done|]. split; [done|]. split.
  - intros _. destruct (find _ scan) as [q|]; simpl; [|lia].
    destruct (bool_decide _); simpl; [lia|].
    destruct (list_find _ remaining) as [[j q']|] eqn:Ej; simpl; [|lia].
    apply list_find_Some in Ej as (Hj & _). by eapply lookup_lt_Some.
  - intros Hnd Hempty _.
    assert (Hn : (0 < n)%nat).
    { unfold n. subst remaining. destruct (players s); [done|simpl; lia]. }
    assert (Hscan : Forall2 (fun y i => players s !! (((dealerPosition s + 1) mod n + i) mod n)%nat
                                        = Some y) scan (seq 0 n)).
    { apply omap_total. intros i _. apply lookup_lt_is_Some_2.
      apply Nat.mod_upper_bound. lia. }
    assert (Hmod : ∀ i, (((dealerPosition s + 1) mod n + i) mod n
                         = (dealerPosition s + 1 + i) mod n)%nat).
    { intros i. by rewrite Nat.Div0.add_mod_idemp_l. }
    (* somebody in the scan has chips *)
    destruct remaining as [|r0 rest] eqn:Er; [done|].
    assert (Hr0 : In r0 (List.filter (fun p => chips p >? 0) (players s)))
      by (fold remaining; rewrite Er; by left).
    apply filter_In in Hr0 as [Hr0 Hc0].
    apply list_elem_of_In, list_elem_of_lookup in Hr0 as [i0 Hi0].
    destruct (seat_within_one_turn n (dealerPosition s) i0) as (k0 & Hk0 & Ek0).
    { by eapply lookup_lt_Some. }
    assert (Hin0 : In r0 scan).
    { destruct (Forall2_lookup_r _ _ _ (k0 - 1)%nat (k0 - 1)%nat Hscan) as (y & Hy & Hy').
      { apply lookup_seq. lia. }
      rewrite Hmod in Hy'.
      replace (dealerPosition s + 1 + (k0 - 1))%nat with (dealerPosition s + k0)%nat in Hy' by lia.
      rewrite Ek0, Hi0 in Hy'. injection Hy' as <-.
      apply list_elem_of_In, list_elem_of_lookup. eauto. }
    destruct (find_is_Some (fun p => chips p >? 0) scan r0 Hin0 Hc0) as [q Hq].
    rewrite Hq. cbn [fmap option_fmap option_map].
    apply find_first in Hq as (pos & Hpos & Hcq & Hfirst).
    destruct (Forall2_lookup_l _ _ _ pos q Hscan Hpos) as (i & Hi & Hqi).
    apply lookup_seq in Hi as [-> Hposn]. rewrite Hmod in Hqi. simpl in Hqi.
    assert (Hqin : In q (players s)).
    { apply list_elem_of_In, list_elem_of_lookup. eauto. }
    rewrite bool_decide_eq_false_2.
    2: { intros E. apply Hempty. rewrite <- E. by apply in_map. }
    assert (Hqr : In q (r0 :: rest)).
    { rewrite <- Er. apply filter_In. done. }
    destruct (list_find (fun p => playerId p = playerId q) (r0 :: rest)) as [[j q']|] eqn:Ej.
    2: { exfalso. apply list_find_None in Ej. rewrite Forall_forall in Ej.
         apply (Ej q); [by apply list_elem_of_In|done]. }
    apply list_find_Some in Ej as (Hj & Hid & _).
    assert (q' = q) as ->.
    { apply (same_id_same_player (players s)); try done.
      assert (Hin' : In q' (List.filter (fun p => chips p >? 0) (players s))).
      { fold remaining. rewrite Er. apply list_elem_of_In, list_elem_of_lookup. eauto. }
      by apply filter_In in Hin' as [? _]. }
    exists pos, q. split; [done|]. split; [done|]. split; [lia|]. split; [|done].
    intros k' q' Hk' Hq'.
    destruct (Forall2_lookup_r _ _ _ k' k' Hscan) as (y & Hy & Hy').
    { apply lookup_seq. lia. }
    rewrite Hmod, Hq' in Hy'. injection Hy' as <-.
    specialize (Hfirst k' q' Hk' Hy). lia.
Qed.

(** *** The settlement ends the hand and leaves the board *)










(** *** What an action and a street do to the cards *)







Lemma setFirstPlayerPostFlop_seat s :
  ∃ k, setFirstPlayerPostFlop s = set_activePlayerIndex k s.
Proof.
  unfold setFirstPlayerPostFlop. destruct (_ =? 0)%nat.
  - exists (activePlayerIndex s). by destruct s.
  - by eexists.
Qed.




(** *** The deal *)










(** *** The cards through a hand *)






(** ** Folding to the last player *)

Lemma filter_all {A} (f : A → bool) (l : list A) :
  Forall (fun x => f x = true) l → List.filter f l = l.
Proof. induction 1 as [|x l Hx _ IH]; simpl; [done|]. by rewrite Hx, IH. Qed.

(** The positions that satisfy [f] once the element at position [i] no longer
    does. *)
Lemma indices_from_alter_false {A} (f : A → bool) (g : A → A) (l : list A) :
  (∀ x, f (g x) = false) →
  ∀ start i,
    indices_from start f (alter g i l)
    = List.filter (fun j => negb (j =? start + i)%nat) (indices_from start f l).
Proof.
  intros Hg. induction l as [|x l IH]; intros start [|i]; try done.
  - change (alter g 0%nat (x :: l)) with (g x :: l). cbn [indices_from]. rewrite Hg.
    assert (Hrest : List.filter (fun j => negb (j =? start + 0)%nat)
                      (indices_from (S start) f l) = indices_from (S start) f l).
    { apply filter_all. destruct (indices_from_spec f l (S start)) as [_ Hr].
      eapply Forall_impl; [exact Hr|]. intros j Hj. simpl in Hj.
      apply negb_true_iff, Nat.eqb_neq. lia. }
    destruct (f x); cbn [List.filter]; [|done].
    replace (start =? start + 0)%nat with true by (symmetry; apply Nat.eqb_eq; lia).
    done.
  - change (alter g (S i) (x :: l)) with (x :: alter g i l). cbn [indices_from].
    rewrite (IH (S start) i).
    replace (S start + i)%nat with (start + S i)%nat by lia.
    destruct (f x); cbn [List.filter]; [|done].
    replace (start =? start + S i)%nat with false by (symmetry; apply Nat.eqb_neq; lia).
    done.
Qed.

(** X26: when the player to act folds and one other player is left in the
    hand, the action is accepted and ends the hand without a showdown: that
    player is the only winner and is paid the whole pot, no card is added to
    the board, and the players left without chips are removed. *)
Theorem folding_to_one_player (s : GameState) (pid : string) (i w : nat) (p pw : Player) :
  findPlayerById s pid = Some (i, p) → isPlayersTurn s pid = true →
  isFolded p = false → isAllIn p = false →
  List.filter (fun j => negb (j =? i)%nat) (inHandIndices s) = [w] →
  players s !! w = Some pw →
  ∃ s', processPlayerAction s pid ActFold = Done s'
        ∧ winners s' = [(playerId pw, pot s)]
        ∧ handComplete s' = true
        ∧ communityCards s' = communityCards s
        ∧ players s'
          = List.filter (fun q => chips q >? 0)
              (alter (fun q => set_chips (chips q + pot s) q) w
                 (alter (fun q => set_hasActed true (set_isFolded true q)) i (players s))).
Proof.
  intros Hf Ht Hnf Hna Hrest Hw.
  assert (Hwi : w ≠ i).
  { intros ->. assert (Hin : In i [i]) by (simpl; auto).
    rewrite <- Hrest in Hin. apply filter_In in Hin as [_ Hin].
    by rewrite Nat.eqb_refl in Hin. }
  unfold processPlayerAction. rewrite Hf, Ht. cbn [negb].
  unfold validateAction. rewrite Hnf, Hna. cbv zeta.
  fold (acted s i p ActFold).
  assert (Hp : players (acted s i p ActFold)
               = alter (fun q => set_hasActed true (set_isFolded true q)) i (players s)).
  { unfold acted. simpl.
    apply (list_alter_alter_eq (set_hasActed true) (set_isFolded true)). }
  assert (Hin : inHandIndices (acted s i p ActFold) = [w]).
  { unfold inHandIndices, indices_where. rewrite Hp.
    rewrite (indices_from_alter_false stillInHand _ (players s)).
    - exact Hrest.
    - intros x. unfold stillInHand. simpl. apply andb_false_r. }
  assert (Hpot : pot (acted s i p ActFold) = pot s) by done.
  assert (Hcc : communityCards (acted s i p ActFold) = communityCards s) by done.
  remember (acted s i p ActFold) as s1 eqn:Es1. clear Es1.
  unfold isHandComplete. rewrite <- inHand_length, Hin. cbn [length Nat.leb].
  unfold completeHand. cbv zeta.
  change (inHandIndices (set_handComplete true s1)) with (inHandIndices s1).
  rewrite Hin. cbn [and_then].
  eexists. split; [reflexivity|].
  assert (Hw1 : players s1 !! w = Some pw).
  { rewrite Hp, list_lookup_alter_ne by done. exact Hw. }
  unfold prepareNextHand. cbv zeta.
  destruct (_ =? 0)%nat; cbn; rewrite Hw1, Hpot, Hp; repeat split; done.
Qed.

Lemma folding_to_one_player_witness :
  ∃ s', processPlayerAction state2 "a" ActFold = Done s'
        ∧ winners s' = [("b"%string, pot state2)]
        ∧ handComplete s' = true
        ∧ communityCards s' = communityCards state2
        ∧ players s'
          = List.filter (fun q => chips q >? 0)
              (alter (fun q => set_chips (chips q + pot state2) q) 1%nat
                 (alter (fun q => set_hasActed true (set_isFolded true q)) 0%nat
                    (players state2))).
Proof.
  apply (folding_to_one_player state2 "a" 0 1
           dealer2 other2).
  - vm_compute. reflexivity.
  - vm_compute. reflexivity.
  - vm_compute. reflexivity.
  - vm_compute. reflexivity.
  - vm_compute. reflexivity.
  - vm_compute. reflexivity.
Defined.

Lemma burnAndDeal_outcome count s :
  match burnAndDeal count s with
  | Done s' =>
      (1 + count <= length (deck s))%nat
      ∧ s' = set_communityCards (communityCards s ++ take count (drop 1 (deck s)))
               (set_deck (drop count (drop 1 (deck s))) s)
  | Throw e s' =>
      e = CannotDeal ∧ (length (deck s) < 1 + count)%nat ∧ players s' = players s
  end.
Proof.
  unfold burnAndDeal, dealCards.
  destruct (Nat.ltb_spec (length (deck s)) 1) as [H1|H1]; [split; [done|split; [lia|done]]|].
  cbn [deck set_deck].
  destruct (Nat.ltb_spec (length (drop 1 (deck s))) count) as [H2|H2];
    rewrite length_drop in H2.
  - split; [done|]. split; [lia|done].
  - split; [lia|]. by destruct s.
Qed.

Lemma setFirstPlayerPostFlop_next_seat (s : GameState) (p : Player) :
  players s !! ((dealerPosition s + 1) mod length (players s))%nat = Some p →
  canStillAct p = true →
  setFirstPlayerPostFlop s
  = set_activePlayerIndex ((dealerPosition s + 1) mod length (players s))%nat s.
Proof.
  intros Hp Hc. unfold setFirstPlayerPostFlop. cbv zeta.
  assert (Hin : In p (List.filter (fun p => negb (isAllIn p)) (getPlayersStillInHand s))).
  { unfold canStillAct, stillInHand in Hc.
    apply andb_true_iff in Hc as [Hc1 Hc3]. apply andb_true_iff in Hc1 as [Hc1 Hc2].
    apply filter_In. split; [|done].
    unfold getPlayersStillInHand, getActivePlayers.
    apply filter_In. split; [|done]. apply filter_In. split; [|done].
    apply list_elem_of_In. by eapply list_elem_of_lookup_2. }
  destruct (List.filter _ (getPlayersStillInHand s)) as [|q l]; [done|].
  cbn [length Nat.eqb seq map find]. rewrite Hp.
  unfold canStillAct, stillInHand in Hc.
  apply andb_true_iff in Hc as [Hc1 Hc3]. apply andb_true_iff in Hc1 as [_ Hc2].
  rewrite Hc2, Hc3. done.
Qed.

(** X27: a street that [advanceBettingRound] opens starts clean.  Before the
    river it fails only when the deck cannot give the burnt card and the
    cards of the street, and even then has cleared the bets of the round.
    Otherwise the next street is on, with its cards added to the board;
    every player's bet of the round is zero and nobody has acted, the table
    bet is zero, the pot is untouched; the seat after the button acts first
    when its player can act, and the turn stays where it was when nobody
    can. *)
Theorem new_street_starts_clean (s : GameState) :
  currentBettingRound s = PREFLOP ∨ currentBettingRound s = FLOP
  ∨ currentBettingRound s = TURN →
  let count := streetCards (currentBettingRound s) in
  let cleared := map (fun player => set_currentBet 0 (set_hasActed false player)) (players s) in
  let next := ((dealerPosition s + 1) mod length (players s))%nat in
  match advanceBettingRound s with
  | Done s' =>
      (1 + count <= length (deck s))%nat
      ∧ currentBettingRound s' = nextStreet (currentBettingRound s)
      ∧ communityCards s' = communityCards s ++ take count (drop 1 (deck s))
      ∧ deck s' = drop (1 + count) (deck s)
      ∧ players s' = cleared
      ∧ tableBet s' = 0 ∧ pot s' = pot s ∧ handComplete s' = handComplete s
      ∧ dealerPosition s' = dealerPosition s
      ∧ (∀ p, players s !! next = Some p → canStillAct p = true →
           activePlayerIndex s' = next)
      ∧ (Forall (fun p => canStillAct p = false) (players s) →
         activePlayerIndex s' = activePlayerIndex s)
  | Throw e s' =>
      e = CannotDeal ∧ (length (deck s) < 1 + count)%nat ∧ players s' = cleared
  end.
Proof.
  intros Hr. cbv zeta.
  unfold advanceBettingRound. fold (clearRound s). cbv zeta.
  change (currentBettingRound (clearRound s)) with (currentBettingRound s).
  assert (Hstreet : ∀ count next,
    match (let* s0 := burnAndDeal count (clearRound s) in
           Done (setFirstPlayerPostFlop (set_tableBet 0 (set_currentBettingRound next s0)))) with
    | Done s' =>
        (1 + count <= length (deck s))%nat
        ∧ currentBettingRound s' = next
        ∧ communityCards s' = communityCards s ++ take count (drop 1 (deck s))
        ∧ deck s' = drop (1 + count) (deck s)
        ∧ players s' = players (clearRound s)
        ∧ tableBet s' = 0 ∧ pot s' = pot s ∧ handComplete s' = handComplete s
        ∧ dealerPosition s' = dealerPosition s
        ∧ (∀ p, players s !! ((dealerPosition s + 1) mod length (players s))%nat = Some p →
             canStillAct p = true →
             activePlayerIndex s' = ((dealerPosition s + 1) mod length (players s))%nat)
        ∧ (Forall (fun p => canStillAct p = false) (players s) →
           activePlayerIndex s' = activePlayerIndex s)
    | Throw e s' =>
        e = CannotDeal ∧ (length (deck s) < 1 + count)%nat
        ∧ players s' = players (clearRound s)
    end).
  { intros count next.
    pose proof (burnAndDeal_outcome count (clearRound s)) as Ho.
    destruct (burnAndDeal count (clearRound s)) as [s2|e s2]; cbn [and_then]; [|exact Ho].
    destruct Ho as [Hlen ->].
    set (s3 := set_tableBet 0 (set_currentBettingRound next _)).
    assert (Hps : players s3 = players (clearRound s)) by done.
    assert (Hn : length (players s3) = length (players s)).
    { rewrite Hps. unfold clearRound. simpl. by rewrite length_map. }
    destruct (setFirstPlayerPostFlop_seat s3) as [k Ek].
    split; [exact Hlen|].
    rewrite Ek. cbn [currentBettingRound communityCards deck players tableBet pot
                     handComplete dealerPosition set_activePlayerIndex].
    split; [done|]. split; [done|].
    split; [subst s3; cbn [deck set_tableBet set_currentBettingRound set_communityCards
                           set_deck clearRound set_players]; apply drop_drop|].
    do 5 (split; [done|]).
    split.
    - intros p Hp Hc. rewrite <- Ek.
      rewrite (setFirstPlayerPostFlop_next_seat s3
                 (set_currentBet 0 (set_hasActed false p))).
      + simpl. by rewrite length_map.
      + rewrite Hn. change (dealerPosition s3) with (dealerPosition s). rewrite Hps.
        unfold clearRound. simpl.
        change (map ?f ?l) with (f <$> l). by rewrite list_lookup_fmap, Hp.
      + exact Hc.
    - intros Hnone. rewrite <- Ek. unfold setFirstPlayerPostFlop.
      assert (Hnil : List.filter (fun p => negb (isAllIn p)) (getPlayersStillInHand s3) = []).
      { rewrite getPlayersStillInHand_filter, Hps. unfold clearRound. simpl.
        clear -Hnone. induction Hnone as [|p l Hp _ IH]; simpl; [done|].
        unfold canStillAct in Hp. change (stillInHand (set_currentBet 0 (set_hasActed false p)))
          with (stillInHand p).
        destruct (stillInHand p); simpl in *; [|exact IH].
        rewrite Hp. exact IH. }
      rewrite Hnil. done. }
  destruct Hr as [Hr|[Hr|Hr]]; rewrite Hr; cbn [streetCards nextStreet].
  - exact (Hstreet 3%nat FLOP).
  - exact (Hstreet 1%nat TURN).
  - exact (Hstreet 1%nat RIVER).
Qed.

Lemma new_street_starts_clean_witness :
  match advanceBettingRound state2 with
  | Done s' =>
      (1 + streetCards (currentBettingRound state2) <= length (deck state2))%nat
      ∧ currentBettingRound s' = nextStreet (currentBettingRound state2)
      ∧ communityCards s'
        = communityCards state2
          ++ take (streetCards (currentBettingRound state2)) (drop 1 (deck state2))
      ∧ deck s' = drop (1 + streetCards (currentBettingRound state2)) (deck state2)
      ∧ players s'
        = map (fun player => set_currentBet 0 (set_hasActed false player)) (players state2)
      ∧ tableBet s' = 0 ∧ pot s' = pot state2 ∧ handComplete s' = handComplete state2
      ∧ dealerPosition s' = dealerPosition state2
      ∧ (∀ p, players state2
                !! ((dealerPosition state2 + 1) mod length (players state2))%nat = Some p →
           canStillAct p = true →
           activePlayerIndex s'
           = ((dealerPosition state2 + 1) mod length (players state2))%nat)
      ∧ (Forall (fun p => canStillAct p = false) (players state2) →
         activePlayerIndex s' = activePlayerIndex state2)
  | Throw e s' =>
      e = CannotDeal
      ∧ (length (deck state2) < 1 + streetCards (currentBettingRound state2))%nat
      ∧ players s'
        = map (fun player => set_currentBet 0 (set_hasActed false player)) (players state2)
  end.
Proof.
  apply (new_street_starts_clean state2). left. vm_compute. reflexivity.
Defined.
